(** * Attractor: pipeline engine, agent session and LLM client utilities

    A shallow embedding of the parts of the Go sources that the stated
    properties are about:

    - [pkg/pipeline]  engine.go (Run, executeWithRetry, selectEdge, goal
      gates), types.go (Graph, Node, Edge, Outcome, Context), validate.go
      (the lint rules, Validate, ValidateOrRaise), runner.go (RunGraph)
      and util.go;
    - [pkg/pipeline/condition]  Evaluate and Validate;
    - [pkg/pipeline/stylesheet]  Stylesheet.Apply and sortBySpecificity;
    - [pkg/agent]  session.go (Submit, runLoop, truncation, loop detector);
    - [pkg/llm]  retry.go (DelayForAttempt, Retry), errors.go
      (ClassifyHTTPError) and types.go (Usage, StreamAccumulator).

    Conventions.  A Go [string] is a byte string: Rocq's [string], one
    [ascii] per byte, so [len] is [String.length] and comparison is
    bytewise.  A Go [int] is a [Z]; where the source does arithmetic on it
    the 64-bit wrap-around is written out with [wrap64].  A Go map is a
    [gmap]; where the source ranges over a map the visiting order comes
    from a [GoRuntime], which also supplies [sort.Slice].  Pointers to
    records that the modelled code never shares are records; a nil pointer
    is [None]. *)

From Stdlib Require Import ZArith QArith Qround Qpower Lia Lqa.
From Stdlib Require Import Strings.String Strings.Ascii.
From stdpp Require Import base option list strings gmap sorting pretty.

Local Open Scope string_scope.
Local Open Scope list_scope.
Local Open Scope Z_scope.

(** ** Go integers *)

Definition minInt64 : Z := - 2 ^ 63.
Definition maxInt64 : Z := 2 ^ 63 - 1.

(** Two's-complement reduction of an exact result into the [int64] range. *)
Definition wrap64 (z : Z) : Z := (z + 2 ^ 63) mod 2 ^ 64 - 2 ^ 63.

Definition inInt64 (z : Z) : Prop := minInt64 <= z <= maxInt64.

(** ** The functions of Go's [strings] package that the sources call *)

Module GoStrings.

Definition byte_of (c : ascii) : N := N_of_ascii c.

Fixpoint to_bytes (s : string) : list ascii :=
  match s with
  | EmptyString => []
  | String c s' => c :: to_bytes s'
  end.

Fixpoint of_bytes (l : list ascii) : string :=
  match l with
  | [] => EmptyString
  | c :: l' => String c (of_bytes l')
  end.

Definition len (s : string) : Z := Z.of_nat (String.length s).

(** [s[:n]] and [s[n:]] for an index the caller has checked. *)
Definition slice_to (s : string) (n : nat) : string := substring 0 n s.

Fixpoint slice_from (s : string) (n : nat) : string :=
  match n, s with
  | O, _ => s
  | S n', String _ s' => slice_from s' n'
  | S _, EmptyString => EmptyString
  end.

Definition HasPrefix (s pre : string) : bool := String.prefix pre s.

Definition TrimPrefix (s pre : string) : string :=
  if String.prefix pre s then slice_from s (String.length pre) else s.

(** [strings.Index]: byte offset of the first occurrence, or -1. *)
Fixpoint index_from (i : nat) (s sep : string) : Z :=
  if String.prefix sep s then Z.of_nat i
  else match s with
       | EmptyString => -1
       | String _ s' => index_from (S i) s' sep
       end.

Definition Index (s sep : string) : Z := index_from 0 s sep.

(** [strings.Split] for a non-empty separator (the only use in the
    sources: "&&" and ","). [skip] counts the separator bytes still to be
    dropped, [cur] is the current piece, last byte first. *)
Fixpoint split_go (sep : string) (skip : nat) (cur : list ascii) (s : string)
  : list string :=
  match s with
  | EmptyString => [of_bytes (rev cur)]
  | String c s' =>
      match skip with
      | S k => split_go sep k cur s'
      | O =>
          if String.prefix sep s
          then of_bytes (rev cur) :: split_go sep (String.length sep - 1) [] s'
          else split_go sep O (c :: cur) s'
      end
  end.

Definition Split (s sep : string) : list string := split_go sep O [] s.

(** White space as [unicode.IsSpace] has it, on the UTF-8 encoding:
    the six ASCII spaces, U+0085, U+00A0, U+1680, U+2000..U+200A,
    U+2028, U+2029, U+202F, U+205F and U+3000. [space_width l] is the
    number of bytes of the space rune that [l] starts with, 0 if none. *)
Definition asciiSpace (b : N) : bool :=
  ((9 <=? b) && (b <=? 13) || (b =? 32))%N.

Definition space_width (l : list ascii) : nat :=
  match List.map byte_of l with
  | b :: rest =>
      if asciiSpace b then 1%nat
      else match b, rest with
           | 194%N, b1 :: _ =>
               if ((b1 =? 133) || (b1 =? 160))%N then 2%nat else 0%nat
           | 225%N, 154%N :: 128%N :: _ => 3%nat
           | 226%N, 128%N :: b2 :: _ =>
               if ((128 <=? b2) && (b2 <=? 138) || (b2 =? 168) || (b2 =? 169)
                   || (b2 =? 175))%N then 3%nat else 0%nat
           | 226%N, 129%N :: 159%N :: _ => 3%nat
           | 227%N, 128%N :: 128%N :: _ => 3%nat
           | _, _ => 0%nat
           end
  | [] => 0%nat
  end.

(** The same test on the reversed string: a space rune that the string
    ends with. The encodings above start with a lead byte followed by
    continuation bytes only, so a suffix that spells one of them is what
    [utf8.DecodeLastRuneInString] decodes. *)
Definition space_width_rev (r : list ascii) : nat :=
  match r with
  | c0 :: _ =>
      if asciiSpace (byte_of c0) then 1%nat
      else if Nat.eqb (space_width (rev (firstn 2 r))) 2 then 2%nat
      else if Nat.eqb (space_width (rev (firstn 3 r))) 3 then 3%nat
      else 0%nat
  | [] => 0%nat
  end.

Fixpoint trim_with (width : list ascii -> nat) (fuel : nat) (l : list ascii)
  : list ascii :=
  match fuel with
  | O => l
  | S fuel' =>
      match width l with
      | O => l
      | w => trim_with width fuel' (skipn w l)
      end
  end.

Definition TrimSpace (s : string) : string :=
  let l := to_bytes s in
  let l1 := trim_with space_width (List.length l) l in
  let r := rev l1 in
  of_bytes (rev (trim_with space_width_rev (List.length r) r)).

(** [strings.ToLower] on ASCII letters. Go also lower-cases letters
    outside ASCII through the Unicode tables of its run-time library;
    bytes >= 128 are left as they are here. *)
Definition lower_byte (c : ascii) : ascii :=
  let b := byte_of c in
  if ((65 <=? b) && (b <=? 90))%N then ascii_of_N (b + 32) else c.

Definition ToLower (s : string) : string :=
  of_bytes (List.map lower_byte (to_bytes s)).

(** Byte [i] of [s] ([s[i]] for an index the caller has checked). *)
Definition byte_at (s : string) (i : nat) : option ascii := String.get i s.

Definition is_byte (o : option ascii) (c : ascii) : bool :=
  match o with
  | Some c' => Ascii.eqb c' c
  | None => false
  end.

(** [strings.Contains]. *)
Definition Contains (s substr : string) : bool := 0 <=? Index s substr.

(** [strings.SplitN(s, sep, 2)] for a non-empty separator: the text
    before the first occurrence and the text after it, or [s] alone. *)
Definition SplitN2 (s sep : string) : list string :=
  let idx := Index s sep in
  if 0 <=? idx
  then [slice_to s (Z.to_nat idx);
        slice_from s (Z.to_nat idx + String.length sep)%nat]
  else [s].

End GoStrings.

(** ** The Go run-time library, as far as the result depends on it

    [sort.Slice] sorts by a caller-supplied [less] and promises no order
    among elements that [less] does not separate; a [range] over a map
    visits every entry once in an order the language leaves open. Both are
    taken from a [GoRuntime], and every property below holds for each of
    them. *)

Definition asymmetric_less {A} (less : A -> A -> bool) : Prop :=
  forall x y, less x y = true -> less y x = false.

Definition negatively_transitive {A} (less : A -> A -> bool) : Prop :=
  forall x y z, less x y = false -> less y z = false -> less x z = false.

(** No element is [less] than one placed before it. *)
Definition ordered_by {A} (less : A -> A -> bool) (l : list A) : Prop :=
  forall (i j : nat) (a b : A),
    (i < j)%nat -> l !! i = Some a -> l !! j = Some b -> less b a = false.

Class GoRuntime := {
  sort_Slice : forall {A : Type}, (A -> A -> bool) -> list A -> list A;
  sort_Slice_perm :
    forall (A : Type) (less : A -> A -> bool) (l : list A),
      sort_Slice less l ≡ₚ l;
  sort_Slice_ordered :
    forall (A : Type) (less : A -> A -> bool) (l : list A),
      asymmetric_less less -> negatively_transitive less ->
      ordered_by less (sort_Slice less l);
  range_map : forall {V : Type}, gmap string V -> list (string * V);
  range_map_perm :
    forall (V : Type) (m : gmap string V), range_map m ≡ₚ map_to_list m
}.

(** ** pkg/pipeline: types.go *)

Module Pipeline.

Definition StageStatus := string.
Definition StatusSuccess : StageStatus := "success".
Definition StatusPartialSuccess : StageStatus := "partial_success".
Definition StatusRetry : StageStatus := "retry".
Definition StatusFail : StageStatus := "fail".
Definition StatusSkipped : StageStatus := "skipped".

(** The values of type [interface{}] that the engine and the handlers of
    this repository store in a Context, with [fmt.Sprint] on them. *)
Inductive Value :=
| VString (s : string)
| VInt (z : Z)
| VBool (b : bool).

Definition Sprint (v : Value) : string :=
  match v with
  | VString s => s
  | VInt z => pretty z
  | VBool true => "true"
  | VBool false => "false"
  end.

Record Outcome := mkOutcome {
  Status : StageStatus;
  PreferredLabel : string;
  SuggestedNextIDs : list string;
  ContextUpdates : gmap string Value;
  Notes : string;
  FailureReason : string
}.

Record Node := mkNode {
  ID : string;
  Label : string;
  Shape : string;
  Type_ : string;
  Prompt : string;
  MaxRetries : Z;
  GoalGate : bool;
  RetryTarget : string;
  FallbackRetryTarget : string;
  Fidelity : string;
  ThreadID : string;
  Class_ : string;
  Timeout : Z;
  LLMModel : string;
  LLMProvider : string;
  ReasoningEffort : string;
  AutoStatus : bool;
  AllowPartial : bool;
  Attrs : gmap string string
}.

Record Edge := mkEdge {
  From : string;
  To : string;
  ELabel : string;
  Condition : string;
  Weight : Z;
  EFidelity : string;
  EThreadID : string;
  LoopRestart : bool
}.

Record Graph := mkGraph {
  Name : string;
  Goal : string;
  GLabel : string;
  ModelStylesheet : string;
  DefaultMaxRetry : Z;
  DefaultFidelity : string;
  GRetryTarget : string;
  GFallbackRetryTarget : string;
  Nodes : gmap string Node;
  Edges : list Edge;
  GAttrs : gmap string string
}.

Definition OutgoingEdges (g : Graph) (nodeID : string) : list Edge :=
  List.filter (fun e => String.eqb (From e) nodeID) (Edges g).

Record Context := mkContext {
  values : gmap string Value;
  logs : list string
}.

Definition NewContext : Context := mkContext ∅ [].

Definition Set_ (c : Context) (key : string) (value : Value) : Context :=
  mkContext (<[key := value]> (values c)) (logs c).

Definition Get (c : Context) (key : string) : option Value := values c !! key.

(** Every key of [updates] is written; keys are distinct, so the order of
    the range does not matter and the result is the left-biased union. *)
Definition ApplyUpdates (c : Context) (updates : gmap string Value) : Context :=
  mkContext (updates ∪ values c) (logs c).

(** *** engine.go: conditions *)

Definition resolveKeySimple (key : string) (outcome : option Outcome)
    (ctx : Context) : string :=
  if String.eqb key "outcome" then
    match outcome with
    | None => ""
    | Some o => Status o
    end
  else if String.eqb key "preferred_label" then
    match outcome with
    | None => ""
    | Some o => PreferredLabel o
    end
  else if GoStrings.HasPrefix key "context." then
    match Get ctx key with
    | Some v => Sprint v
    | None =>
        let stripped := GoStrings.TrimPrefix key "context." in
        match Get ctx stripped with
        | Some v => Sprint v
        | None => ""
        end
    end
  else
    match Get ctx key with
    | Some v => Sprint v
    | None => ""
    end.

Definition evaluateClauseSimple (clause : string) (outcome : option Outcome)
    (ctx : Context) : bool :=
  let idx := GoStrings.Index clause "!=" in
  if 0 <=? idx then
    let key := GoStrings.TrimSpace (GoStrings.slice_to clause (Z.to_nat idx)) in
    let value := GoStrings.TrimSpace (GoStrings.slice_from clause (Z.to_nat (idx + 2))) in
    negb (String.eqb (resolveKeySimple key outcome ctx) value)
  else
    let idx := GoStrings.Index clause "=" in
    if 0 <=? idx then
      let key := GoStrings.TrimSpace (GoStrings.slice_to clause (Z.to_nat idx)) in
      let value := GoStrings.TrimSpace (GoStrings.slice_from clause (Z.to_nat (idx + 1))) in
      String.eqb (resolveKeySimple key outcome ctx) value
    else
      let resolved := resolveKeySimple (GoStrings.TrimSpace clause) outcome ctx in
      negb (String.eqb resolved "") && negb (String.eqb resolved "false")
      && negb (String.eqb resolved "0").

Fixpoint evaluateClauses (clauses : list string) (outcome : option Outcome)
    (ctx : Context) : bool :=
  match clauses with
  | [] => true
  | clause :: rest =>
      let clause := GoStrings.TrimSpace clause in
      if String.eqb clause "" then evaluateClauses rest outcome ctx
      else if negb (evaluateClauseSimple clause outcome ctx) then false
      else evaluateClauses rest outcome ctx
  end.

Definition evaluateConditionSimple (condition : string)
    (outcome : option Outcome) (ctx : Context) : bool :=
  let condition := GoStrings.TrimSpace condition in
  if String.eqb condition "" then true
  else evaluateClauses (GoStrings.Split condition "&&") outcome ctx.

(** *** engine.go: edge selection *)

Definition normalizeLabel (label : string) : string :=
  let label := GoStrings.ToLower (GoStrings.TrimSpace label) in
  let at_ i c := GoStrings.is_byte (GoStrings.byte_at label i) c in
  let label :=
    if 3 <? GoStrings.len label then
      if at_ 0%nat "["%char then
        let idx := GoStrings.Index label "] " in
        if 0 <=? idx then GoStrings.slice_from label (Z.to_nat (idx + 2))
        else label
      else if (2 <? GoStrings.len label) && at_ 1%nat ")"%char
              && at_ 2%nat " "%char then
        GoStrings.slice_from label 3
      else if (3 <? GoStrings.len label) && at_ 1%nat " "%char
              && at_ 2%nat "-"%char && at_ 3%nat " "%char then
        GoStrings.slice_from label 4
      else label
    else label in
  GoStrings.TrimSpace label.

(** The [less] passed to [sort.Slice]: heavier first, then smaller [To]. *)
Definition edgeLess (a b : Edge) : bool :=
  if negb (Weight a =? Weight b) then Weight b <? Weight a
  else String.ltb (To a) (To b).

Definition matchesCondition (outcome : option Outcome) (ctx : Context)
    (edge : Edge) : bool :=
  negb (String.eqb (Condition edge) "")
  && evaluateConditionSimple (Condition edge) outcome ctx.

(** First edge whose [To] is the first suggested id that any edge has. *)
Fixpoint firstSuggested (suggested : list string) (edges : list Edge)
  : option Edge :=
  match suggested with
  | [] => None
  | suggestedID :: rest =>
      match List.find (fun e => String.eqb (To e) suggestedID) edges with
      | Some e => Some e
      | None => firstSuggested rest edges
      end
  end.

Section EdgeSelection.
Context `{GoRuntime}.

Definition bestByWeightThenLexical (edges : list Edge) : option Edge :=
  match edges with
  | [] => None
  | _ => head (sort_Slice edgeLess edges)
  end.

Definition selectEdge (node : Node) (outcome : option Outcome)
    (ctx : Context) (graph : Graph) : option Edge :=
  let edges := OutgoingEdges graph (ID node) in
  match edges with
  | [] => None
  | _ =>
      (* Step 1: condition matching *)
      let conditionMatched := List.filter (matchesCondition outcome ctx) edges in
      if 0 <? Z.of_nat (List.length conditionMatched)
      then bestByWeightThenLexical conditionMatched
      else
        (* Step 2: preferred label *)
        let byLabel :=
          match outcome with
          | Some o =>
              if negb (String.eqb (PreferredLabel o) "") then
                List.find (fun e => String.eqb (normalizeLabel (ELabel e))
                                      (normalizeLabel (PreferredLabel o))) edges
              else None
          | None => None
          end in
        match byLabel with
        | Some e => Some e
        | None =>
            (* Step 3: suggested next ids *)
            let bySuggestion :=
              match outcome with
              | Some o => firstSuggested (SuggestedNextIDs o) edges
              | None => None
              end in
            match bySuggestion with
            | Some e => Some e
            | None =>
                (* Steps 4 and 5: unconditional edges by weight *)
                let unconditional :=
                  List.filter (fun e => String.eqb (Condition e) "") edges in
                if 0 <? Z.of_nat (List.length unconditional)
                then bestByWeightThenLexical unconditional
                else bestByWeightThenLexical edges
            end
        end
  end.
End EdgeSelection.

(** *** engine.go: retry at a node *)

Record RetryPolicy := mkRetryPolicy {
  MaxAttempts : Z;
  InitialDelay : Z;
  BackoffFactor : Q;
  MaxDelay : Z;
  Jitter : bool
}.

Definition buildRetryPolicy (node : Node) (graph : Graph) : RetryPolicy :=
  let maxRetries := MaxRetries node in
  let maxRetries := if maxRetries =? 0 then DefaultMaxRetry graph else maxRetries in
  {| MaxAttempts := wrap64 (maxRetries + 1);
     InitialDelay := 200 * 1000000;
     BackoffFactor := 2;
     MaxDelay := 60 * 1000000000;
     Jitter := true |}.

(** [delayForAttempt]. Durations are [time.Duration] values, whole
    nanoseconds. The source computes the delay in [float64]; the model
    reads that arithmetic as exact arithmetic on rationals and the
    conversion [time.Duration(delay)] as truncation toward zero. [draw]
    is what [rand.Float64()] returns for this call, a number in [0, 1);
    it is only looked at when [Jitter] is set. *)
Definition delayForAttempt (attempt : Z) (policy : RetryPolicy) (draw : Q) : Z :=
  let delay :=
    (inject_Z (InitialDelay policy)
     * Qpower (BackoffFactor policy) (attempt - 1))%Q in
  let delay :=
    if Qle_bool delay (inject_Z (MaxDelay policy)) then delay
    else inject_Z (MaxDelay policy) in
  let delay := if Jitter policy then (delay * ((1 # 2) + draw))%Q else delay in
  if Qle_bool 0 delay then Qfloor delay else Qceiling delay.

(** What [Handler.Execute] returns: an outcome with a nil error, or an
    error. A handler also owns state of its own (a counter, a backend,
    the file system) and gets the run's Context by reference: [W] is
    that state, and the Context it leaves behind is part of the result. *)
Inductive HandlerReturn :=
| Returned (outcome : Outcome)
| Failed (err : string).

(** What a run does that is visible outside it: the events handed to the
    emitter, the handler invocations and the back-off sleeps. The length
    of a sleep ([delayForAttempt], with random jitter) has no influence on
    the control flow and is not recorded. *)
Inductive Effect :=
| PipelineStarted (name : string)
| PipelineFailed (err : string)
| PipelineCompleted (completed : Z)
| StageStarted (label : string) (stageIndex : Z)
| StageCompleted (label : string) (stageIndex : Z)
| StageFailed (label : string) (stageIndex : Z) (reason : string)
| StageRetrying (label : string) (stageIndex : Z) (attempt : Z)
| CheckpointSaved (nodeID : string)
| Execute (nodeID : string) (attempt : Z)
| Sleep (attempt : Z).

(** [%q] of a string without characters that need escaping. *)
Definition quoted (s : string) : string :=
  String (ascii_of_nat 34) s +:+ String (ascii_of_nat 34) "".

Definition isSuccessLike (st : StageStatus) : bool :=
  String.eqb st StatusSuccess || String.eqb st StatusPartialSuccess.

Section Engine.
Context `{GoRuntime}.
Context {W : Type}.

Definition Handler : Type :=
  Node -> Context -> Graph -> string -> W -> HandlerReturn * Context * W.

(** [HandlerResolver.Resolve]; [None] is a nil handler. *)
Variable Resolve : Node -> option Handler.
(** [EngineConfig.LogsRoot]. *)
Variable LogsRoot : string.

Record Machine := mkMachine {
  mCtx : Context;
  mWorld : W;
  mLog : list Effect
}.

Definition emit (m : Machine) (es : list Effect) : Machine :=
  mkMachine (mCtx m) (mWorld m) (mLog m ++ es).

Definition failOutcome (reason : string) : Outcome :=
  mkOutcome StatusFail "" [] ∅ "" reason.

(** The [for attempt := 1; attempt <= maxAttempts; attempt++] loop of
    executeWithRetry; [remaining] is [maxAttempts - attempt + 1]. *)
Fixpoint attempts (remaining : nat) (attempt maxAttempts : Z)
    (handler : Handler) (node : Node) (graph : Graph) (stageIndex : Z)
    (m : Machine) : Outcome * Machine :=
  match remaining with
  | O => (failOutcome "max retries exceeded", m)
  | S remaining' =>
      let '(ret, ctx', w') := handler node (mCtx m) graph LogsRoot (mWorld m) in
      let m := mkMachine ctx' w' (mLog m ++ [Execute (ID node) attempt]) in
      let again (m : Machine) :=
        attempts remaining' (attempt + 1) maxAttempts handler node graph
          stageIndex m in
      let backoff (m : Machine) :=
        emit m [StageRetrying (Label node) stageIndex attempt; Sleep attempt] in
      match ret with
      | Failed err =>
          if attempt <? maxAttempts then again (backoff m)
          else (failOutcome err, m)
      | Returned outcome =>
          if isSuccessLike (Status outcome) then (outcome, m)
          else if String.eqb (Status outcome) StatusRetry then
            if attempt <? maxAttempts then again (backoff m)
            else if AllowPartial node then
              (mkOutcome StatusPartialSuccess "" [] ∅
                 "retries exhausted, partial accepted" "", m)
            else (failOutcome "max retries exceeded", m)
          else if String.eqb (Status outcome) StatusFail then (outcome, m)
          else again m
      end
  end.

(** The error result of executeWithRetry is nil on every path, so the
    model returns the outcome alone. *)
Definition executeWithRetry (node : Node) (graph : Graph)
    (policy : RetryPolicy) (stageIndex : Z) (m : Machine)
  : Outcome * Machine :=
  match Resolve node with
  | None =>
      (failOutcome ("no handler found for node " +:+ quoted (ID node)), m)
  | Some handler =>
      let maxAttempts := MaxAttempts policy in
      let maxAttempts := if maxAttempts <? 1 then 1 else maxAttempts in
      attempts (Z.to_nat maxAttempts) 1 maxAttempts handler node graph
        stageIndex m
  end.

(** *** engine.go: Run *)

Record RunResult := mkRunResult {
  RStatus : StageStatus;
  CompletedNodes : list string;
  FinalOutcome : option Outcome;
  NodeOutcomes : gmap string Outcome
}.

(** [Run] returns a result, or an error, or does not return: it
    dereferences a nil node ([RunPanic]) or keeps looping, which the
    model shows as running out of [fuel]. *)
Inductive RunReturn :=
| RunOk (result : RunResult)
| RunError (err : string)
| RunPanic
| RunOutOfFuel.

Definition findStartNode (graph : Graph) : option Node :=
  let nodes := List.map snd (range_map (Nodes graph)) in
  match List.find (fun node => String.eqb (Shape node) "Mdiamond") nodes with
  | Some node => Some node
  | None =>
      List.find (fun node => String.eqb (ID node) "start"
                             || String.eqb (ID node) "Start") nodes
  end.

Definition isTerminal (node : Node) : bool := String.eqb (Shape node) "Msquare".

Fixpoint checkGates (graph : Graph) (entries : list (string * Outcome))
  : bool * option Node :=
  match entries with
  | [] => (true, None)
  | (nodeID, outcome) :: rest =>
      match Nodes graph !! nodeID with
      | Some node =>
          if GoalGate node && negb (String.eqb (Status outcome) StatusSuccess)
             && negb (String.eqb (Status outcome) StatusPartialSuccess)
          then (false, Some node)
          else checkGates graph rest
      | None => checkGates graph rest
      end
  end.

Definition checkGoalGates (graph : Graph) (nodeOutcomes : gmap string Outcome)
  : bool * option Node :=
  checkGates graph (range_map nodeOutcomes).

Definition getRetryTarget (node : Node) (graph : Graph) : string :=
  if negb (String.eqb (RetryTarget node) "") then RetryTarget node
  else if negb (String.eqb (FallbackRetryTarget node) "") then FallbackRetryTarget node
  else if negb (String.eqb (GRetryTarget graph) "") then GRetryTarget graph
  else if negb (String.eqb (GFallbackRetryTarget graph) "") then GFallbackRetryTarget graph
  else "".

Definition mirrorGraphAttributes (graph : Graph) (ctx : Context) : Context :=
  let ctx := Set_ ctx "graph.goal" (VString (Goal graph)) in
  if negb (String.eqb (GLabel graph) "")
  then Set_ ctx "graph.label" (VString (GLabel graph))
  else ctx.

(** The code after the loop: the final status is fail as soon as one
    recorded outcome is a fail. *)
Definition finish (completedNodes : list string)
    (nodeOutcomes : gmap string Outcome) (m : Machine) : RunReturn * Machine :=
  let m := emit m [PipelineCompleted (Z.of_nat (List.length completedNodes))] in
  let finalStatus :=
    if List.existsb (fun kv => String.eqb (Status (snd kv)) StatusFail)
         (range_map nodeOutcomes)
    then StatusFail else StatusSuccess in
  (RunOk (mkRunResult finalStatus completedNodes None nodeOutcomes), m).

(** Steps 2 to 5 at a node that is not terminal: execute, record,
    update the Context, save the checkpoint. The files written on the
    way ([status.json], [checkpoint.json]) are not read back by the run
    and are not modelled. *)
Definition executeNode (node : Node) (graph : Graph) (stageIndex : Z)
    (completedNodes : list string) (nodeOutcomes : gmap string Outcome)
    (m : Machine)
  : Outcome * list string * gmap string Outcome * Machine :=
  let m := emit m [StageStarted (Label node) stageIndex] in
  let retryPolicy := buildRetryPolicy node graph in
  let '(outcome, m) := executeWithRetry node graph retryPolicy stageIndex m in
  let m :=
    if isSuccessLike (Status outcome)
    then emit m [StageCompleted (Label node) stageIndex]
    else emit m [StageFailed (Label node) stageIndex (FailureReason outcome)] in
  let completedNodes := completedNodes ++ [ID node] in
  let nodeOutcomes := <[ID node := outcome]> nodeOutcomes in
  let ctx := ApplyUpdates (mCtx m) (ContextUpdates outcome) in
  let ctx := Set_ ctx "outcome" (VString (Status outcome)) in
  let ctx :=
    if negb (String.eqb (PreferredLabel outcome) "")
    then Set_ ctx "preferred_label" (VString (PreferredLabel outcome))
    else ctx in
  let m := mkMachine ctx (mWorld m) (mLog m) in
  let m :=
    if negb (String.eqb LogsRoot "") then emit m [CheckpointSaved (ID node)]
    else m in
  (outcome, completedNodes, nodeOutcomes, m).

(** The [for] loop of Run, one iteration per unit of [fuel].
    [currentNode] is [None] after [graph.Nodes[nextEdge.To]] found no
    node: the next iteration dereferences it. *)
Fixpoint runLoop (fuel : nat) (graph : Graph) (currentNode : option Node)
    (stageIndex : Z) (completedNodes : list string)
    (nodeOutcomes : gmap string Outcome) (m : Machine)
  : RunReturn * Machine :=
  match fuel with
  | O => (RunOutOfFuel, m)
  | S fuel' =>
      match currentNode with
      | None => (RunPanic, m)
      | Some current =>
          match Nodes graph !! ID current with
          | None =>
              let err := "node " +:+ quoted (ID current) +:+ " not found in graph" in
              (RunError err, emit m [PipelineFailed err])
          | Some node =>
              if isTerminal node then
                (* Step 1: terminal node, goal gates *)
                match checkGoalGates graph nodeOutcomes with
                | (false, Some failedGate) =>
                    let retryTarget := getRetryTarget failedGate graph in
                    let target :=
                      if negb (String.eqb retryTarget "")
                      then Nodes graph !! retryTarget else None in
                    match target with
                    | Some targetNode =>
                        runLoop fuel' graph (Some targetNode) stageIndex
                          completedNodes nodeOutcomes m
                    | None =>
                        let err := "goal gate " +:+ quoted (ID failedGate)
                                   +:+ " unsatisfied and no retry target" in
                        (RunOk (mkRunResult StatusFail completedNodes None
                                  nodeOutcomes),
                         emit m [PipelineFailed err])
                    end
                | _ => finish completedNodes nodeOutcomes m
                end
              else
                let '(outcome, completedNodes, nodeOutcomes, m) :=
                  executeNode node graph stageIndex completedNodes
                    nodeOutcomes m in
                (* Step 6: select next edge *)
                match selectEdge node (Some outcome) (mCtx m) graph with
                | None =>
                    if String.eqb (Status outcome) StatusFail then
                      let err := "stage " +:+ quoted (ID node)
                                 +:+ " failed with no outgoing fail edge" in
                      (RunOk (mkRunResult StatusFail completedNodes
                                (Some outcome) nodeOutcomes),
                       emit m [PipelineFailed err])
                    else finish completedNodes nodeOutcomes m
                | Some nextEdge =>
                    if LoopRestart nextEdge then
                      (* Step 7: loop_restart *)
                      runLoop fuel' graph (Nodes graph !! To nextEdge)
                        stageIndex completedNodes nodeOutcomes m
                    else
                      (* Step 8: advance *)
                      runLoop fuel' graph (Nodes graph !! To nextEdge)
                        (wrap64 (stageIndex + 1)) completedNodes
                        nodeOutcomes m
                end
          end
      end
  end.

Definition Run (fuel : nat) (graph : Graph) (w : W) : RunReturn * Machine :=
  let m := mkMachine NewContext w [PipelineStarted (Name graph)] in
  let m := mkMachine (mirrorGraphAttributes graph (mCtx m)) (mWorld m) (mLog m) in
  match findStartNode graph with
  | None =>
      (RunError "no start node found",
       emit m [PipelineFailed "no start node found"])
  | Some startNode => runLoop fuel graph (Some startNode) 0 [] ∅ m
  end.

End Engine.

(** *** util.go *)

(** [truncate]; [None] where a slice bound is negative and the program
    stops. *)
Definition truncate (s : string) (maxLen : Z) : option string :=
  if GoStrings.len s <=? maxLen then Some s
  else if maxLen <=? 3 then
    if maxLen <? 0 then None else Some (GoStrings.slice_to s (Z.to_nat maxLen))
  else Some (GoStrings.slice_to s (Z.to_nat (maxLen - 3)) +:+ "...").

End Pipeline.

(** ** pkg/pipeline/stylesheet *)

Module Stylesheet.
Import Pipeline.

(** [type SelectorType int], with the constants the [iota] block gives. *)
Definition SelectorType := Z.
Definition SelectorUniversal : SelectorType := 0.
Definition SelectorShape : SelectorType := 1.
Definition SelectorClass : SelectorType := 2.
Definition SelectorID : SelectorType := 3.

Definition SpecificityUniversal : Z := 0.
Definition SpecificityShape : Z := 1.
Definition SpecificityClass : Z := 2.
Definition SpecificityID : Z := 3.

Record Rule := mkRule {
  Selector : string;
  SelType : SelectorType;
  Properties : gmap string string;
  Specificity : Z
}.

Record Stylesheet := mkStylesheet { Rules : list Rule }.

(** The selector switch of [Parse]: the rule that a selector text and a
    parsed declaration block give. *)
Definition parseSelector (selector : string) (properties : gmap string string)
  : Rule :=
  if String.eqb selector "*" then
    mkRule selector SelectorUniversal properties SpecificityUniversal
  else if GoStrings.HasPrefix selector "." then
    mkRule (GoStrings.TrimPrefix selector ".") SelectorClass properties
      SpecificityClass
  else if GoStrings.HasPrefix selector "#" then
    mkRule (GoStrings.TrimPrefix selector "#") SelectorID properties
      SpecificityID
  else mkRule selector SelectorShape properties SpecificityShape.

Definition withLLM (node : Node) (model provider effort : string) : Node :=
  mkNode (ID node) (Label node) (Shape node) (Type_ node) (Prompt node)
    (MaxRetries node) (GoalGate node) (RetryTarget node)
    (FallbackRetryTarget node) (Fidelity node) (ThreadID node) (Class_ node)
    (Timeout node) model provider effort (AutoStatus node)
    (AllowPartial node) (Attrs node).

Definition applyProperty (node : Node) (prop val : string) : Node :=
  if String.eqb prop "llm_model" || String.eqb prop "model" then
    withLLM node val (LLMProvider node) (ReasoningEffort node)
  else if String.eqb prop "llm_provider" then
    withLLM node (LLMModel node) val (ReasoningEffort node)
  else if String.eqb prop "reasoning_effort" then
    withLLM node (LLMModel node) (LLMProvider node) val
  else node.

Definition matches (rule : Rule) (node : Node) : bool :=
  if SelType rule =? SelectorUniversal then true
  else if SelType rule =? SelectorShape then
    String.eqb (Shape node) (Selector rule)
  else if SelType rule =? SelectorClass then
    List.existsb
      (fun c => String.eqb (GoStrings.TrimSpace c) (Selector rule))
      (GoStrings.Split (Class_ node) ",")
  else if SelType rule =? SelectorID then
    String.eqb (ID node) (Selector rule)
  else false.

(** The inner loop of sortBySpecificity: the new element moves left past
    every neighbour of strictly higher specificity. [sorted] is the part
    already in order, last element first. *)
Fixpoint sink (rule : Rule) (sorted : list Rule) : list Rule :=
  match sorted with
  | [] => [rule]
  | prev :: rest =>
      if Specificity rule <? Specificity prev then prev :: sink rule rest
      else rule :: sorted
  end.

Definition sortBySpecificity (rules : list Rule) : list Rule :=
  rev (List.fold_left (fun sorted rule => sink rule sorted) rules []).

Section Apply.
Context `{GoRuntime}.

Definition applyRule (node : Node) (rule : Rule) : Node :=
  List.fold_left (fun n pv => applyProperty n (fst pv) (snd pv))
    (range_map (Properties rule)) node.

(** The body of the loop of [Apply], for one node. *)
Definition applyToNode (ss : Stylesheet) (node : Node) : Node :=
  let explicitModel := LLMModel node in
  let explicitProvider := LLMProvider node in
  let explicitEffort := ReasoningEffort node in
  let node := withLLM node "" "" "" in
  let matching := List.filter (fun rule => matches rule node) (Rules ss) in
  let matching := sortBySpecificity matching in
  let node := List.fold_left applyRule matching node in
  let node :=
    if negb (String.eqb explicitModel "")
    then withLLM node explicitModel (LLMProvider node) (ReasoningEffort node)
    else node in
  let node :=
    if negb (String.eqb explicitProvider "")
    then withLLM node (LLMModel node) explicitProvider (ReasoningEffort node)
    else node in
  if negb (String.eqb explicitEffort "")
  then withLLM node (LLMModel node) (LLMProvider node) explicitEffort
  else node.

(** Every node of the graph is rewritten in place; the nodes do not
    influence each other, so the order of the range is immaterial. *)
Definition Apply (ss : Stylesheet) (graph : Graph) : Graph :=
  mkGraph (Name graph) (Goal graph) (GLabel graph) (ModelStylesheet graph)
    (DefaultMaxRetry graph) (DefaultFidelity graph) (GRetryTarget graph)
    (GFallbackRetryTarget graph) (applyToNode ss <$> Nodes graph)
    (Edges graph) (GAttrs graph).
End Apply.

End Stylesheet.

(** ** pkg/llm: types.go, errors.go, retry.go *)

Module LLM.

Record Usage := mkUsage {
  InputTokens : Z;
  OutputTokens : Z;
  TotalTokens : Z;
  ReasoningTokens : Z;
  CachedTokens : Z;
  CacheReadTokens : Z;
  CacheWriteTokens : Z
}.

Definition zeroUsage : Usage := mkUsage 0 0 0 0 0 0 0.

(** [Usage.Add]: field by field, in [int] arithmetic. *)
Definition Add (u other : Usage) : Usage :=
  mkUsage (wrap64 (InputTokens u + InputTokens other))
    (wrap64 (OutputTokens u + OutputTokens other))
    (wrap64 (TotalTokens u + TotalTokens other))
    (wrap64 (ReasoningTokens u + ReasoningTokens other))
    (wrap64 (CachedTokens u + CachedTokens other))
    (wrap64 (CacheReadTokens u + CacheReadTokens other))
    (wrap64 (CacheWriteTokens u + CacheWriteTokens other)).

(** [Arguments] is a [json.RawMessage], a byte slice. *)
Record ToolCall := mkToolCall {
  TCID : string;
  TCName : string;
  Arguments : string
}.

Record ToolResult := mkToolResult {
  ToolCallID : string;
  TRContent : string;
  IsError : bool
}.

Definition FinishReason := string.

Record Response := mkResponse {
  RID : string;
  RModel : string;
  RContent : string;
  RToolCalls : list ToolCall;
  RFinishReason : FinishReason;
  RUsage : Usage;
  RReasoning : string
}.

(** *** The stream accumulator *)

Definition StreamEventType := string.
Definition StreamEventStart : StreamEventType := "start".
Definition StreamEventDelta : StreamEventType := "delta".
Definition StreamEventToolCallStart : StreamEventType := "tool_call_start".
Definition StreamEventToolCallDelta : StreamEventType := "tool_call_delta".
Definition StreamEventToolCallEnd : StreamEventType := "tool_call_end".
Definition StreamEventReasoningDelta : StreamEventType := "reasoning_delta".
Definition StreamEventEnd : StreamEventType := "end".
Definition StreamEventError : StreamEventType := "error".

Record StreamEvent := mkStreamEvent {
  SEType : StreamEventType;
  Delta : string;
  SEToolCall : option ToolCall;
  SEFinishReason : FinishReason;
  SEUsage : option Usage;
  SEResponse : option Response;
  SEError : option string
}.

Record StreamAccumulator := mkStreamAccumulator {
  content : string;
  reasoning : string;
  toolCalls : list ToolCall;
  finishReason : FinishReason;
  usage : option Usage;
  model : string;
  id : string
}.

Definition emptyAccumulator : StreamAccumulator :=
  mkStreamAccumulator "" "" [] "" None "" "".

(** [Process] with Go's run-time checks made explicit: indexing a slice
    outside its length stops the program, which is [None] here. *)
Definition Process (a : StreamAccumulator) (event : StreamEvent)
  : option StreamAccumulator :=
  let ty := SEType event in
  if String.eqb ty StreamEventDelta then
    Some (mkStreamAccumulator (content a +:+ Delta event) (reasoning a)
            (toolCalls a) (finishReason a) (usage a) (model a) (id a))
  else if String.eqb ty StreamEventReasoningDelta then
    Some (mkStreamAccumulator (content a) (reasoning a +:+ Delta event)
            (toolCalls a) (finishReason a) (usage a) (model a) (id a))
  else if String.eqb ty StreamEventToolCallStart then
    match SEToolCall event with
    | Some tc =>
        Some (mkStreamAccumulator (content a) (reasoning a)
                (toolCalls a ++ [tc]) (finishReason a) (usage a) (model a)
                (id a))
    | None => Some a
    end
  else if String.eqb ty StreamEventToolCallDelta then
    if (0 <? Z.of_nat (List.length (toolCalls a)))
       && negb (String.eqb (Delta event) "") then
      let i := (List.length (toolCalls a) - 1)%nat in
      match toolCalls a !! i with
      | Some last =>
          let last := mkToolCall (TCID last) (TCName last)
                        (Arguments last +:+ Delta event) in
          Some (mkStreamAccumulator (content a) (reasoning a)
                  (<[i := last]> (toolCalls a)) (finishReason a) (usage a)
                  (model a) (id a))
      | None => None
      end
    else Some a
  else if String.eqb ty StreamEventEnd then
    Some (mkStreamAccumulator (content a) (reasoning a) (toolCalls a)
            (SEFinishReason event)
            (match SEUsage event with
             | Some u => Some u
             | None => usage a
             end)
            (model a) (id a))
  else Some a.

Fixpoint ProcessAll (a : StreamAccumulator) (events : list StreamEvent)
  : option StreamAccumulator :=
  match events with
  | [] => Some a
  | event :: rest =>
      match Process a event with
      | Some a' => ProcessAll a' rest
      | None => None
      end
  end.

(** [Response()], without the [CreatedAt] time stamp. *)
Definition Response_ (a : StreamAccumulator) : Response :=
  mkResponse (id a) (model a) (content a) (toolCalls a) (finishReason a)
    (match usage a with
     | Some u => u
     | None => zeroUsage
     end)
    (reasoning a).

(** *** errors.go *)

Definition ErrorType := string.
Definition ErrorTypeAuth : ErrorType := "auth".
Definition ErrorTypeRateLimit : ErrorType := "rate_limit".
Definition ErrorTypeServer : ErrorType := "server".
Definition ErrorTypeNetwork : ErrorType := "network".
Definition ErrorTypeBadRequest : ErrorType := "bad_request".
Definition ErrorTypeTimeout : ErrorType := "timeout".
Definition ErrorTypeUnknown : ErrorType := "unknown".

(** [RetryAfter] is a [time.Duration]: nanoseconds, 0 when absent. *)
Record LLMError := mkLLMError {
  EType : ErrorType;
  Message : string;
  StatusCode : Z;
  Provider : string;
  RetryAfter : Z
}.

(** A Go [error] seen by Retry: an [*LLMError] or anything else. *)
Inductive Error :=
| ELLM (e : LLMError)
| EOther (msg : string).

Definition IsRetryable (e : LLMError) : bool :=
  String.eqb (EType e) ErrorTypeRateLimit || String.eqb (EType e) ErrorTypeServer
  || String.eqb (EType e) ErrorTypeNetwork || String.eqb (EType e) ErrorTypeTimeout.

Definition DefaultShouldRetry (err : Error) : bool :=
  match err with
  | ELLM e => IsRetryable e
  | EOther _ => false
  end.

Definition ClassifyHTTPError (statusCode : Z) (body provider : string)
  : LLMError :=
  let errType :=
    if (statusCode =? 401) || (statusCode =? 403) then ErrorTypeAuth
    else if statusCode =? 429 then ErrorTypeRateLimit
    else if (statusCode =? 400) || (statusCode =? 422) then ErrorTypeBadRequest
    else if 500 <=? statusCode then ErrorTypeServer
    else ErrorTypeUnknown in
  mkLLMError errType body statusCode provider 0.

(** *** retry.go

    Durations are [time.Duration] values, whole nanoseconds. The source
    computes the delay in [float64]; the model reads that arithmetic as
    exact arithmetic on rationals (no rounding, no infinities), and the
    conversion [time.Duration(delay)] as truncation toward zero. *)

Record RetryConfig := mkRetryConfig {
  MaxAttempts : Z;
  InitialDelay : Z;
  BackoffFactor : Q;
  MaxDelay : Z;
  Jitter : bool;
  ShouldRetry : option (Error -> bool)
}.

Definition millisecond : Z := 1000000.
Definition second : Z := 1000000000.

Definition DefaultRetryConfig : RetryConfig :=
  mkRetryConfig 5 (200 * millisecond) 2 (60 * second) true (Some DefaultShouldRetry).

Definition LinearRetryConfig : RetryConfig :=
  mkRetryConfig 3 (500 * millisecond) 1 (60 * second) false (Some DefaultShouldRetry).

Definition truncate (q : Q) : Z :=
  if Qle_bool 0 q then Qfloor q else Qceiling q.

(** The delay before jitter: the exponential, clamped from above. *)
Definition clampedDelay (rc : RetryConfig) (attempt : Z) : Q :=
  let delay := (inject_Z (InitialDelay rc) * Qpower (BackoffFactor rc) (attempt - 1))%Q in
  if Qle_bool delay (inject_Z (MaxDelay rc)) then delay else inject_Z (MaxDelay rc).

(** [draw] is what [rand.Float64()] returns for this call, a number in
    [0, 1); it is only looked at when [Jitter] is set. *)
Definition DelayForAttempt (rc : RetryConfig) (attempt : Z) (draw : Q) : Z :=
  let delay := clampedDelay rc attempt in
  let delay := if Jitter rc then (delay * ((1 # 2) + draw))%Q else delay in
  truncate delay.

Inductive RetryReturn :=
| RetryResponse (resp : Response)
| RetryFailed (err : Error)
| RetryCancelled
| RetryNothing.

Section Retry.
(** [W]: whatever [fn], the random source and the clock depend on. *)
Context {W : Type}.
(** The operation being retried. *)
Variable fn : W -> (Response + Error) * W.
(** [rand.Float64()]. *)
Variable randFloat64 : W -> Q * W.
(** The [select] between [ctx.Done()] and [time.After(delay)]: [true]
    when the context is done first. *)
Variable waitOrDone : Z -> W -> bool * W.

(** The delay Retry waits after a failed [attempt]. *)
Definition retryDelay (config : RetryConfig) (attempt : Z) (err : Error)
    (draw : Q) : Z :=
  let delay := DelayForAttempt config attempt draw in
  match err with
  | ELLM llmErr =>
      if (0 <? RetryAfter llmErr) && (RetryAfter llmErr <=? MaxDelay config)
      then RetryAfter llmErr else delay
  | EOther _ => delay
  end.

(** The loop of Retry; [remaining] is [MaxAttempts - attempt + 1] and
    [slept] collects the delays waited so far. The return value when
    the loop body never runs is [nil, nil]: [RetryNothing]. *)
Fixpoint retryLoop (remaining : nat) (attempt : Z) (config : RetryConfig)
    (lastErr : option Error) (slept : list Z) (w : W)
  : RetryReturn * list Z * W :=
  match remaining with
  | O =>
      (match lastErr with
       | Some e => RetryFailed e
       | None => RetryNothing
       end, slept, w)
  | S remaining' =>
      let '(r, w) := fn w in
      match r with
      | inl resp => (RetryResponse resp, slept, w)
      | inr err =>
          let shouldRetry :=
            match ShouldRetry config with
            | Some f => f
            | None => DefaultShouldRetry
            end in
          if negb (shouldRetry err) || (MaxAttempts config <=? attempt)
          then (RetryFailed err, slept, w)
          else
            let '(draw, w) :=
              if Jitter config then randFloat64 w else (0%Q, w) in
            let delay := retryDelay config attempt err draw in
            let '(done, w) := waitOrDone delay w in
            if done then (RetryCancelled, slept, w)
            else retryLoop remaining' (attempt + 1) config (Some err)
                   (slept ++ [delay]) w
      end
  end.

Definition Retry (config : RetryConfig) (w : W) : RetryReturn * list Z * W :=
  retryLoop (Z.to_nat (MaxAttempts config)) 1 config None [] w.
End Retry.

End LLM.

(** ** pkg/agent: types.go, session.go *)

Module Agent.
Import LLM.

Definition SessionState := string.
Definition StateIdle : SessionState := "idle".
Definition StateProcessing : SessionState := "processing".
Definition StateAwaitingInput : SessionState := "awaiting_input".
Definition StateClosed : SessionState := "closed".

Record SessionConfig := mkSessionConfig {
  MaxTurns : Z;
  MaxToolRoundsPerInput : Z;
  DefaultCommandTimeoutMs : Z;
  MaxCommandTimeoutMs : Z;
  ReasoningEffort : string;
  ToolOutputLimits : gmap string Z;
  EnableLoopDetection : bool;
  LoopDetectionWindow : Z;
  MaxSubagentDepth : Z
}.

Definition DefaultSessionConfig : SessionConfig :=
  mkSessionConfig 0 0 10000 600000 "" ∅ true 10 1.

Inductive Turn :=
| UserTurn (content : string)
| SteeringTurn (content : string)
| AssistantTurn (content : string) (toolCalls : list ToolCall)
    (reasoning : string) (usage : Usage) (responseID : string)
| ToolResultsTurn (results : list ToolResult).

(** The events handed to the emitter, with the data the loop puts in. *)
Inductive Event :=
| SessionStarted (input : string)
| TurnStarted (toolRound : Z)
| TurnCompleted (content : string) (toolRound : Z)
| ToolCallStarted (toolName toolID : string)
| ToolCallCompleted (toolName toolID : string) (isError : bool) (output : string)
| ErrorEvent (err : string)
| SessionClosed
| LoopDetected (tool : string) (count : Z)
| SteeringApplied (message : string).

(** *** Truncation of tool output *)

Definition nl : string := String (ascii_of_nat 10) "".

Definition defaultToolOutputLimits : gmap string Z :=
  <["read_file" := 50000]> (<["bash" := 30000]> (<["grep" := 20000]>
    (<["glob" := 10000]> ∅))).

Definition getToolOutputLimit (config : SessionConfig) (toolName : string) : Z :=
  match ToolOutputLimits config !! toolName with
  | Some limit => limit
  | None =>
      match defaultToolOutputLimits !! toolName with
      | Some limit => limit
      | None => 50000
      end
  end.

Definition defaultLineLimits : gmap string Z :=
  <["bash" := 256]> (<["grep" := 200]> (<["glob" := 500]> ∅)).

Definition truncationMarker (truncated : Z) : string :=
  nl +:+ nl +:+ "[WARNING: Tool output was truncated. " +:+ pretty truncated
  +:+ " characters removed from the middle. The full output is available in the event stream. If you need to see specific parts, re-run with more targeted parameters.]"
  +:+ nl +:+ nl.

(** [None]: a slice bound outside the string, where the program stops. *)
Definition truncateToolOutput (content : string) (limit : Z) : option string :=
  if GoStrings.len content <=? limit then Some content
  else
    let headSize := Z.quot (wrap64 (limit * 3)) 4 in
    let tailSize := wrap64 (wrap64 (limit - headSize) - 150) in
    let tailSize := if tailSize <? 0 then 0 else tailSize in
    if (headSize <? 0) || (GoStrings.len content <? headSize) then None
    else
      let head := GoStrings.slice_to content (Z.to_nat headSize) in
      let truncated := wrap64 (wrap64 (GoStrings.len content - headSize) - tailSize) in
      let marker := truncationMarker truncated in
      if 0 <? tailSize then
        if GoStrings.len content <? tailSize then None
        else
          let tail := GoStrings.slice_from content
                        (Z.to_nat (GoStrings.len content - tailSize)) in
          Some (head +:+ marker +:+ tail)
      else Some (head +:+ marker).

Fixpoint Join (elems : list string) (sep : string) : string :=
  match elems with
  | [] => ""
  | [e] => e
  | e :: rest => e +:+ sep +:+ Join rest sep
  end.

Definition truncateLines (content : string) (maxLines : Z) : option string :=
  let lines := GoStrings.Split content nl in
  let n := Z.of_nat (List.length lines) in
  if n <=? maxLines then Some content
  else
    let headCount := Z.quot maxLines 2 in
    let tailCount := maxLines - headCount in
    let omitted := n - headCount - tailCount in
    if (headCount <? 0) || (tailCount <? 0) || (n <? tailCount) then None
    else
      let head := Join (firstn (Z.to_nat headCount) lines) nl in
      let tail := Join (skipn (Z.to_nat (n - tailCount)) lines) nl in
      Some (head +:+ (nl +:+ "[... " +:+ pretty omitted +:+ " lines omitted ...]" +:+ nl)
            +:+ tail).

Definition applyTruncation (config : SessionConfig) (toolName output : string)
  : option string :=
  let charLimit := getToolOutputLimit config toolName in
  match truncateToolOutput output charLimit with
  | None => None
  | Some result =>
      match defaultLineLimits !! toolName with
      | Some lineLimit => truncateLines result lineLimit
      | None => Some result
      end
  end.

(** *** Loop detector *)

Record loopDetector := mkLoopDetector {
  window : Z;
  history : list string
}.

Definition newLoopDetector (window : Z) : loopDetector := mkLoopDetector window [].

Fixpoint sameKeys (chunk pattern : list string) : bool :=
  match chunk, pattern with
  | c :: chunk', p :: pattern' => String.eqb c p && sameKeys chunk' pattern'
  | _, _ => true
  end.

(** The loop over the blocks [recent[i:i+patternLen]] for
    [i = patternLen, 2*patternLen, ...] below [window]. *)
Fixpoint allMatch (fuel : nat) (recent : list string) (window patternLen i : nat)
  : bool :=
  match fuel with
  | O => true
  | S fuel' =>
      if (i <? window)%nat then
        if (window <? i + patternLen)%nat then true
        else if sameKeys (firstn patternLen (skipn i recent))
                  (firstn patternLen recent)
        then allMatch fuel' recent window patternLen (i + patternLen)%nat
        else false
      else true
  end.

(** The result is [None] for a window below 1 once the history has
    [window] entries: the slice expressions then leave the length of the
    slice, and the program stops or reads whatever the allocator left
    behind the data. *)
Definition recordAndCheck (ld : loopDetector) (name args : string)
  : option bool * loopDetector :=
  let key := name +:+ ":" +:+ args in
  let ld := mkLoopDetector (window ld) (history ld ++ [key]) in
  if Z.of_nat (List.length (history ld)) <? window ld then (Some false, ld)
  else if window ld <? 1 then (None, ld)
  else
    let w := Z.to_nat (window ld) in
    let recent := skipn (List.length (history ld) - w) (history ld) in
    (Some (List.existsb
             (fun patternLen =>
                (w mod patternLen =? 0)%nat
                && allMatch w recent w patternLen patternLen)
             [1; 2; 3]%nat), ld).

(** *** Session *)

Record Tool := mkTool {
  ToolName : string;
  Description : string;
  Parameters : string
}.

Record ProviderProfile := mkProviderProfile {
  PName : string;
  PProvider : string;
  PModel : string;
  SystemPrompt : string;
  Tools : list Tool;
  SupportsParallelToolCalls : bool
}.

Record Message := mkMessage {
  Role : string;
  MContent : string;
  MToolCalls : list ToolCall;
  MToolCallID : string
}.

Record Request := mkRequest {
  ReqModel : string;
  ReqSystemPrompt : string;
  ReqReasoningEffort : string;
  ReqTools : list Tool;
  Messages : list Message
}.

(** The fields of [Session] that Submit and the loop read or write;
    [Emitted] is what the EventEmitter has been given, oldest first. *)
Record Session := mkSession {
  Profile : ProviderProfile;
  Config : SessionConfig;
  State : SessionState;
  History : list Turn;
  SteeringQueue : list string;
  FollowupQueue : list string;
  turnCount : Z;
  detector : loopDetector;
  Emitted : list Event
}.

Definition NewSession (profile : ProviderProfile) (config : SessionConfig)
  : Session :=
  mkSession profile config StateIdle [] [] [] 0
    (newLoopDetector (LoopDetectionWindow config)) [].

Definition setState (s : Session) (st : SessionState) : Session :=
  mkSession (Profile s) (Config s) st (History s) (SteeringQueue s)
    (FollowupQueue s) (turnCount s) (detector s) (Emitted s).

Definition appendTurn (s : Session) (t : Turn) : Session :=
  mkSession (Profile s) (Config s) (State s) (History s ++ [t])
    (SteeringQueue s) (FollowupQueue s) (turnCount s) (detector s) (Emitted s).

Definition emit (s : Session) (e : Event) : Session :=
  mkSession (Profile s) (Config s) (State s) (History s) (SteeringQueue s)
    (FollowupQueue s) (turnCount s) (detector s) (Emitted s ++ [e]).

Definition setSteeringQueue (s : Session) (q : list string) : Session :=
  mkSession (Profile s) (Config s) (State s) (History s) q
    (FollowupQueue s) (turnCount s) (detector s) (Emitted s).

Definition setFollowupQueue (s : Session) (q : list string) : Session :=
  mkSession (Profile s) (Config s) (State s) (History s) (SteeringQueue s)
    q (turnCount s) (detector s) (Emitted s).

Definition setTurnCount (s : Session) (n : Z) : Session :=
  mkSession (Profile s) (Config s) (State s) (History s) (SteeringQueue s)
    (FollowupQueue s) n (detector s) (Emitted s).

Definition setDetector (s : Session) (ld : loopDetector) : Session :=
  mkSession (Profile s) (Config s) (State s) (History s) (SteeringQueue s)
    (FollowupQueue s) (turnCount s) ld (Emitted s).

Definition Steer (s : Session) (message : string) : Session :=
  setSteeringQueue s (SteeringQueue s ++ [message]).

Definition FollowUp (s : Session) (message : string) : Session :=
  setFollowupQueue s (FollowupQueue s ++ [message]).

Definition Close (s : Session) : Session := emit (setState s StateClosed) SessionClosed.

Definition turnMessages (t : Turn) : list Message :=
  match t with
  | UserTurn c => [mkMessage "user" c [] ""]
  | SteeringTurn c => [mkMessage "user" c [] ""]
  | AssistantTurn c tcs _ _ _ => [mkMessage "assistant" c tcs ""]
  | ToolResultsTurn results =>
      List.map (fun r => mkMessage "tool" (TRContent r) [] (ToolCallID r)) results
  end.

Definition buildRequest (s : Session) : Request :=
  mkRequest (PModel (Profile s)) (SystemPrompt (Profile s))
    (ReasoningEffort (Config s)) (Tools (Profile s))
    (List.concat (List.map turnMessages (History s))).

(** How Submit ends: with a nil error, with an error, or by a run-time
    panic of the loop. [SubmitNested] marks a nesting depth that the
    model was not given; [Submit] below always gives enough. *)
Inductive SubmitReturn :=
| SubmitOk
| SubmitError (err : string)
| SubmitPanic
| SubmitNested.

Section Loop.
(** [W]: the state of the LLM client, of the execution environment and
    of the [context.Context] the caller passed. *)
Context {W : Type}.
(** [ctx.Err()] when [ctx.Done()] is closed. *)
Variable ctxErr : W -> option string.
(** [LLMClient.Complete]. *)
Variable Complete : Request -> W -> (Response + string) * W.
(** [ExecutionEnv.Execute]: the output and the error, if any. *)
Variable Execute : string -> string -> W -> (string * option string) * W.

Fixpoint executeToolCalls (s : Session) (toolCalls : list ToolCall) (w : W)
  : option (list ToolResult) * Session * W :=
  match toolCalls with
  | [] => (Some [], s, w)
  | tc :: rest =>
      let s := emit s (ToolCallStarted (TCName tc) (TCID tc)) in
      let '((result, err), w) := Execute (TCName tc) (Arguments tc) w in
      let recorded :=
        match err with
        | Some e => Some (mkToolResult (TCID tc) ("Error: " +:+ e) true)
        | None =>
            match applyTruncation (Config s) (TCName tc) result with
            | Some content => Some (mkToolResult (TCID tc) content false)
            | None => None
            end
        end in
      match recorded with
      | None => (None, s, w)
      | Some r =>
          let s := emit s (ToolCallCompleted (TCName tc) (TCID tc) (IsError r) result) in
          let '(results, s, w) := executeToolCalls s rest w in
          (match results with
           | Some rs => Some (r :: rs)
           | None => None
           end, s, w)
      end
  end.

(** The loop-detection pass over the tool calls of one response;
    [false] when recordAndCheck stopped the program. *)
Fixpoint detectLoops (s : Session) (toolCalls : list ToolCall) : bool * Session :=
  match toolCalls with
  | [] => (true, s)
  | tc :: rest =>
      let '(fired, ld) := recordAndCheck (detector s) (TCName tc) (Arguments tc) in
      let s := setDetector s ld in
      match fired with
      | None => (false, s)
      | Some true =>
          let s := emit s (LoopDetected (TCName tc)
                             (LoopDetectionWindow (Config s))) in
          let s := Steer s "You appear to be in a loop calling the same tool repeatedly. Please try a different approach." in
          detectLoops s rest
      | Some false => detectLoops s rest
      end
  end.

(** How the [for] loop of runLoop is left. *)
Inductive LoopExit :=
| LoopLeft
| LoopReturned (err : string)
| LoopPanicked.

(** The [for toolRound < maxToolRounds] loop; [remaining] is
    [maxToolRounds - toolRound]. *)
Fixpoint rounds (remaining : nat) (toolRound : Z) (s : Session) (w : W)
  : LoopExit * Session * W :=
  match remaining with
  | O => (LoopLeft, s, w)
  | S remaining' =>
      match ctxErr w with
      | Some err => (LoopReturned err, s, w)
      | None =>
          let s :=
            match SteeringQueue s with
            | msg :: queue =>
                let s := setSteeringQueue s queue in
                let s := appendTurn s (SteeringTurn msg) in
                emit s (SteeringApplied msg)
            | [] => s
            end in
          let req := buildRequest s in
          let s := emit s (TurnStarted toolRound) in
          let '(r, w) := Complete req w in
          match r with
          | inr err =>
              (LoopReturned ("LLM call failed: " +:+ err),
               emit s (ErrorEvent err), w)
          | inl resp =>
              let s := appendTurn s
                         (AssistantTurn (RContent resp) (RToolCalls resp)
                            (RReasoning resp) (RUsage resp) (RID resp)) in
              let s := setTurnCount s (wrap64 (turnCount s + 1)) in
              if (0 <? MaxTurns (Config s)) && (MaxTurns (Config s) <=? turnCount s)
              then (LoopLeft, s, w)
              else
                match RToolCalls resp with
                | [] => (LoopLeft, emit s (TurnCompleted (RContent resp) toolRound), w)
                | _ =>
                    let '(results, s, w) := executeToolCalls s (RToolCalls resp) w in
                    match results with
                    | None => (LoopPanicked, s, w)
                    | Some results =>
                        let s := appendTurn s (ToolResultsTurn results) in
                        let '(ok, s) :=
                          if EnableLoopDetection (Config s)
                          then detectLoops s (RToolCalls resp)
                          else (true, s) in
                        if ok then rounds remaining' (toolRound + 1) s w
                        else (LoopPanicked, s, w)
                    end
                end
          end
      end
  end.

(** runLoop, with the Submit it calls for a follow-up as a parameter. *)
Definition runLoop (submit : Session -> string -> W -> SubmitReturn * Session * W)
    (s : Session) (w : W) : SubmitReturn * Session * W :=
  let maxToolRounds := MaxToolRoundsPerInput (Config s) in
  let maxToolRounds := if maxToolRounds =? 0 then 200 else maxToolRounds in
  let '(exit, s, w) := rounds (Z.to_nat maxToolRounds) 0 s w in
  match exit with
  | LoopReturned err => (SubmitError err, s, w)
  | LoopPanicked => (SubmitPanic, s, w)
  | LoopLeft =>
      (* Process follow-up queue *)
      match FollowupQueue s with
      | msg :: queue => submit (setFollowupQueue s queue) msg w
      | [] => (SubmitOk, s, w)
      end
  end.

(** Submit; [depth] bounds the nesting of Submit inside runLoop. The
    deferred function runs when Submit returns after the state check,
    also when the loop panicked. *)
Fixpoint submitAt (depth : nat) (s : Session) (input : string) (w : W)
  : SubmitReturn * Session * W :=
  if negb (String.eqb (State s) StateIdle)
     && negb (String.eqb (State s) StateAwaitingInput)
  then (SubmitError ("session is not idle (state: " +:+ State s +:+ ")"), s, w)
  else
    let s := setState s StateProcessing in
    let s := emit s (SessionStarted input) in
    let s := appendTurn s (UserTurn input) in
    let nested :=
      match depth with
      | S depth' => submitAt depth'
      | O => fun s _ w => (SubmitNested, s, w)
      end in
    let '(ret, s, w) := runLoop nested s w in
    let s := if String.eqb (State s) StateProcessing
             then setState s StateIdle else s in
    (ret, s, w).

Definition Submit (s : Session) (input : string) (w : W)
  : SubmitReturn * Session * W :=
  submitAt (S (List.length (FollowupQueue s))) s input w.
End Loop.

End Agent.

(** ** pkg/pipeline/condition *)

Module Condition.
Import Pipeline.

Definition resolveKey (key : string) (outcome : option Outcome)
    (ctx : Context) : string :=
  if String.eqb key "outcome" then
    match outcome with
    | None => ""
    | Some o => Status o
    end
  else if String.eqb key "preferred_label" then
    match outcome with
    | None => ""
    | Some o => PreferredLabel o
    end
  else if GoStrings.HasPrefix key "context." then
    (* Try with full key first *)
    match Get ctx key with
    | Some v => Sprint v
    | None =>
        (* Try without context. prefix *)
        let stripped := GoStrings.TrimPrefix key "context." in
        match Get ctx stripped with
        | Some v => Sprint v
        | None => ""
        end
    end
  else
    (* Direct context lookup *)
    match Get ctx key with
    | Some v => Sprint v
    | None => ""
    end.

Definition evaluateClause (clause : string) (outcome : option Outcome)
    (ctx : Context) : bool :=
  (* Check for != operator first (before = to avoid partial match) *)
  let idx := GoStrings.Index clause "!=" in
  if 0 <=? idx then
    let key := GoStrings.TrimSpace (GoStrings.slice_to clause (Z.to_nat idx)) in
    let value := GoStrings.TrimSpace (GoStrings.slice_from clause (Z.to_nat (idx + 2))) in
    negb (String.eqb (resolveKey key outcome ctx) value)
  else
    let idx := GoStrings.Index clause "=" in
    if 0 <=? idx then
      let key := GoStrings.TrimSpace (GoStrings.slice_to clause (Z.to_nat idx)) in
      let value := GoStrings.TrimSpace (GoStrings.slice_from clause (Z.to_nat (idx + 1))) in
      String.eqb (resolveKey key outcome ctx) value
    else
      (* Bare key: check if truthy *)
      let resolved := resolveKey (GoStrings.TrimSpace clause) outcome ctx in
      negb (String.eqb resolved "") && negb (String.eqb resolved "false")
      && negb (String.eqb resolved "0").

(** The loop of [Evaluate] over the clauses. *)
Fixpoint evaluateAll (clauses : list string) (outcome : option Outcome)
    (ctx : Context) : bool :=
  match clauses with
  | [] => true
  | clause :: rest =>
      let clause := GoStrings.TrimSpace clause in
      if String.eqb clause "" then evaluateAll rest outcome ctx
      else if negb (evaluateClause clause outcome ctx) then false
      else evaluateAll rest outcome ctx
  end.

Definition Evaluate (condition : string) (outcome : option Outcome)
    (ctx : Context) : bool :=
  let condition := GoStrings.TrimSpace condition in
  if String.eqb condition "" then true
  else evaluateAll (GoStrings.Split condition "&&") outcome ctx.

(** [validateClause]: [None] is a nil error. *)
Definition validateClause (clause : string) : option string :=
  if GoStrings.Contains clause "!=" then
    let parts := GoStrings.SplitN2 clause "!=" in
    if String.eqb (GoStrings.TrimSpace (List.hd "" parts)) ""
    then Some ("empty key in clause: " +:+ quoted clause)
    else None
  else if GoStrings.Contains clause "=" then
    let parts := GoStrings.SplitN2 clause "=" in
    if String.eqb (GoStrings.TrimSpace (List.hd "" parts)) ""
    then Some ("empty key in clause: " +:+ quoted clause)
    else None
  else if String.eqb (GoStrings.TrimSpace clause) "" then Some "empty clause"
  else None.

Fixpoint validateAll (clauses : list string) : option string :=
  match clauses with
  | [] => None
  | clause :: rest =>
      let clause := GoStrings.TrimSpace clause in
      if String.eqb clause "" then validateAll rest
      else match validateClause clause with
           | Some err => Some err
           | None => validateAll rest
           end
  end.

Definition Validate (condition : string) : option string :=
  let condition := GoStrings.TrimSpace condition in
  if String.eqb condition "" then None
  else validateAll (GoStrings.Split condition "&&").

End Condition.

(** ** pkg/pipeline: validate.go *)

Module Validate.
Import Pipeline.

(** [type Severity int], with the constants the [iota] block gives. *)
Definition Severity := Z.
Definition SeverityError : Severity := 0.
Definition SeverityWarning : Severity := 1.
Definition SeverityInfo : Severity := 2.

Definition Severity_String (s : Severity) : string :=
  if s =? SeverityError then "ERROR"
  else if s =? SeverityWarning then "WARNING"
  else if s =? SeverityInfo then "INFO"
  else "UNKNOWN".

Record Diagnostic := mkDiagnostic {
  DRule : string;
  DSeverity : Severity;
  DMessage : string;
  DNodeID : string;
  DEdge : option (string * string);
  DFix : string
}.

Definition Diagnostic_String (d : Diagnostic) : string :=
  let loc := "" in
  let loc := if negb (String.eqb (DNodeID d) "")
             then " (node: " +:+ DNodeID d +:+ ")" else loc in
  let loc := match DEdge d with
             | Some (from, to) => " (edge: " +:+ from +:+ " -> " +:+ to +:+ ")"
             | None => loc
             end in
  "[" +:+ Severity_String (DSeverity d) +:+ "] " +:+ DRule d +:+ ": "
  +:+ DMessage d +:+ loc.

(** [ValidationError.Error]. *)
Definition ValidationError_Error (diagnostics : list Diagnostic) : string :=
  let msgs :=
    List.map Diagnostic_String
      (List.filter (fun d => DSeverity d =? SeverityError) diagnostics) in
  "validation failed with " +:+ pretty (Z.of_nat (List.length msgs))
  +:+ " error(s):" +:+ String (ascii_of_nat 10) ""
  +:+ Agent.Join msgs (String (ascii_of_nat 10) "").

(** The loop over [graph.Edges] for one node taken off the queue. In
    [visited], as in the source, a key that is absent reads as false. *)
Fixpoint visitEdges (current : string) (edges : list Edge)
    (visited : gmap string bool) (queue : list string)
  : gmap string bool * list string :=
  match edges with
  | [] => (visited, queue)
  | e :: rest =>
      if String.eqb (From e) current && negb (default false (visited !! To e))
      then visitEdges current rest (<[To e := true]> visited) (queue ++ [To e])
      else visitEdges current rest visited queue
  end.

(** The [for len(queue) > 0] loop, one node per unit of [fuel];
    [None] when the fuel is used up before the queue is empty. *)
Fixpoint bfs (fuel : nat) (edges : list Edge) (visited : gmap string bool)
    (queue : list string) : option (gmap string bool) :=
  match queue with
  | [] => Some visited
  | current :: queue =>
      match fuel with
      | O => None
      | S fuel' =>
          let '(visited, queue) := visitEdges current edges visited queue in
          bfs fuel' edges visited queue
      end
  end.

Definition knownHandlerTypes : gset string :=
  list_to_set ["start"; "exit"; "codergen"; "wait.human"; "conditional";
               "parallel"; "parallel.fan_in"; "tool"; "stack.manager_loop"].

Definition validFidelityModes : gset string :=
  list_to_set ["full"; "truncate"; "compact"; "summary:low"; "summary:medium";
               "summary:high"].

(** [validateConditionSyntax]: [None] is a nil error. *)
Fixpoint validateClauses (clauses : list string) : option string :=
  match clauses with
  | [] => None
  | clause :: rest =>
      let clause := GoStrings.TrimSpace clause in
      if String.eqb clause "" then validateClauses rest
      else if GoStrings.Contains clause "!=" then
        let parts := GoStrings.SplitN2 clause "!=" in
        if String.eqb (GoStrings.TrimSpace (List.hd "" parts)) ""
        then Some ("empty key in clause: " +:+ quoted clause)
        else validateClauses rest
      else if GoStrings.Contains clause "=" then
        let parts := GoStrings.SplitN2 clause "=" in
        if String.eqb (GoStrings.TrimSpace (List.hd "" parts)) ""
        then Some ("empty key in clause: " +:+ quoted clause)
        else validateClauses rest
      else validateClauses rest
  end.

Definition validateConditionSyntax (condition : string) : option string :=
  validateClauses (GoStrings.Split condition "&&").

(** The loop of ruleStylesheetSyntax over the characters. The braces are
    ASCII, and a byte of a longer UTF-8 sequence is never one of them, so
    the loop over the runes sees what a loop over the bytes sees.
    [None]: the count fell below zero. *)
Fixpoint countBraces (ss : string) (braceCount : Z) : option Z :=
  match ss with
  | EmptyString => Some braceCount
  | String ch rest =>
      let braceCount :=
        if Ascii.eqb ch "{"%char then braceCount + 1 else braceCount in
      let braceCount :=
        if Ascii.eqb ch "}"%char then braceCount - 1 else braceCount in
      if braceCount <? 0 then None else countBraces rest braceCount
  end.

Section Rules.
Context `{GoRuntime}.

Definition findStartNode (graph : Graph) : option Node :=
  let nodes := List.map snd (range_map (Nodes graph)) in
  match List.find (fun node => String.eqb (Shape node) "Mdiamond") nodes with
  | Some node => Some node
  | None =>
      List.find (fun node => String.eqb (ID node) "start"
                             || String.eqb (ID node) "Start") nodes
  end.

Definition findExitNode (graph : Graph) : option Node :=
  let nodes := List.map snd (range_map (Nodes graph)) in
  match List.find (fun node => String.eqb (Shape node) "Msquare") nodes with
  | Some node => Some node
  | None =>
      List.find (fun node => String.eqb (ID node) "exit"
                             || String.eqb (ID node) "end"
                             || String.eqb (ID node) "done") nodes
  end.

(** The number of nodes of a shape; a count of map entries stays in the
    range of [int]. *)
Definition countShape (shape : string) (graph : Graph) : Z :=
  Z.of_nat (List.length
              (List.filter (fun kv => String.eqb (Shape (snd kv)) shape)
                 (range_map (Nodes graph)))).

Definition ruleStartNode (graph : Graph) : list Diagnostic :=
  let count := countShape "Mdiamond" graph in
  if count =? 0 then
    [mkDiagnostic "start_node" SeverityError
       "Pipeline must have exactly one start node (shape=Mdiamond)" "" None
       "Add a node with shape=Mdiamond"]
  else if 1 <? count then
    [mkDiagnostic "start_node" SeverityError
       ("Pipeline has " +:+ pretty count
        +:+ " start nodes but must have exactly one") "" None ""]
  else [].

Definition ruleTerminalNode (graph : Graph) : list Diagnostic :=
  let count := countShape "Msquare" graph in
  if count =? 0 then
    [mkDiagnostic "terminal_node" SeverityError
       "Pipeline must have at least one terminal node (shape=Msquare)" "" None
       "Add a node with shape=Msquare"]
  else [].

Definition ruleStartNoIncoming (graph : Graph) : list Diagnostic :=
  match findStartNode graph with
  | None => []
  | Some start =>
      match List.find (fun e => String.eqb (To e) (ID start)) (Edges graph) with
      | Some e =>
          [mkDiagnostic "start_no_incoming" SeverityError
             "Start node must have no incoming edges" (ID start)
             (Some (From e, To e)) ""]
      | None => []
      end
  end.

Definition ruleExitNoOutgoing (graph : Graph) : list Diagnostic :=
  match findExitNode graph with
  | None => []
  | Some exit =>
      match List.find (fun e => String.eqb (From e) (ID exit)) (Edges graph) with
      | Some e =>
          [mkDiagnostic "exit_no_outgoing" SeverityError
             "Exit node must have no outgoing edges" (ID exit)
             (Some (From e, To e)) ""]
      | None => []
      end
  end.

(** The breadth-first search of ruleReachability. Every node that enters
    the queue is the start node or the target of an edge, and none enters
    twice, so one more unit of fuel than there are edges is never used
    up ([bfs_fuel] below). *)
Definition reachableFrom (graph : Graph) (start : Node) : gmap string bool :=
  default ∅
    (bfs (S (List.length (Edges graph))) (Edges graph)
       (<[ID start := true]> ∅) [ID start]).

Definition ruleReachability (graph : Graph) : list Diagnostic :=
  match findStartNode graph with
  | None => []
  | Some start =>
      let visited := reachableFrom graph start in
      List.map
        (fun kv =>
           mkDiagnostic "reachability" SeverityError
             ("Node " +:+ quoted (ID (snd kv))
              +:+ " is not reachable from the start node")
             (ID (snd kv)) None "")
        (List.filter (fun kv => negb (default false (visited !! ID (snd kv))))
           (range_map (Nodes graph)))
  end.

Definition ruleEdgeTargetExists (graph : Graph) : list Diagnostic :=
  List.concat
    (List.map
       (fun e =>
          (match Nodes graph !! From e with
           | Some _ => []
           | None =>
               [mkDiagnostic "edge_target_exists" SeverityError
                  ("Edge source " +:+ quoted (From e) +:+ " does not exist")
                  "" (Some (From e, To e)) ""]
           end)
          ++
          (match Nodes graph !! To e with
           | Some _ => []
           | None =>
               [mkDiagnostic "edge_target_exists" SeverityError
                  ("Edge target " +:+ quoted (To e) +:+ " does not exist")
                  "" (Some (From e, To e)) ""]
           end))
       (Edges graph)).

Definition ruleConditionSyntax (graph : Graph) : list Diagnostic :=
  List.concat
    (List.map
       (fun e =>
          if negb (String.eqb (Condition e) "") then
            match validateConditionSyntax (Condition e) with
            | Some err =>
                [mkDiagnostic "condition_syntax" SeverityError
                   ("Invalid condition expression: " +:+ err) ""
                   (Some (From e, To e)) ""]
            | None => []
            end
          else [])
       (Edges graph)).

Definition ruleStylesheetSyntax (graph : Graph) : list Diagnostic :=
  if String.eqb (ModelStylesheet graph) "" then []
  else
    let unbalanced :=
      [mkDiagnostic "stylesheet_syntax" SeverityError
         "model_stylesheet has unbalanced braces" "" None ""] in
    match countBraces (ModelStylesheet graph) 0 with
    | None => unbalanced
    | Some braceCount => if negb (braceCount =? 0) then unbalanced else []
    end.

Definition ruleTypeKnown (graph : Graph) : list Diagnostic :=
  List.map
    (fun kv =>
       mkDiagnostic "type_known" SeverityWarning
         ("Node type " +:+ quoted (Type_ (snd kv))
          +:+ " is not a recognized handler type")
         (ID (snd kv)) None "")
    (List.filter
       (fun kv => negb (String.eqb (Type_ (snd kv)) "")
                  && negb (bool_decide (Type_ (snd kv) ∈ knownHandlerTypes)))
       (range_map (Nodes graph))).

Definition ruleFidelityValid (graph : Graph) : list Diagnostic :=
  List.map
    (fun kv =>
       mkDiagnostic "fidelity_valid" SeverityWarning
         ("Fidelity mode " +:+ quoted (Fidelity (snd kv)) +:+ " is not valid")
         (ID (snd kv)) None "")
    (List.filter
       (fun kv => negb (String.eqb (Fidelity (snd kv)) "")
                  && negb (bool_decide (Fidelity (snd kv) ∈ validFidelityModes)))
       (range_map (Nodes graph))).

Definition ruleRetryTargetExists (graph : Graph) : list Diagnostic :=
  List.concat
    (List.map
       (fun kv =>
          let node := snd kv in
          (if negb (String.eqb (RetryTarget node) "") then
             match Nodes graph !! RetryTarget node with
             | Some _ => []
             | None =>
                 [mkDiagnostic "retry_target_exists" SeverityWarning
                    ("retry_target " +:+ quoted (RetryTarget node)
                     +:+ " does not reference an existing node")
                    (ID node) None ""]
             end
           else [])
          ++
          (if negb (String.eqb (FallbackRetryTarget node) "") then
             match Nodes graph !! FallbackRetryTarget node with
             | Some _ => []
             | None =>
                 [mkDiagnostic "retry_target_exists" SeverityWarning
                    ("fallback_retry_target "
                     +:+ quoted (FallbackRetryTarget node)
                     +:+ " does not reference an existing node")
                    (ID node) None ""]
             end
           else []))
       (range_map (Nodes graph))).

Definition ruleGoalGateHasRetry (graph : Graph) : list Diagnostic :=
  List.map
    (fun kv =>
       mkDiagnostic "goal_gate_has_retry" SeverityWarning
         "goal_gate node has no retry_target or fallback_retry_target"
         (ID (snd kv)) None
         "Add retry_target or fallback_retry_target to this node or the graph")
    (List.filter
       (fun kv =>
          GoalGate (snd kv)
          && String.eqb (RetryTarget (snd kv)) ""
          && String.eqb (FallbackRetryTarget (snd kv)) ""
          && String.eqb (GRetryTarget graph) ""
          && String.eqb (GFallbackRetryTarget graph) "")
       (range_map (Nodes graph))).

Definition rulePromptOnLLMNodes (graph : Graph) : list Diagnostic :=
  List.map
    (fun kv =>
       mkDiagnostic "prompt_on_llm_nodes" SeverityWarning
         "Codergen node has no prompt or label" (ID (snd kv)) None
         "Add a prompt or label attribute")
    (List.filter
       (fun kv =>
          String.eqb (Shape (snd kv)) "box" && String.eqb (Type_ (snd kv)) ""
          && String.eqb (Prompt (snd kv)) ""
          && String.eqb (Label (snd kv)) (ID (snd kv)))
       (range_map (Nodes graph))).

(** [Validate]; [extraRules] are the [Apply] methods of the custom
    rules. *)
Definition Validate (graph : Graph) (extraRules : list (Graph -> list Diagnostic))
  : list Diagnostic :=
  ruleStartNode graph ++ ruleTerminalNode graph ++ ruleStartNoIncoming graph
  ++ ruleExitNoOutgoing graph ++ ruleReachability graph
  ++ ruleEdgeTargetExists graph ++ ruleConditionSyntax graph
  ++ ruleStylesheetSyntax graph ++ ruleTypeKnown graph
  ++ ruleFidelityValid graph ++ ruleRetryTargetExists graph
  ++ ruleGoalGateHasRetry graph ++ rulePromptOnLLMNodes graph
  ++ List.concat (List.map (fun rule => rule graph) extraRules).

(** [ValidateOrRaise]: the diagnostics and, when there are errors among
    them, those errors as a [*ValidationError]. *)
Definition ValidateOrRaise (graph : Graph)
    (extraRules : list (Graph -> list Diagnostic))
  : list Diagnostic * option (list Diagnostic) :=
  let diagnostics := Validate graph extraRules in
  let errors := List.filter (fun d => DSeverity d =? SeverityError) diagnostics in
  if 0 <? Z.of_nat (List.length errors) then (diagnostics, Some errors)
  else (diagnostics, None).

End Rules.

End Validate.

(** ** pkg/pipeline: runner.go *)

Module Runner.
Import Pipeline.

(** The fields of [Runner] that RunGraph reads. *)
Record Runner {W : Type} := mkRunner {
  resolver : Node -> option (@Handler W);
  transforms : list (Graph -> Graph);
  logsRoot : string
}.
Arguments Runner : clear implicits.

(** What RunGraph returns: the [*ValidationError] of ValidateOrRaise, or
    what [Engine.Run] returns, after the [validation_warning] events that
    the runner hands to the emitter before the engine starts. *)
Inductive RunGraphReturn {W : Type} :=
| Rejected (err : string)
| Ran (warnings : list Validate.Diagnostic) (ret : RunReturn)
      (m : @Machine W).
Arguments RunGraphReturn : clear implicits.

Section RunGraph.
Context {W : Type}.
(** Validation and the engine range over the maps of the graph
    independently of each other. *)
Variables (validation engine : GoRuntime).

(** [tempRoot] is the directory under [os.TempDir()] that is taken when
    the runner has no logs root. The manifest and the directories that
    RunGraph writes are not read back and are not modelled. *)
Definition RunGraph (r : Runner W) (tempRoot : string) (fuel : nat)
    (graph : Graph) (w : W) : RunGraphReturn W :=
  let graph := List.fold_left (fun g t => t g) (transforms r) graph in
  match @Validate.ValidateOrRaise validation graph [] with
  | (_, Some errors) => Rejected (Validate.ValidationError_Error errors)
  | (diagnostics, None) =>
      let warnings :=
        List.filter
          (fun d => Validate.DSeverity d =? Validate.SeverityWarning)
          diagnostics in
      let logsRoot :=
        if String.eqb (logsRoot r) "" then tempRoot else logsRoot r in
      let '(ret, m) := @Run engine W (resolver r) logsRoot fuel graph w in
      Ran warnings ret m
  end.

End RunGraph.

End Runner.

(** ** A reference run-time: insertion sort and the key order of the map *)

Fixpoint insert_by {A : Type} (less : A -> A -> bool) (x : A) (l : list A)
  : list A :=
  match l with
  | [] => [x]
  | y :: l' => if less x y then x :: l else y :: insert_by less x l'
  end.

Definition insertion_sort {A : Type} (less : A -> A -> bool) (l : list A)
  : list A :=
  List.fold_right (insert_by less) [] l.

(** ** Fixtures: the graphs, handlers and sessions of the repository's tests *)

Section EngineFixtures.
Import Pipeline.

Definition testNode (id shape label : string) : Node :=
  mkNode id label shape "" "" 0 false "" "" "" "" "" 0 "" "" "" false false ∅.

Definition testEdge (from to condition : string) (weight : Z) : Edge :=
  mkEdge from to "" condition weight "" "" false.

Definition testGraph (nodes : list Node) (edges : list Edge) : Graph :=
  mkGraph "test" "" "" "" 0 "" "" ""
    (list_to_map (List.map (fun n => (ID n, n)) nodes)) edges ∅.

Definition successOutcome : Outcome := mkOutcome StatusSuccess "" [] ∅ "" "".

(** TestEdgeSelectionConditionWins. *)
Definition conditionWinsGraph : Graph :=
  testGraph
    [testNode "start" "Mdiamond" "Start"; testNode "a" "box" "A";
     testNode "success" "box" "Success"; testNode "fail" "box" "Fail";
     testNode "exit" "Msquare" "Exit"]
    [testEdge "start" "a" "" 0;
     testEdge "a" "success" "outcome=success" 0;
     testEdge "a" "fail" "outcome=fail" 10;
     testEdge "success" "exit" "" 0;
     testEdge "fail" "exit" "" 0].

End EngineFixtures.

(** A handler that answers retry [attemptsBeforeSuccess] times and then
    success, counting its invocations (retryHandler of the engine tests). *)
Definition retryHandler (attemptsBeforeSuccess : Z) : @Pipeline.Handler Z :=
  fun _ ctx _ _ attempts =>
    let attempts := attempts + 1 in
    if attempts <=? attemptsBeforeSuccess
    then (Pipeline.Returned (Pipeline.mkOutcome Pipeline.StatusRetry "" [] ∅ "" "not yet"),
          ctx, attempts)
    else (Pipeline.Returned successOutcome, ctx, attempts).

(** A node [a] with the given max_retries and allow_partial. *)
Definition retryNode (maxRetries : Z) (allowPartial : bool) : Pipeline.Node :=
  Pipeline.mkNode "a" "A" "box" "" "" maxRetries false "" "" "" "" "" 0 "" "" ""
    false allowPartial ∅.

(** A handler that answers retry whenever it is asked. *)
Definition stubbornHandler : @Pipeline.Handler unit :=
  fun _ ctx _ _ w =>
    (Pipeline.Returned (Pipeline.mkOutcome Pipeline.StatusRetry "" [] ∅ "" "not yet"),
     ctx, w).

(** simpleHandler of the engine tests: success at every node. *)
Definition simpleHandler (response : string) : @Pipeline.Handler unit :=
  fun node ctx _ _ w =>
    (Pipeline.Returned
       (Pipeline.mkOutcome Pipeline.StatusSuccess "" []
          (<["last_stage" := Pipeline.VString (Pipeline.ID node)]>
             (<["last_response" := Pipeline.VString response]> ∅))
          ("completed: " +:+ Pipeline.ID node) ""),
     ctx, w).

(** failHandler of the engine tests. *)
Definition failHandler : @Pipeline.Handler unit :=
  fun _ ctx _ _ w =>
    (Pipeline.Returned
       (Pipeline.mkOutcome Pipeline.StatusFail "" [] ∅ "" "deliberate failure"),
     ctx, w).

(** TestExecuteLinearPipeline: start -> a -> b -> exit. *)
Definition linearGraph : Pipeline.Graph :=
  testGraph
    [testNode "start" "Mdiamond" "Start"; testNode "a" "box" "A";
     testNode "b" "box" "B"; testNode "exit" "Msquare" "Exit"]
    [testEdge "start" "a" "" 0; testEdge "a" "b" "" 0; testEdge "b" "exit" "" 0].

(** TestGoalGateBlocksExit and its variant without the gate:
    start -> a -> exit, where the handler of [a] fails. *)
Definition gateNode (goalGate : bool) : Pipeline.Node :=
  Pipeline.mkNode "a" "A" "box" "" "" 0 goalGate "" "" "" "" "" 0 "" "" ""
    false false ∅.

Definition gateGraph (goalGate : bool) : Pipeline.Graph :=
  testGraph
    [testNode "start" "Mdiamond" "Start"; gateNode goalGate;
     testNode "exit" "Msquare" "Exit"]
    [testEdge "start" "a" "" 0; testEdge "a" "exit" "" 0].

(** The handler of [a] fails, every other handler succeeds. *)
Definition gateResolver (node : Pipeline.Node) : option (@Pipeline.Handler unit) :=
  if String.eqb (Pipeline.ID node) "a" then Some failHandler
  else Some (simpleHandler "").

(** What is on record when this run arrives at [exit]. *)
Definition gateOutcomes : gmap string Pipeline.Outcome :=
  <["a" := Pipeline.failOutcome "deliberate failure"]>
    (<["start" := successOutcome]> ∅).

Definition gateMachine : @Pipeline.Machine unit :=
  Pipeline.mkMachine Pipeline.NewContext tt [].

(** Record the calls one after the other on a new detector with window
    [w] and collect what Check answers after each (TestLoopDetection). *)
Definition recordAll (w : Z) (calls : list (string * string))
  : list (option bool) :=
  snd (List.fold_left
         (fun acc call =>
            let '(fired, ld) := Agent.recordAndCheck (fst acc) (fst call) (snd call) in
            (ld, snd acc ++ [fired]))
         calls (Agent.newLoopDetector w, [])).

(** TestExplicitNodeAttributeOverridesStylesheet:
    [* { llm_model: default-model; }] on a node with an explicit model
    and on one without. *)
Definition defaultModelSheet : Stylesheet.Stylesheet :=
  Stylesheet.mkStylesheet
    [Stylesheet.parseSelector "*" (<["llm_model" := "default-model"]> ∅)].

Definition explicitNode : Pipeline.Node :=
  Pipeline.mkNode "a" "" "" "" "" 0 false "" "" "" "" "" 0 "explicit-model" ""
    "" false false ∅.

Definition explicitGraph : Pipeline.Graph :=
  testGraph [explicitNode; testNode "b" "" ""] [].

(** A configuration with jitter whose first delay is already max_delay,
    and an operation that fails once with a server error. *)
Definition cappedJitterConfig : LLM.RetryConfig :=
  LLM.mkRetryConfig 2 (60 * LLM.second) 2 (60 * LLM.second) true None.

Definition failsOnce (calls : nat) : (LLM.Response + LLM.Error) * nat :=
  match calls with
  | O => (inr (LLM.ELLM (LLM.mkLLMError LLM.ErrorTypeServer "busy" 503 "p" 0)), S calls)
  | S _ => (inl (LLM.mkResponse "r" "m" "ok" [] "stop" LLM.zeroUsage ""), S calls)
  end.

(** A session as the agent tests build it: a model that answers every
    request with a final text, no cancellation. *)
Definition testProfile : Agent.ProviderProfile :=
  Agent.mkProviderProfile "test" "test" "test-model" "You are a test agent." []
    false.

Definition finalAnswer (_ : Agent.Request) (w : unit)
  : (LLM.Response + string) * unit :=
  (inl (LLM.mkResponse "resp-1" "test-model" "done" [] "stop" LLM.zeroUsage ""), w).

Definition neverCancelled (_ : unit) : option string := None.

Definition noTools (_ _ : string) (w : unit) : (string * option string) * unit :=
  ("", None, w).

(** A review node with two labelled edges, the heavier one to [ship]. *)
Definition labelledEdge (from to label : string) (weight : Z) : Pipeline.Edge :=
  Pipeline.mkEdge from to label "" weight "" "" false.

Definition reviewGraph : Pipeline.Graph :=
  testGraph
    [testNode "start" "Mdiamond" "Start"; testNode "review" "hexagon" "Review";
     testNode "ship" "box" "Ship"; testNode "repair" "box" "Repair";
     testNode "exit" "Msquare" "Exit"]
    [testEdge "start" "review" "" 0;
     labelledEdge "review" "ship" "[A] Approve" 10;
     labelledEdge "review" "repair" "[F] Fix" 0;
     testEdge "ship" "exit" "" 0;
     testEdge "repair" "exit" "" 0].

Definition reviewNode : Pipeline.Node := testNode "review" "hexagon" "Review".

(** A node whose outgoing edges all carry a condition. *)
Definition conditionalOnlyGraph : Pipeline.Graph :=
  testGraph
    [testNode "start" "Mdiamond" "Start"; testNode "a" "box" "A";
     testNode "b" "box" "B"; testNode "c" "box" "C";
     testNode "exit" "Msquare" "Exit"]
    [testEdge "start" "a" "" 0;
     testEdge "a" "b" "outcome=fail" 0;
     testEdge "a" "c" "outcome=retry" 5;
     testEdge "b" "exit" "" 0;
     testEdge "c" "exit" "" 0].

(** A handler that returns an error whenever it is asked. *)
Definition erroringHandler (err : string) : @Pipeline.Handler unit :=
  fun _ ctx _ _ w => (Pipeline.Failed err, ctx, w).

(** A handler that answers with status skipped whenever it is asked. *)
Definition skippingHandler : @Pipeline.Handler unit :=
  fun _ ctx _ _ w =>
    (Pipeline.Returned (Pipeline.mkOutcome Pipeline.StatusSkipped "" [] ∅ "" ""),
     ctx, w).

(** An operation that the provider refuses with status 401 each time. *)
Definition deniedEachTime (calls : nat) : (LLM.Response + LLM.Error) * nat :=
  (inr (LLM.ELLM (LLM.ClassifyHTTPError 401 "denied" "p")), S calls).

(** An execution environment in which bash fails and every other tool
    answers. *)
Definition bashFails (name _ : string) (w : unit)
  : (string * option string) * unit :=
  if String.eqb name "bash" then ("", Some "exit status 1", w)
  else ("ok", None, w).

(** Two universal rules that set the model, one after the other. *)
Definition firstModelRule : Stylesheet.Rule :=
  Stylesheet.parseSelector "*" (<["llm_model" := "first-model"]> ∅).

Definition secondModelRule : Stylesheet.Rule :=
  Stylesheet.parseSelector "*" (<["llm_model" := "second-model"]> ∅).

(** * Properties *)

(** ** The order on strings *)

Lemma ascii_compare_refl (a : ascii) : Ascii.compare a a = Eq.
Proof. unfold Ascii.compare. apply N.compare_refl. Qed.

Lemma string_compare_refl (s : string) : String.compare s s = Eq.
Proof.
  induction s as [|a s IH]; simpl; [reflexivity|].
  rewrite ascii_compare_refl. exact IH.
Qed.

Lemma ascii_compare_eq (a b : ascii) : Ascii.compare a b = Eq -> a = b.
Proof. apply Ascii.compare_eq_iff. Qed.

Lemma ascii_compare_lt_trans (a b c : ascii) :
  Ascii.compare a b = Lt -> Ascii.compare b c = Lt -> Ascii.compare a c = Lt.
Proof.
  unfold Ascii.compare. rewrite !N.compare_lt_iff. lia.
Qed.

Lemma string_compare_lt_trans (s1 : string) :
  forall s2 s3, String.compare s1 s2 = Lt -> String.compare s2 s3 = Lt ->
                String.compare s1 s3 = Lt.
Proof.
  induction s1 as [|a s1 IH]; intros [|b s2] [|c s3]; simpl; try congruence.
  destruct (Ascii.compare a b) eqn:Hab; try congruence;
    destruct (Ascii.compare b c) eqn:Hbc; try congruence; intros H12 H23.
  - apply ascii_compare_eq in Hab, Hbc. subst.
    rewrite ascii_compare_refl. eauto.
  - apply ascii_compare_eq in Hab. subst. now rewrite Hbc.
  - apply ascii_compare_eq in Hbc. subst. now rewrite Hab.
  - now rewrite (ascii_compare_lt_trans a b c).
Qed.

Lemma string_ltb_false_leb (a b : string) :
  String.ltb a b = false <-> String.leb b a = true.
Proof.
  unfold String.ltb, String.leb. rewrite (String.compare_antisym a b).
  destruct (String.compare b a); simpl; split; congruence.
Qed.

Lemma string_ltb_asym (a b : string) :
  String.ltb a b = true -> String.ltb b a = false.
Proof.
  unfold String.ltb. rewrite (String.compare_antisym a b).
  destruct (String.compare b a); simpl; congruence.
Qed.

Lemma string_ltb_negtrans (a b c : string) :
  String.ltb a b = false -> String.ltb b c = false -> String.ltb a c = false.
Proof.
  unfold String.ltb. intros Hab Hbc.
  destruct (String.compare a c) eqn:Hac; try reflexivity.
  exfalso.
  destruct (String.compare a b) eqn:Hab'; try discriminate.
  - apply String.compare_eq_iff in Hab'. subst. now rewrite Hac in Hbc.
  - destruct (String.compare b c) eqn:Hbc'; try discriminate.
    + apply String.compare_eq_iff in Hbc'. subst. congruence.
    + assert (Hcb : String.compare c b = Lt).
      { rewrite String.compare_antisym, Hbc'. reflexivity. }
      assert (Hba : String.compare b a = Lt).
      { rewrite String.compare_antisym, Hab'. reflexivity. }
      pose proof (string_compare_lt_trans _ _ _ Hcb Hba) as Hca.
      rewrite String.compare_antisym, Hac in Hca. discriminate.
Qed.

(** ** The reference run-time is a run-time *)

Section InsertionSort.
Context {A : Type} (less : A -> A -> bool).
Hypothesis less_asym : asymmetric_less less.
Hypothesis less_negtrans : negatively_transitive less.

Let notAbove (a b : A) : Prop := less b a = false.

Lemma insert_by_perm (x : A) (l : list A) : insert_by less x l ≡ₚ x :: l.
Proof.
  induction l as [|y l IH]; simpl; [reflexivity|].
  destruct (less x y); [reflexivity|].
  rewrite IH. apply Permutation_swap.
Qed.

Lemma insert_by_sorted (x : A) (l : list A) :
  StronglySorted notAbove l -> StronglySorted notAbove (insert_by less x l).
Proof.
  induction 1 as [|y l Hs IH Hall]; simpl.
  - repeat constructor.
  - destruct (less x y) eqn:Hxy.
    + constructor; [constructor; assumption|].
      constructor; [exact (less_asym _ _ Hxy)|].
      eapply Forall_impl; [exact Hall|].
      intros z Hz. unfold notAbove in *.
      exact (less_negtrans _ _ _ Hz (less_asym _ _ Hxy)).
    + constructor; [exact IH|].
      rewrite insert_by_perm. constructor; assumption.
Qed.

Lemma insertion_sort_sorted (l : list A) :
  StronglySorted notAbove (insertion_sort less l).
Proof.
  induction l as [|x l IH]; simpl; [constructor|].
  apply insert_by_sorted, IH.
Qed.

Lemma strongly_sorted_ordered (l : list A) :
  StronglySorted notAbove l -> ordered_by less l.
Proof.
  induction 1 as [|y l Hs IH Hall]; intros i j a b Hij Hi Hj.
  - rewrite lookup_nil in Hi. discriminate.
  - destruct j as [|j]; [lia|]. simpl in Hj.
    destruct i as [|i]; simpl in Hi.
    + injection Hi as <-. rewrite Forall_forall in Hall.
      apply Hall. eapply list_elem_of_lookup_2, Hj.
    + apply (IH i j); [lia|assumption..].
Qed.
End InsertionSort.

Lemma insertion_sort_perm {A : Type} (less : A -> A -> bool) (l : list A) :
  insertion_sort less l ≡ₚ l.
Proof.
  induction l as [|x l IH]; simpl; [reflexivity|].
  rewrite insert_by_perm. now rewrite IH.
Qed.

#[local] Instance referenceRuntime : GoRuntime := {|
  sort_Slice := @insertion_sort;
  sort_Slice_perm := @insertion_sort_perm;
  sort_Slice_ordered := fun A less l Ha Hn =>
    strongly_sorted_ordered less _ (insertion_sort_sorted less Ha Hn l);
  range_map := fun V m => map_to_list m;
  range_map_perm := fun V m => reflexivity _
|}.


(** ** Edge selection *)

Section EdgeSelectionFacts.
Import Pipeline.
Context `{GoRuntime}.

Lemma edgeLess_false (a b : Edge) :
  edgeLess a b = false <->
  Weight a <= Weight b /\ (Weight a = Weight b -> String.leb (To b) (To a) = true).
Proof.
  unfold edgeLess. destruct (Z.eqb_spec (Weight a) (Weight b)) as [Heq|Hne]; simpl.
  - rewrite string_ltb_false_leb. split; [intros; split; [lia|auto]|intros [_ Hl]; auto].
  - rewrite Z.ltb_ge. split; [intros; split; [lia|intros; lia]|intros [Hl _]; lia].
Qed.

Lemma edgeLess_asym : asymmetric_less edgeLess.
Proof.
  intros a b. unfold edgeLess.
  destruct (Z.eqb_spec (Weight a) (Weight b)) as [Heq|Hne];
    destruct (Z.eqb_spec (Weight b) (Weight a)) as [Heq'|Hne']; simpl; try lia.
  apply string_ltb_asym.
Qed.

Lemma edgeLess_negtrans : negatively_transitive edgeLess.
Proof.
  intros a b c. rewrite !edgeLess_false. intros [Hab Hab'] [Hbc Hbc'].
  split; [lia|]. intros Hac.
  assert (Weight a = Weight b) as E1 by lia.
  assert (Weight b = Weight c) as E2 by lia.
  specialize (Hab' E1). specialize (Hbc' E2).
  rewrite <- string_ltb_false_leb in *.
  eapply string_ltb_negtrans; eassumption.
Qed.

Lemma edgeLess_irrefl (a : Edge) : edgeLess a a = false.
Proof.
  destruct (edgeLess a a) eqn:E; [|reflexivity].
  rewrite <- E at 1. now apply edgeLess_asym.
Qed.

(** The edge that bestByWeightThenLexical returns is one of its
    arguments, and none of them comes before it in the order. *)
Lemma bestByWeightThenLexical_spec (edges : list Edge) :
  edges <> [] ->
  exists e, bestByWeightThenLexical edges = Some e /\ In e edges /\
            forall e', In e' edges -> edgeLess e' e = false.
Proof.
  intros Hne. unfold bestByWeightThenLexical.
  destruct edges as [|e0 rest]; [congruence|].
  set (l := e0 :: rest) in *.
  pose proof (sort_Slice_perm Edge edgeLess l) as Hperm.
  pose proof (sort_Slice_ordered Edge edgeLess l edgeLess_asym edgeLess_negtrans) as Hord.
  destruct (sort_Slice edgeLess l) as [|e sorted] eqn:Hs.
  - apply Permutation_nil_l in Hperm. subst l. discriminate.
  - exists e. split; [reflexivity|]. split.
    + apply list_elem_of_In. rewrite <- Hperm. apply list_elem_of_here.
    + intros e' Hin. apply list_elem_of_In in Hin. rewrite <- Hperm in Hin.
      apply list_elem_of_lookup in Hin as [j Hj].
      destruct j as [|j].
      * simpl in Hj. injection Hj as ->. apply edgeLess_irrefl.
      * apply (Hord 0%nat (S j) e e'); [lia|reflexivity|exact Hj].
Qed.

(** [e] leaves [node] and its non-empty condition holds. *)
Definition trueConditionEdge (node : Node) (outcome : option Outcome)
    (ctx : Context) (graph : Graph) (e : Edge) : Prop :=
  In e (Edges graph) /\ From e = ID node /\ Condition e <> "" /\
  evaluateConditionSimple (Condition e) outcome ctx = true.

Lemma trueConditionEdge_filter node outcome ctx graph e :
  trueConditionEdge node outcome ctx graph e <->
  In e (List.filter (matchesCondition outcome ctx) (OutgoingEdges graph (ID node))).
Proof.
  unfold trueConditionEdge, OutgoingEdges, matchesCondition.
  rewrite !filter_In, andb_true_iff, negb_true_iff, String.eqb_eq, String.eqb_neq.
  tauto.
Qed.

(** C1. Condition pass of edge selection: when some outgoing edge of the
    node has a non-empty condition that evaluates to true, selectEdge
    returns one of the edges with that property; no such edge is heavier,
    and among those of the same weight none has a [To] that is smaller in
    the order of strings. An outgoing edge whose condition is empty or
    false is not returned, whatever its weight. *)
Theorem C1_condition_pass (node : Node) (outcome : option Outcome)
    (ctx : Context) (graph : Graph) :
  (exists e0, trueConditionEdge node outcome ctx graph e0) ->
  exists e,
    selectEdge node outcome ctx graph = Some e /\
    trueConditionEdge node outcome ctx graph e /\
    (forall e', trueConditionEdge node outcome ctx graph e' ->
       Weight e' <= Weight e /\
       (Weight e' = Weight e -> String.leb (To e) (To e') = true)) /\
    (forall e', In e' (Edges graph) -> From e' = ID node ->
       Condition e' = "" \/ evaluateConditionSimple (Condition e') outcome ctx = false ->
       selectEdge node outcome ctx graph <> Some e').
Proof.
  intros [e0 He0].
  pose proof He0 as Hin0. rewrite trueConditionEdge_filter in Hin0.
  assert (Hflt : forall e', trueConditionEdge node outcome ctx graph e' <->
            In e' (List.filter (matchesCondition outcome ctx)
                     (OutgoingEdges graph (ID node))))
    by (intros; apply trueConditionEdge_filter).
  unfold selectEdge.
  destruct (OutgoingEdges graph (ID node)) as [|o os] eqn:Hout; [destruct Hin0|].
  remember (List.filter (matchesCondition outcome ctx) (o :: os)) as matched
    eqn:Hmatched.
  assert (Hne : matched <> []) by (intros E; rewrite E in Hin0; destruct Hin0).
  assert (Hlen : (0 <? Z.of_nat (List.length matched)) = true).
  { destruct matched; [congruence|]. apply Z.ltb_lt. simpl List.length. lia. }
  rewrite Hlen.
  destruct (bestByWeightThenLexical_spec matched Hne) as (e & Hbest & Hin & Hmin).
  assert (He : trueConditionEdge node outcome ctx graph e) by (apply Hflt, Hin).
  exists e. split; [exact Hbest|]. split; [exact He|]. split.
  - intros e' He'. apply edgeLess_false, Hmin, Hflt, He'.
  - intros e' _ _ Hbad. rewrite Hbest. intros [= ->].
    destruct He as (_ & _ & Hc & Hv). destruct Hbad; congruence.
Qed.

End EdgeSelectionFacts.

Lemma C1_condition_pass_witness :
  (exists e0, trueConditionEdge (testNode "a" "box" "A") (Some successOutcome)
                Pipeline.NewContext conditionWinsGraph e0) /\
  exists e,
    Pipeline.selectEdge (testNode "a" "box" "A") (Some successOutcome)
      Pipeline.NewContext conditionWinsGraph = Some e /\
    trueConditionEdge (testNode "a" "box" "A") (Some successOutcome)
      Pipeline.NewContext conditionWinsGraph e.
Proof.
  assert (Hyp : exists e0, trueConditionEdge (testNode "a" "box" "A")
                  (Some successOutcome) Pipeline.NewContext conditionWinsGraph e0).
  { exists (testEdge "a" "success" "outcome=success" 0).
    unfold trueConditionEdge. vm_compute. intuition congruence. }
  split; [exact Hyp|].
  destruct (C1_condition_pass (testNode "a" "box" "A") (Some successOutcome)
              Pipeline.NewContext conditionWinsGraph Hyp) as (e & Hsel & He & _).
  exists e. split; assumption.
Defined.

(** Scenario "condition wins": the handler returned success, and the edge
    to [success] is chosen although the edge to [fail] has weight 10. *)
Example selectEdge_condition_wins :
  Pipeline.selectEdge (testNode "a" "box" "A") (Some successOutcome)
    Pipeline.NewContext conditionWinsGraph
  = Some (testEdge "a" "success" "outcome=success" 0).
Proof. vm_compute. reflexivity. Qed.

(** ** Retry at a node *)

Section RetryFacts.
Import Pipeline.
Context {W : Type}.
Variable Resolve : Node -> option (@Handler W).
Variable LogsRoot : string.

(** The retry count that buildRetryPolicy starts from. *)
Definition retriesOf (node : Node) (graph : Graph) : Z :=
  if MaxRetries node =? 0 then DefaultMaxRetry graph else MaxRetries node.

(** What [remaining] attempts that all end in a retry leave in the log:
    an invocation, then a [stage_retrying] event and a sleep before each
    further invocation. *)
Fixpoint retryTrace (node : Node) (stageIndex : Z) (remaining : nat)
    (attempt : Z) : list Effect :=
  match remaining with
  | O => []
  | S O => [Execute (ID node) attempt]
  | S remaining' =>
      [Execute (ID node) attempt; StageRetrying (Label node) stageIndex attempt;
       Sleep attempt] ++ retryTrace node stageIndex remaining' (attempt + 1)
  end.

Definition isExecute (e : Effect) : bool :=
  match e with
  | Execute _ _ => true
  | _ => false
  end.

Definition isSleep (e : Effect) : bool :=
  match e with
  | Sleep _ => true
  | _ => false
  end.

Definition count (p : Effect -> bool) (log : list Effect) : Z :=
  Z.of_nat (List.length (List.filter p log)).

Lemma count_retryTrace node stageIndex remaining attempt :
  (1 <= remaining)%nat ->
  count isExecute (retryTrace node stageIndex remaining attempt) = Z.of_nat remaining /\
  count isSleep (retryTrace node stageIndex remaining attempt) = Z.of_nat remaining - 1.
Proof.
  unfold count. revert attempt.
  induction remaining as [|r IH]; intros attempt Hr; [lia|].
  destruct r as [|r]; [simpl; lia|].
  specialize (IH (attempt + 1) ltac:(lia)).
  change (retryTrace node stageIndex (S (S r)) attempt)
    with ([Execute (ID node) attempt; StageRetrying (Label node) stageIndex attempt;
           Sleep attempt] ++ retryTrace node stageIndex (S r) (attempt + 1)).
  remember (retryTrace node stageIndex (S r) (attempt + 1)) as t eqn:Ht.
  clear Ht. rewrite !List.filter_app, !List.length_app. simpl. lia.
Qed.

(** The handler answers every invocation at [node] with status retry. *)
Definition alwaysRetries (handler : @Handler W) (node : Node) (graph : Graph)
  : Prop :=
  forall ctx w, exists o ctx' w',
    handler node ctx graph LogsRoot w = (Returned o, ctx', w') /\
    Status o = StatusRetry.

Lemma attempts_alwaysRetries handler node graph stageIndex :
  alwaysRetries handler node graph ->
  forall remaining attempt maxAttempts m,
    (1 <= remaining)%nat ->
    Z.of_nat remaining = maxAttempts - attempt + 1 ->
    exists out m',
      attempts LogsRoot remaining attempt maxAttempts handler node graph
        stageIndex m = (out, m') /\
      Status out = (if AllowPartial node then StatusPartialSuccess else StatusFail) /\
      mLog m' = mLog m ++ retryTrace node stageIndex remaining attempt.
Proof.
  intros Hretry. induction remaining as [|r IH]; intros attempt maxAttempts m Hr Hrem; [lia|].
  destruct (Hretry (mCtx m) (mWorld m)) as (o & ctx' & w' & Hh & Hst).
  cbn [attempts]. rewrite Hh. cbn iota beta. rewrite Hst.
  change (isSuccessLike StatusRetry) with false.
  change (String.eqb StatusRetry StatusRetry) with true. cbn iota.
  destruct r as [|r].
  - assert (attempt = maxAttempts) as -> by lia.
    rewrite Z.ltb_irrefl.
    destruct (AllowPartial node); eexists _, _; (split; [reflexivity|split; reflexivity]).
  - assert (Hlt : (attempt <? maxAttempts) = true) by (apply Z.ltb_lt; lia).
    rewrite Hlt.
    edestruct (IH (attempt + 1) maxAttempts) as (out & m' & Hrun & Hout & Hlog);
      [lia|lia|].
    eexists _, _. split; [exact Hrun|]. split; [exact Hout|].
    rewrite Hlog. cbn [mLog emit]. 
    change (retryTrace node stageIndex (S (S r)) attempt)
      with ([Execute (ID node) attempt; StageRetrying (Label node) stageIndex attempt;
             Sleep attempt] ++ retryTrace node stageIndex (S r) (attempt + 1)).
    rewrite <- !List.app_assoc. reflexivity.
Qed.

Lemma wrap64_id (z : Z) : inInt64 z -> wrap64 z = z.
Proof.
  unfold inInt64, minInt64, maxInt64, wrap64. intros Hz.
  rewrite Z.mod_small; lia.
Qed.


End RetryFacts.


(** Scenario "retry exhaustion": max_retries = 2 gives three attempts; a
    handler that answers retry twice succeeds on the third. *)
Example retry_then_success :
  let node := retryNode 2 false in
  let graph := testGraph [node] [] in
  let '(out, m) := Pipeline.executeWithRetry (fun _ => Some (retryHandler 2)) ""
                     node graph (Pipeline.buildRetryPolicy node graph) 0
                     (Pipeline.mkMachine Pipeline.NewContext 0 []) in
  Pipeline.Status out = Pipeline.StatusSuccess /\ Pipeline.mWorld m = 3.
Proof. vm_compute. split; reflexivity. Qed.

(** ** Goal gates and the end of a run *)

Section RunFacts.
Import Pipeline.
Context `{GoRuntime}.
Context {W : Type}.
Variable Resolve : Node -> option (@Handler W).
Variable LogsRoot : string.

Lemma range_map_lookup {V : Type} (m : gmap string V) (k : string) (v : V) :
  In (k, v) (range_map m) <-> m !! k = Some v.
Proof.
  rewrite <- list_elem_of_In, (range_map_perm V m).
  apply elem_of_map_to_list.
Qed.

(** The recorded outcome [o] of node [id] keeps the run from ending: the
    node is a goal gate and [o] is neither success nor partial_success. *)
Definition blocks (graph : Graph) (id : string) (o : Outcome) (gate : Node)
  : Prop :=
  Nodes graph !! id = Some gate /\ GoalGate gate = true /\
  Status o <> StatusSuccess /\ Status o <> StatusPartialSuccess.

Lemma checkGates_spec (graph : Graph) (entries : list (string * Outcome)) :
  match checkGates graph entries with
  | (false, Some gate) =>
      exists id o, In (id, o) entries /\ blocks graph id o gate
  | (true, None) =>
      forall id o gate, In (id, o) entries -> ~ blocks graph id o gate
  | _ => False
  end.
Proof.
  induction entries as [|[id o] rest IH]; simpl.
  - intros id o gate [].
  - assert (Hskip : ~ (exists gate, blocks graph id o gate) ->
              match checkGates graph rest with
              | (false, Some gate) =>
                  exists id' o', ((id, o) = (id', o') \/ In (id', o') rest) /\
                                 blocks graph id' o' gate
              | (true, None) =>
                  forall id' o' gate, (id, o) = (id', o') \/ In (id', o') rest ->
                                      ~ blocks graph id' o' gate
              | _ => False
              end).
    { intros Hnb. destruct (checkGates graph rest) as [[|] [gate|]]; try exact IH.
      - intros id' o' gate' [[= <- <-]|Hin]; [|now apply IH].
        intros Hb. apply Hnb. now exists gate'.
      - destruct IH as (id' & o' & Hin & Hb). exists id', o'. auto. }
    destruct (Nodes graph !! id) as [node|] eqn:Hnode.
    + destruct (GoalGate node) eqn:Hg; simpl.
      * destruct (String.eqb_spec (Status o) StatusSuccess) as [Hs|Hs]; simpl.
        { apply Hskip. intros (g & _ & _ & Hne & _). congruence. }
        destruct (String.eqb_spec (Status o) StatusPartialSuccess) as [Hp|Hp]; simpl.
        { apply Hskip. intros (g & _ & _ & _ & Hne). congruence. }
        exists id, o. split; [now left|]. repeat split; assumption.
      * apply Hskip. intros (g & Hn & Hgate & _). congruence.
    + apply Hskip. intros (g & Hn & _). congruence.
Qed.

(** checkGoalGates reports a gate exactly when some recorded outcome
    blocks, and the gate it reports is one that does. *)
Lemma checkGoalGates_blocked (graph : Graph) (nodeOutcomes : gmap string Outcome) :
  (exists id o gate, nodeOutcomes !! id = Some o /\ blocks graph id o gate) ->
  exists id o gate,
    checkGoalGates graph nodeOutcomes = (false, Some gate) /\
    nodeOutcomes !! id = Some o /\ blocks graph id o gate.
Proof.
  intros (id & o & gate & Hl & Hb). unfold checkGoalGates.
  pose proof (checkGates_spec graph (range_map nodeOutcomes)) as Hspec.
  destruct (checkGates graph (range_map nodeOutcomes)) as [[|] [g|]];
    try contradiction.
  - exfalso. apply (Hspec id o gate); [now apply range_map_lookup|exact Hb].
  - destruct Hspec as (id' & o' & Hin & Hb'). exists id', o', g.
    split; [reflexivity|]. split; [now apply range_map_lookup|exact Hb'].
Qed.

Lemma checkGoalGates_satisfied (graph : Graph) (nodeOutcomes : gmap string Outcome) :
  (forall id o gate, nodeOutcomes !! id = Some o -> ~ blocks graph id o gate) ->
  checkGoalGates graph nodeOutcomes = (true, None).
Proof.
  intros Hall. unfold checkGoalGates.
  pose proof (checkGates_spec graph (range_map nodeOutcomes)) as Hspec.
  destruct (checkGates graph (range_map nodeOutcomes)) as [[|] [g|]];
    try contradiction; [reflexivity|].
  destruct Hspec as (id' & o' & Hin & Hb'). exfalso.
  apply (Hall id' o' g); [now apply range_map_lookup|exact Hb'].
Qed.

(** The first non-empty string of a list, [""] if there is none. *)
Fixpoint firstConfigured (targets : list string) : string :=
  match targets with
  | [] => ""
  | t :: rest => if String.eqb t "" then firstConfigured rest else t
  end.

Lemma getRetryTarget_order (node : Node) (graph : Graph) :
  getRetryTarget node graph
  = firstConfigured [RetryTarget node; FallbackRetryTarget node;
                     GRetryTarget graph; GFallbackRetryTarget graph].
Proof.
  unfold getRetryTarget, firstConfigured.
  repeat match goal with |- context [String.eqb ?a ""] =>
    destruct (String.eqb a "") end; reflexivity.
Qed.

Lemma firstConfigured_in (targets : list string) :
  firstConfigured targets = "" \/ In (firstConfigured targets) targets.
Proof.
  induction targets as [|t rest IH]; simpl; [now left|].
  destruct (String.eqb t ""); [destruct IH; auto|auto].
Qed.

(** The retry targets that count for a gate, in the order they are tried. *)
Definition retryTargets (gate : Node) (graph : Graph) : list string :=
  [RetryTarget gate; FallbackRetryTarget gate; GRetryTarget graph;
   GFallbackRetryTarget graph].


(** No recorded outcome is a fail. *)
Definition noFailure (nodeOutcomes : gmap string Outcome) : Prop :=
  forall id o, nodeOutcomes !! id = Some o -> Status o <> StatusFail.

Lemma finish_status (completedNodes : list string)
    (nodeOutcomes : gmap string Outcome) (m : @Machine W) :
  exists status,
    finish completedNodes nodeOutcomes m
    = (RunOk (mkRunResult status completedNodes None nodeOutcomes),
       emit m [PipelineCompleted (Z.of_nat (List.length completedNodes))]) /\
    (noFailure nodeOutcomes -> status = StatusSuccess) /\
    (~ noFailure nodeOutcomes -> status = StatusFail).
Proof.
  unfold finish.
  destruct (List.existsb (fun kv => String.eqb (Status (snd kv)) StatusFail)
              (range_map nodeOutcomes)) eqn:Hex; eexists; (split; [reflexivity|]).
  - split; [|reflexivity]. intros Hno. exfalso.
    apply existsb_exists in Hex as ([id o] & Hin & Hst).
    apply range_map_lookup in Hin. apply String.eqb_eq in Hst.
    exact (Hno id o Hin Hst).
  - split; [reflexivity|]. intros Hno. exfalso. apply Hno. intros id o Hl Hst.
    apply range_map_lookup in Hl.
    assert (List.existsb (fun kv => String.eqb (Status (snd kv)) StatusFail)
              (range_map nodeOutcomes) = true) as Hex'.
    { apply existsb_exists. exists (id, o). split; [exact Hl|].
      now apply String.eqb_eq. }
    congruence.
Qed.

(** At a terminal node with every goal gate satisfied the loop is left
    and the code after it decides the status. *)
Lemma runLoop_terminal_satisfied (fuel : nat) (graph : Graph)
    (current node : Node) (stageIndex : Z) (completedNodes : list string)
    (nodeOutcomes : gmap string Outcome) (m : Machine) :
  Nodes graph !! ID current = Some node ->
  isTerminal node = true ->
  (forall id o gate, nodeOutcomes !! id = Some o -> ~ blocks graph id o gate) ->
  runLoop Resolve LogsRoot (S fuel) graph (Some current) stageIndex
    completedNodes nodeOutcomes m
  = finish completedNodes nodeOutcomes m.
Proof.
  intros Hnode Hterm Hsat. cbn [runLoop].
  rewrite Hnode, Hterm, (checkGoalGates_satisfied graph nodeOutcomes Hsat).
  reflexivity.
Qed.

Lemma sort_Slice_singleton {A : Type} (less : A -> A -> bool) (x : A) :
  sort_Slice less [x] = [x].
Proof. apply Permutation_singleton_r, sort_Slice_perm. Qed.

(** A node with one outgoing edge, which has no condition: after an
    outcome without preferred label and suggestions that edge is taken. *)
Lemma selectEdge_single (node : Node) (o : Outcome) (ctx : Context)
    (graph : Graph) (e : Edge) :
  OutgoingEdges graph (ID node) = [e] -> Condition e = "" ->
  PreferredLabel o = "" -> SuggestedNextIDs o = [] ->
  selectEdge node (Some o) ctx graph = Some e.
Proof.
  intros Hout Hc Hp Hs. unfold selectEdge. rewrite Hout, Hp, Hs.
  unfold matchesCondition. simpl. rewrite Hc. simpl.
  unfold bestByWeightThenLexical. now rewrite sort_Slice_singleton.
Qed.

(** Steps 2 to 8 of an iteration that moves on along an edge that is not
    a loop_restart edge. *)
Lemma runLoop_advance (fuel : nat) (graph : Graph) (current node : Node)
    (stageIndex : Z) (completedNodes completedNodes' : list string)
    (nodeOutcomes nodeOutcomes' : gmap string Outcome) (m m' : Machine)
    (outcome : Outcome) (e : Edge) :
  Nodes graph !! ID current = Some node ->
  isTerminal node = false ->
  executeNode Resolve LogsRoot node graph stageIndex completedNodes nodeOutcomes m
  = (outcome, completedNodes', nodeOutcomes', m') ->
  selectEdge node (Some outcome) (mCtx m') graph = Some e ->
  LoopRestart e = false ->
  runLoop Resolve LogsRoot (S fuel) graph (Some current) stageIndex
    completedNodes nodeOutcomes m
  = runLoop Resolve LogsRoot fuel graph (Nodes graph !! To e)
      (wrap64 (stageIndex + 1)) completedNodes' nodeOutcomes' m'.
Proof.
  intros Hnode Hterm Hexec Hsel Hrestart. cbn [runLoop].
  rewrite Hnode, Hterm, Hexec, Hsel, Hrestart. reflexivity.
Qed.

Lemma find_unique {A : Type} (p : A -> bool) (l : list A) (x : A) :
  In x l -> p x = true -> (forall y, In y l -> p y = true -> y = x) ->
  List.find p l = Some x.
Proof.
  intros Hin Hp Huniq.
  destruct (List.find p l) as [y|] eqn:Hf.
  - apply find_some in Hf as [Hy Hpy]. f_equal. now apply Huniq.
  - exfalso. pose proof (find_none _ _ Hf x Hin). congruence.
Qed.

(** With one node of shape Mdiamond, that node is where the run starts. *)
Lemma findStartNode_unique (graph : Graph) (id : string) (start : Node) :
  Nodes graph !! id = Some start -> Shape start = "Mdiamond" ->
  (forall id' n, Nodes graph !! id' = Some n -> Shape n = "Mdiamond" -> n = start) ->
  findStartNode graph = Some start.
Proof.
  intros Hl Hshape Huniq. unfold findStartNode.
  rewrite (find_unique _ _ start); [reflexivity| | |].
  - apply in_map_iff. exists (id, start). split; [reflexivity|].
    now apply range_map_lookup.
  - now apply String.eqb_eq.
  - intros y Hy Hp. apply in_map_iff in Hy as ([id' n] & <- & Hin).
    apply range_map_lookup in Hin. apply String.eqb_eq in Hp. eauto.
Qed.

End RunFacts.

(** The entries of a closed map, one case each. *)
Ltac entries Hl :=
  apply elem_of_map_to_list in Hl; apply list_elem_of_In in Hl;
  match type of Hl with
  | In _ ?l =>
      let l' := eval vm_compute in l in
      replace l with l' in Hl by (vm_compute; reflexivity)
  end;
  repeat (destruct Hl as [Hl|Hl]; [injection Hl as <- <-|]); [..|destruct Hl].

Section TerminalExit.
Import Pipeline.
Context `{GoRuntime}.

Ltac discharge Hstep tac :=
  lapply Hstep; [clear Hstep; intros Hstep|tac].

(** One iteration at [node], which has the single outgoing edge [e]. *)
Ltac advance node e :=
  lazymatch goal with
  | |- context [runLoop ?R ?L (S ?f) ?g (Some ?cur) ?idx ?c ?n ?m] =>
      let r := eval vm_compute in (executeNode R L node g idx c n m) in
      lazymatch r with
      | (?o, ?c', ?n', ?m') =>
          let Hstep := fresh "Hstep" in
          pose proof (runLoop_advance R L f g cur node idx c c' n n' m m' o e)
            as Hstep;
          discharge Hstep ltac:(vm_compute; reflexivity);
          discharge Hstep ltac:(vm_compute; reflexivity);
          discharge Hstep ltac:(vm_compute; reflexivity);
          discharge Hstep ltac:(apply selectEdge_single; vm_compute; reflexivity);
          discharge Hstep ltac:(reflexivity);
          rewrite Hstep; clear Hstep;
          let next := eval vm_compute in (Nodes g !! To e) in
          replace (Nodes g !! To e) with next by (vm_compute; reflexivity)
      end
  end.

Lemma linearGraph_start :
  findStartNode linearGraph = Some (testNode "start" "Mdiamond" "Start").
Proof.
  apply (findStartNode_unique linearGraph "start").
  - vm_compute; reflexivity.
  - reflexivity.
  - intros id n Hl Hshape. entries Hl; try reflexivity; discriminate Hshape.
Qed.

(** The linear pipeline under any run-time: three nodes are executed and
    the loop is left at [exit] with no failure on record. *)
Lemma linearGraph_run (fuel : nat) :
  exists outcomes m,
    Run (fun _ => Some (simpleHandler "ok")) "" (4 + fuel) linearGraph tt
    = finish ["start"; "a"; "b"] outcomes m /\ noFailure outcomes.
Proof.
  unfold Run. rewrite linearGraph_start.
  change (4 + fuel)%nat with (S (S (S (S fuel)))).
  advance (testNode "start" "Mdiamond" "Start") (testEdge "start" "a" "" 0).
  advance (testNode "a" "box" "A") (testEdge "a" "b" "" 0).
  advance (testNode "b" "box" "B") (testEdge "b" "exit" "" 0).
  eexists _, _. split.
  - apply (runLoop_terminal_satisfied _ _ fuel linearGraph _
             (testNode "exit" "Msquare" "Exit")); [vm_compute; reflexivity..|].
    intros id o gate Hl (_ & _ & Hne & _). entries Hl; now apply Hne.
  - intros id o Hl. entries Hl; discriminate.
Qed.

(** C4, amended. At a terminal node with every recorded goal-gate outcome
    in success or partial_success the loop is left, the completed nodes
    and the recorded outcomes are returned as they are, and the status is
    success when no recorded outcome is a fail and fail when one is. The
    linear pipeline start -> a -> b -> exit with handlers that return
    success ends with status success and completed nodes start, a, b. *)
Theorem C4_terminal_exit :
  (forall (W : Type) (Resolve : Node -> option (@Handler W)) (LogsRoot : string)
          (fuel : nat) (graph : Graph) (current node : Node) (stageIndex : Z)
          (completedNodes : list string) (nodeOutcomes : gmap string Outcome)
          (m : Machine),
      Nodes graph !! ID current = Some node ->
      isTerminal node = true ->
      (forall id o gate, nodeOutcomes !! id = Some o -> ~ blocks graph id o gate) ->
      exists status,
        runLoop Resolve LogsRoot (S fuel) graph (Some current) stageIndex
          completedNodes nodeOutcomes m
        = (RunOk (mkRunResult status completedNodes None nodeOutcomes),
           emit m [PipelineCompleted (Z.of_nat (List.length completedNodes))]) /\
        (noFailure nodeOutcomes -> status = StatusSuccess) /\
        (~ noFailure nodeOutcomes -> status = StatusFail)) /\
  (forall fuel : nat, exists result,
      fst (Run (fun _ => Some (simpleHandler "ok")) "" (4 + fuel) linearGraph tt)
      = RunOk result /\
      RStatus result = StatusSuccess /\
      CompletedNodes result = ["start"; "a"; "b"]).
Proof.
  split.
  - intros W Resolve LogsRoot fuel graph current node stageIndex completedNodes
      nodeOutcomes m Hnode Hterm Hsat.
    rewrite (runLoop_terminal_satisfied Resolve LogsRoot fuel graph current node);
      [|assumption..].
    apply finish_status.
  - intros fuel. destruct (linearGraph_run fuel) as (outcomes & m & Hrun & Hno).
    destruct (finish_status ["start"; "a"; "b"] outcomes m)
      as (status & Hfin & Hok & _).
    rewrite Hrun, Hfin. eexists. split; [reflexivity|]. split; [|reflexivity].
    exact (Hok Hno).
Qed.

End TerminalExit.


(** The property C4 as the specification states it: at a terminal node with every goal
    gate satisfied the run ends with status success. *)
Definition terminal_exit_is_success : Prop :=
  forall (rt : GoRuntime) (W : Type)
         (Resolve : Pipeline.Node -> option (@Pipeline.Handler W))
         (LogsRoot : string) (fuel : nat) (graph : Pipeline.Graph)
         (current node : Pipeline.Node) (stageIndex : Z)
         (completedNodes : list string)
         (nodeOutcomes : gmap string Pipeline.Outcome) (m : Pipeline.Machine),
    Pipeline.Nodes graph !! Pipeline.ID current = Some node ->
    Pipeline.isTerminal node = true ->
    (forall id o gate, nodeOutcomes !! id = Some o -> ~ blocks graph id o gate) ->
    exists result,
      fst (Pipeline.runLoop Resolve LogsRoot (S fuel) graph (Some current)
             stageIndex completedNodes nodeOutcomes m)
      = Pipeline.RunOk result /\
      Pipeline.RStatus result = Pipeline.StatusSuccess.

(** The run start -> a -> exit where [a] is no goal gate and its handler
    fails arrives at the terminal node with no goal gate unsatisfied, and
    Run returns status fail. *)
Lemma C4_terminal_exit_counterexample :
  (exists result,
     fst (Pipeline.Run gateResolver "" 3 (gateGraph false) tt)
     = Pipeline.RunOk result /\
     Pipeline.RStatus result = Pipeline.StatusFail /\
     Pipeline.CompletedNodes result = ["start"; "a"] /\
     Pipeline.checkGoalGates (gateGraph false) (Pipeline.NodeOutcomes result)
     = (true, None)) /\
  ~ terminal_exit_is_success.
Proof.
  split.
  - eexists. split; [vm_compute; reflexivity|].
    repeat split; vm_compute; reflexivity.
  - intros Hc.
    destruct (Hc referenceRuntime unit gateResolver "" 0%nat (gateGraph false)
                (testNode "exit" "Msquare" "Exit")
                (testNode "exit" "Msquare" "Exit") 2 ["start"; "a"]
                gateOutcomes gateMachine) as (result & Hrun & Hstatus).
    + vm_compute; reflexivity.
    + reflexivity.
    + intros id o gate _ (Hgate & Hflag & _).
      entries Hgate; discriminate Hflag.
    + assert (E : fst (Pipeline.runLoop gateResolver "" 1 (gateGraph false)
                         (Some (testNode "exit" "Msquare" "Exit")) 2
                         ["start"; "a"] gateOutcomes gateMachine)
                  = Pipeline.RunOk
                      (Pipeline.mkRunResult Pipeline.StatusFail ["start"; "a"]
                         None gateOutcomes)) by (vm_compute; reflexivity).
      rewrite E in Hrun. injection Hrun as <-. discriminate Hstatus.
Qed.

(** ** The stream accumulator *)

Section AccumulatorFacts.
Import LLM.

Lemma Process_defined (a : StreamAccumulator) (event : StreamEvent) :
  exists a', Process a event = Some a'.
Proof.
  unfold Process.
  repeat match goal with
         | |- context [if ?b then _ else _] => destruct b eqn:?
         | |- context [match SEToolCall event with _ => _ end] =>
             destruct (SEToolCall event)
         end; eauto.
  destruct (toolCalls a !! (List.length (toolCalls a) - 1)%nat) eqn:Hlast; eauto.
  apply lookup_ge_None in Hlast.
  match goal with
  | Hb : (_ && _) = true |- _ => apply andb_true_iff in Hb as [Hlen _]
  end.
  apply Z.ltb_lt in Hlen. lia.
Qed.

Lemma ProcessAll_defined (events : list StreamEvent) :
  forall a, exists a', ProcessAll a events = Some a'.
Proof.
  induction events as [|event rest IH]; intros a; simpl; [eauto|].
  destruct (Process_defined a event) as [a' ->]. apply IH.
Qed.

(** C10. Process never stops the program, whatever the event and the
    state of the accumulator, and so no sequence of events does. A
    tool_call_delta that arrives while no tool call has been started, or
    whose delta is empty, leaves the accumulator as it is, and so does a
    tool_call_start without a tool call. Response() is defined after any
    sequence of events, with a zero usage when no usage was reported. *)
Theorem C10_accumulator_total :
  (forall a event, exists a', Process a event = Some a') /\
  (forall a events, exists a', ProcessAll a events = Some a') /\
  (forall a event,
     SEType event = StreamEventToolCallDelta ->
     toolCalls a = [] \/ Delta event = "" -> Process a event = Some a) /\
  (forall a event,
     SEType event = StreamEventToolCallStart -> SEToolCall event = None ->
     Process a event = Some a) /\
  (forall a events, exists a',
     ProcessAll a events = Some a' /\
     RContent (Response_ a') = content a' /\
     RToolCalls (Response_ a') = toolCalls a' /\
     (usage a' = None -> RUsage (Response_ a') = zeroUsage)).
Proof.
  split; [exact Process_defined|]. split; [intros; apply ProcessAll_defined|].
  split; [|split].
  - intros a event Hty Hdrop. unfold Process. rewrite Hty. simpl.
    destruct Hdrop as [-> | ->]; [reflexivity|].
    now rewrite andb_false_r.
  - intros a event Hty Hnil. unfold Process. rewrite Hty, Hnil. reflexivity.
  - intros a events. destruct (ProcessAll_defined events a) as [a' Ha'].
    exists a'. split; [exact Ha'|]. split; [reflexivity|]. split; [reflexivity|].
    intros Hu. unfold Response_. now rewrite Hu.
Qed.

End AccumulatorFacts.

(** ** The loop detector *)

Section LoopDetectorFacts.
Import Agent.

Lemma sameKeys_eq (a : list string) :
  forall b, List.length a = List.length b -> sameKeys a b = true <-> a = b.
Proof.
  induction a as [|x a IH]; intros [|y b] Hlen; simpl in *; try discriminate.
  - split; reflexivity.
  - rewrite andb_true_iff, String.eqb_eq, IH by lia.
    split; [intros [-> ->]; reflexivity|intros [= -> ->]; auto].
Qed.

(** Block [k] of length [p] of [recent] equals block 0. *)
Definition blockRepeats (recent : list string) (p k : nat) : Prop :=
  firstn p (skipn (k * p) recent) = firstn p recent.

Lemma allMatch_spec (recent : list string) (w p : nat) :
  (1 <= p)%nat -> (exists q, w = (p * q)%nat) -> List.length recent = w ->
  forall fuel k0,
    (w <= (k0 + fuel) * p)%nat ->
    allMatch fuel recent w p (k0 * p) = true <->
    (forall k, (k0 <= k)%nat -> (k * p < w)%nat -> blockRepeats recent p k).
Proof.
  intros Hp [q Hq] Hlen. induction fuel as [|fuel IH]; intros k0 Hfuel.
  - simpl. split; [|reflexivity]. intros _ k Hk Hkw. exfalso.
    assert (k0 * p <= k * p)%nat by (apply Nat.mul_le_mono_r; lia). lia.
  - cbn [allMatch].
    destruct (Nat.ltb_spec (k0 * p) w) as [Hin|Hout].
    + assert (Hfit : (k0 * p + p <= w)%nat).
      { subst w. assert (k0 < q)%nat by nia. nia. }
      destruct (Nat.ltb_spec w (k0 * p + p)) as [Hbr|_]; [lia|].
      assert (Hlens : List.length (firstn p (skipn (k0 * p) recent))
                      = List.length (firstn p recent)).
      { rewrite !length_take, length_drop. lia. }
      destruct (sameKeys (firstn p (skipn (k0 * p) recent)) (firstn p recent))
        eqn:Hsame.
      * apply (sameKeys_eq _ _ Hlens) in Hsame.
        replace (k0 * p + p)%nat with (S k0 * p)%nat by lia.
        rewrite IH by lia. split.
        -- intros Hrest k Hk Hkw.
           destruct (Nat.eq_dec k k0) as [->|Hne]; [exact Hsame|].
           apply Hrest; lia.
        -- intros Hall k Hk Hkw. apply Hall; lia.
      * split; [discriminate|]. intros Hall.
        assert (Heq := Hall k0 (Nat.le_refl _) Hin).
        apply (sameKeys_eq _ _ Hlens) in Heq. congruence.
    + split; [|reflexivity]. intros _ k Hk Hkw. exfalso.
      assert (k0 * p <= k * p)%nat by (apply Nat.mul_le_mono_r; lia). lia.
Qed.

(** The last [w] recorded signatures repeat with period [p]: [p] divides
    [w] and every block of length [p] equals the first. *)
Definition repeatsWithPeriod (recent : list string) (w p : nat) : Prop :=
  (w mod p = 0)%nat /\
  forall k, (k * p < w)%nat -> blockRepeats recent p k.

Lemma period_check (recent : list string) (w p : nat) :
  (1 <= p)%nat -> List.length recent = w ->
  ((w mod p =? 0)%nat && allMatch w recent w p p = true) <->
  repeatsWithPeriod recent w p.
Proof.
  intros Hp Hlen. unfold repeatsWithPeriod.
  rewrite andb_true_iff, Nat.eqb_eq.
  split; intros [Hmod Hrest]; (split; [exact Hmod|]).
  - assert (Hdiv : exists q, w = (p * q)%nat) by (apply Nat.Div0.mod_divides, Hmod).
    replace p with (1 * p)%nat in Hrest at 2 by lia.
    rewrite (allMatch_spec recent w p Hp Hdiv Hlen w 1) in Hrest by nia.
    intros k Hk. destruct k as [|k]; [|apply Hrest; lia].
    unfold blockRepeats. reflexivity.
  - assert (Hdiv : exists q, w = (p * q)%nat) by (apply Nat.Div0.mod_divides, Hmod).
    replace p with (1 * p)%nat at 2 by lia.
    rewrite (allMatch_spec recent w p Hp Hdiv Hlen w 1) by nia.
    intros k _ Hk. now apply Hrest.
Qed.

(** C8. Loop detector with window W >= 1. Each call records the
    signature name:args. While fewer than W signatures are recorded the
    detector does not fire. From then on it fires exactly when, for some
    p among 1, 2, 3 that divides W, every block of length p of the last W
    signatures equals the first block. *)
Theorem C8_loop_detector (ld : loopDetector) (name args : string) :
  1 <= window ld ->
  let result := recordAndCheck ld name args in
  let recorded := history ld ++ [name +:+ ":" +:+ args] in
  let w := Z.to_nat (window ld) in
  let recent := skipn (List.length recorded - w) recorded in
  history (snd result) = recorded /\
  window (snd result) = window ld /\
  (Z.of_nat (List.length recorded) < window ld -> fst result = Some false) /\
  (window ld <= Z.of_nat (List.length recorded) ->
   exists fired, fst result = Some fired /\
     (fired = true <->
      exists p, In p [1; 2; 3]%nat /\ repeatsWithPeriod recent w p)).
Proof.
  intros Hw result recorded w recent. unfold result, recordAndCheck.
  cbn [history window].
  fold recorded.
  destruct (Z.ltb_spec (Z.of_nat (List.length recorded)) (window ld)) as [Hfew|Hfull];
    cbn [fst snd history window].
  - repeat split; try reflexivity. lia.
  - destruct (Z.ltb_spec (window ld) 1) as [Hbad|_]; [lia|].
    cbn [fst snd history window]. fold w. fold recent.
    repeat split; try reflexivity; try lia.
    intros _. eexists. split; [reflexivity|].
    assert (Hlen : List.length recent = w).
    { unfold recent. rewrite length_drop. lia. }
    rewrite existsb_exists. split.
    + intros (p & Hin & Hcheck). exists p. split; [exact Hin|].
      apply period_check; [|exact Hlen|exact Hcheck].
      simpl in Hin. lia.
    + intros (p & Hin & Hrep). exists p. split; [exact Hin|].
      apply period_check; [|exact Hlen|exact Hrep].
      simpl in Hin. lia.
Qed.

End LoopDetectorFacts.

(** Scenario "loop detector": with window 4, A B A B fires at the fourth
    call and A B C D does not. *)
Example loop_detector_window_4 :
  recordAll 4 [("A", ""); ("B", ""); ("A", ""); ("B", "")]
  = [Some false; Some false; Some false; Some true] /\
  recordAll 4 [("A", ""); ("B", ""); ("C", ""); ("D", "")]
  = [Some false; Some false; Some false; Some false].
Proof. split; vm_compute; reflexivity. Qed.

Lemma C8_loop_detector_witness :
  fst (Agent.recordAndCheck (Agent.mkLoopDetector 4 ["A:"; "B:"; "A:"]) "B" "")
  = Some true.
Proof.
  destruct (C8_loop_detector (Agent.mkLoopDetector 4 ["A:"; "B:"; "A:"]) "B" "")
    as (_ & _ & _ & Hfull); [simpl; lia|].
  destruct Hfull as (fired & Hres & Hiff); [simpl; lia|].
  rewrite Hres. f_equal. apply Hiff.
  exists 2%nat. split; [simpl; auto|]. split; [reflexivity|].
  intros k Hk. simpl in Hk.
  destruct k as [|[|k]]; [reflexivity|reflexivity|lia].
Defined.

(** ** Truncation of tool output *)

Section TruncationFacts.
Import Agent.

Lemma append_nil_r (s : string) : s +:+ "" = s.
Proof.
  induction s as [|c s IH]; [reflexivity|].
  change (String c (s +:+ "") = String c s). now rewrite IH.
Qed.

Lemma append_assoc (a b c : string) : (a +:+ b) +:+ c = a +:+ (b +:+ c).
Proof.
  induction a as [|x a IH]; [reflexivity|].
  change (String x ((a +:+ b) +:+ c) = String x (a +:+ b +:+ c)).
  now rewrite IH.
Qed.

Lemma slice_to_length (s : string) :
  forall n, (n <= String.length s)%nat ->
            String.length (GoStrings.slice_to s n) = n.
Proof.
  unfold GoStrings.slice_to.
  induction s as [|c s IH]; intros [|n] Hn; simpl in *; try lia.
  rewrite IH; lia.
Qed.

Lemma slice_from_length (s : string) :
  forall n, String.length (GoStrings.slice_from s n) = (String.length s - n)%nat.
Proof.
  induction s as [|c s IH]; intros [|n]; simpl; try reflexivity. apply IH.
Qed.

Lemma slice_from_all (s : string) :
  GoStrings.slice_from s (String.length s) = "".
Proof. induction s as [|c s IH]; simpl; [reflexivity|exact IH]. Qed.

(** [sub] occurs in [s]. *)
Definition contains (s sub : string) : Prop :=
  exists before after, s = before +:+ sub +:+ after.

Definition warningMarker : string := "[WARNING: Tool output was truncated.".

Lemma truncationMarker_contains (truncated : Z) :
  contains (truncationMarker truncated) warningMarker.
Proof.
  exists (nl +:+ nl). eexists. unfold truncationMarker, warningMarker.
  rewrite !append_assoc. simpl. reflexivity.
Qed.

Lemma contains_middle (a b c sub : string) :
  contains b sub -> contains (a +:+ b +:+ c) sub.
Proof.
  intros (before & after & ->). exists (a +:+ before), (after +:+ c).
  now rewrite !append_assoc.
Qed.

(** The defaults of getToolOutputLimit, as a function of the tool name. *)
Definition defaultLimit (toolName : string) : Z :=
  if String.eqb toolName "read_file" then 50000
  else if String.eqb toolName "bash" then 30000
  else if String.eqb toolName "grep" then 20000
  else if String.eqb toolName "glob" then 10000
  else 50000.

Lemma defaultToolOutputLimits_lookup (toolName : string) :
  match defaultToolOutputLimits !! toolName with
  | Some limit => limit
  | None => 50000
  end = defaultLimit toolName.
Proof.
  unfold defaultToolOutputLimits, defaultLimit.
  repeat match goal with
         | |- context [String.eqb toolName ?k] =>
             destruct (String.eqb_spec toolName k) as [->|?];
             [vm_compute; reflexivity|]
         end.
  rewrite !lookup_insert_ne, lookup_empty by congruence. reflexivity.
Qed.

(** C7. Character truncation of a tool output. The cap of a tool is the
    caller's limit for it if there is one, else 50000 for read_file, 30000
    for bash, 20000 for grep, 10000 for glob and 50000 for any other tool.
    For a cap that is not negative, an output of at most cap bytes is
    returned as it is, and a longer one becomes its first 3*cap/4 bytes,
    the marker with the number of bytes removed, and its last
    max(0, cap - 3*cap/4 - 150) bytes; the result contains the warning
    text of the marker. *)
Theorem C7_truncate_tool_output (config : SessionConfig) (toolName output : string) :
  let cap := getToolOutputLimit config toolName in
  0 <= cap -> 3 * cap <= maxInt64 -> GoStrings.len output <= maxInt64 ->
  cap = match ToolOutputLimits config !! toolName with
        | Some limit => limit
        | None => defaultLimit toolName
        end /\
  (GoStrings.len output <= cap -> truncateToolOutput output cap = Some output) /\
  (cap < GoStrings.len output ->
   let headSize := 3 * cap / 4 in
   let tailSize := Z.max 0 (cap - headSize - 150) in
   let head := GoStrings.slice_to output (Z.to_nat headSize) in
   let tail := GoStrings.slice_from output
                 (Z.to_nat (GoStrings.len output - tailSize)) in
   let removed := GoStrings.len output - headSize - tailSize in
   truncateToolOutput output cap
   = Some (head +:+ truncationMarker removed +:+ tail) /\
   GoStrings.len head = headSize /\ GoStrings.len tail = tailSize /\
   0 < removed /\
   contains (head +:+ truncationMarker removed +:+ tail) warningMarker).
Proof.
  intros cap Hcap Hmul Hlen. split; [|split].
  - unfold cap, getToolOutputLimit.
    destruct (ToolOutputLimits config !! toolName); [reflexivity|].
    apply defaultToolOutputLimits_lookup.
  - intros Hfit. unfold truncateToolOutput.
    destruct (Z.leb_spec (GoStrings.len output) cap); [reflexivity|lia].
  - intros Hover headSize tailSize head tail removed.
    assert (Hhead : 0 <= headSize <= cap).
    { unfold headSize. split; [apply Z.div_pos; lia|].
      apply Z.div_le_upper_bound; lia. }
    assert (Hquot : Z.quot (wrap64 (cap * 3)) 4 = headSize).
    { unfold maxInt64 in *. rewrite wrap64_id by (unfold inInt64, minInt64, maxInt64; lia).
      rewrite Z.quot_div_nonneg by lia. unfold headSize. f_equal. lia. }
    assert (Htail : (let t := wrap64 (wrap64 (cap - headSize) - 150) in
                     if t <? 0 then 0 else t) = tailSize).
    { unfold maxInt64 in *. cbv zeta.
      rewrite (wrap64_id (cap - headSize))
        by (unfold inInt64, minInt64, maxInt64; lia).
      rewrite wrap64_id by (unfold inInt64, minInt64, maxInt64; lia).
      unfold tailSize. destruct (Z.ltb_spec (cap - headSize - 150) 0); lia. }
    assert (Hrem : wrap64 (wrap64 (GoStrings.len output - headSize) - tailSize)
                   = removed).
    { unfold maxInt64 in *.
      rewrite (wrap64_id (GoStrings.len output - headSize))
        by (unfold inInt64, minInt64, maxInt64; lia).
      rewrite wrap64_id by (unfold inInt64, minInt64, maxInt64, tailSize; lia).
      reflexivity. }
    assert (Hlh : GoStrings.len head = headSize).
    { unfold GoStrings.len, head in *. rewrite slice_to_length; lia. }
    assert (Hlt : GoStrings.len tail = tailSize).
    { unfold GoStrings.len, tail in *. rewrite slice_from_length.
      assert (0 <= tailSize <= cap) by (unfold tailSize; lia).
      unfold GoStrings.len. lia. }
    split; [|split; [exact Hlh|split; [exact Hlt|split]]].
    + unfold truncateToolOutput.
      destruct (Z.leb_spec (GoStrings.len output) cap); [lia|].
      cbv zeta in Htail. rewrite Hquot, Htail, Hrem.
      destruct (Z.ltb_spec headSize 0); [lia|].
      destruct (Z.ltb_spec (GoStrings.len output) headSize); [lia|].
      cbn [orb]. fold head.
      destruct (Z.ltb_spec 0 tailSize) as [Hpos|Hzero].
      * destruct (Z.ltb_spec (GoStrings.len output) tailSize);
          [unfold tailSize in *; lia|]. reflexivity.
      * assert (tailSize = 0) as Ht0 by (unfold tailSize in *; lia).
        unfold tail. rewrite Ht0, Z.sub_0_r. unfold GoStrings.len.
        rewrite Nat2Z.id, slice_from_all, append_nil_r. reflexivity.
    + unfold removed, tailSize. lia.
    + apply contains_middle, truncationMarker_contains.
Qed.

End TruncationFacts.

Lemma C7_truncate_tool_output_witness :
  Agent.truncateToolOutput "0123456789" 4
  = Some ("012" +:+ Agent.truncationMarker 7 +:+ "").
Proof.
  destruct (C7_truncate_tool_output
              (Agent.mkSessionConfig 0 0 0 0 "" (<["read_file" := 4]> ∅) true 10 1)
              "read_file" "0123456789") as (_ & _ & Hover).
  - vm_compute. discriminate.
  - vm_compute. discriminate.
  - vm_compute. discriminate.
  - destruct Hover as (Hres & _); [vm_compute; reflexivity|].
    exact Hres.
Defined.

(** ** The stylesheet *)

Section StylesheetFacts.
Import Pipeline Stylesheet.
Context `{GoRuntime}.

(** The three attributes a stylesheet can set. *)
Inductive StyleField := FModel | FProvider | FEffort.

Definition fieldOf (f : StyleField) (node : Node) : string :=
  match f with
  | FModel => LLMModel node
  | FProvider => LLMProvider node
  | FEffort => ReasoningEffort node
  end.

(** The property names that write a field. *)
Definition writesField (f : StyleField) (prop : string) : bool :=
  match f with
  | FModel => String.eqb prop "llm_model" || String.eqb prop "model"
  | FProvider => String.eqb prop "llm_provider"
  | FEffort => String.eqb prop "reasoning_effort"
  end.

(** What does not belong to the three attributes. *)
Definition otherFields (node : Node) :=
  (ID node, Label node, Shape node, Type_ node, Prompt node, MaxRetries node,
   GoalGate node, RetryTarget node, FallbackRetryTarget node, Fidelity node,
   ThreadID node, Class_ node, Timeout node, AutoStatus node,
   AllowPartial node, Attrs node).

Lemma applyProperty_field (f : StyleField) (node : Node) (prop val : string) :
  fieldOf f (applyProperty node prop val)
  = if writesField f prop then val else fieldOf f node.
Proof.
  unfold applyProperty.
  destruct (String.eqb_spec prop "llm_model") as [->|H1];
    [destruct f; reflexivity|].
  destruct (String.eqb_spec prop "model") as [->|H2];
    [destruct f; reflexivity|].
  destruct (String.eqb_spec prop "llm_provider") as [->|H3];
    [destruct f; reflexivity|].
  destruct (String.eqb_spec prop "reasoning_effort") as [->|H4];
    [destruct f; reflexivity|].
  destruct f; simpl;
    repeat match goal with
           | |- context [String.eqb prop ?k] =>
               destruct (String.eqb_spec prop k); [congruence|]
           end; reflexivity.
Qed.

Lemma applyProperty_other (node : Node) (prop val : string) :
  otherFields (applyProperty node prop val) = otherFields node.
Proof.
  unfold applyProperty.
  repeat match goal with
         | |- context [if ?b then _ else _] => destruct b
         end; reflexivity.
Qed.

(** The value a rule leaves in a field when exactly one of its
    properties writes the field. *)
Definition sets (f : StyleField) (rule : Rule) (val : string) : Prop :=
  exists prop, Properties rule !! prop = Some val /\ writesField f prop = true /\
               forall prop' val', Properties rule !! prop' = Some val' ->
                                  writesField f prop' = true -> prop' = prop.

(** No property of the rule writes the field. *)
Definition silent (f : StyleField) (rule : Rule) : Prop :=
  forall prop val, Properties rule !! prop = Some val -> writesField f prop = false.

Lemma fold_properties_field (f : StyleField) (entries : list (string * string)) :
  forall node,
    fieldOf f (List.fold_left (fun n pv => applyProperty n (fst pv) (snd pv))
                 entries node)
    = match List.find (fun pv => writesField f (fst pv)) (rev entries) with
      | Some pv => snd pv
      | None => fieldOf f node
      end.
Proof.
  induction entries as [|[prop val] rest IH] using rev_ind; intros node.
  - reflexivity.
  - rewrite List.fold_left_app, rev_app_distr. simpl.
    rewrite applyProperty_field.
    destruct (writesField f prop); [reflexivity|apply IH].
Qed.

Lemma applyRule_silent (f : StyleField) (node : Node) (rule : Rule) :
  silent f rule -> fieldOf f (applyRule node rule) = fieldOf f node.
Proof.
  intros Hs. unfold applyRule. rewrite fold_properties_field.
  destruct (List.find _ _) as [[prop val]|] eqn:Hf; [|reflexivity].
  apply find_some in Hf as [Hin Hw]. exfalso.
  apply in_rev, range_map_lookup in Hin. simpl in Hw.
  rewrite (Hs prop val Hin) in Hw. discriminate.
Qed.

Lemma applyRule_sets (f : StyleField) (node : Node) (rule : Rule) (val : string) :
  sets f rule val -> fieldOf f (applyRule node rule) = val.
Proof.
  intros (prop & Hl & Hw & Huniq). unfold applyRule.
  rewrite fold_properties_field.
  destruct (List.find _ _) as [[prop' val']|] eqn:Hf.
  - apply find_some in Hf as [Hin Hw'].
    apply in_rev, range_map_lookup in Hin. simpl in *.
    assert (prop' = prop) as -> by eauto. congruence.
  - exfalso. apply range_map_lookup, in_rev in Hl.
    pose proof (find_none _ _ Hf _ Hl) as Hn. simpl in Hn. congruence.
Qed.

Lemma applyRule_other (node : Node) (rule : Rule) :
  otherFields (applyRule node rule) = otherFields node.
Proof.
  unfold applyRule. generalize (range_map (Properties rule)). intros entries.
  revert node. induction entries as [|pv rest IH]; intros node; simpl;
    [reflexivity|].
  rewrite IH. apply applyProperty_other.
Qed.

Lemma applyRules_other (rules : list Rule) :
  forall node, otherFields (List.fold_left applyRule rules node) = otherFields node.
Proof.
  induction rules as [|r rest IH]; intros node; simpl; [reflexivity|].
  rewrite IH. apply applyRule_other.
Qed.

Definition lowerFirst (a b : Rule) : Prop := Specificity a <= Specificity b.

Lemma sink_perm (rule : Rule) (sorted : list Rule) :
  sink rule sorted ≡ₚ rule :: sorted.
Proof.
  induction sorted as [|prev rest IH]; simpl; [reflexivity|].
  destruct (Specificity rule <? Specificity prev); [|reflexivity].
  rewrite IH. apply Permutation_swap.
Qed.

Lemma sink_sorted (rule : Rule) (sorted : list Rule) :
  StronglySorted (flip lowerFirst) sorted ->
  StronglySorted (flip lowerFirst) (sink rule sorted).
Proof.
  induction 1 as [|prev rest Hs IH Hall]; simpl.
  - repeat constructor.
  - destruct (Z.ltb_spec (Specificity rule) (Specificity prev)) as [Hlt|Hge].
    + constructor; [exact IH|]. rewrite sink_perm.
      constructor; [unfold flip, lowerFirst; lia|exact Hall].
    + constructor; [constructor; assumption|].
      constructor; [unfold flip, lowerFirst; lia|].
      eapply Forall_impl; [exact Hall|].
      unfold flip, lowerFirst. intros z Hz. lia.
Qed.

Lemma sinks_spec (rules : list Rule) :
  forall sorted,
    StronglySorted (flip lowerFirst) sorted ->
    StronglySorted (flip lowerFirst)
      (List.fold_left (fun sorted rule => sink rule sorted) rules sorted) /\
    List.fold_left (fun sorted rule => sink rule sorted) rules sorted
    ≡ₚ rev rules ++ sorted.
Proof.
  induction rules as [|r rest IH]; intros sorted Hs; simpl.
  - split; [exact Hs|reflexivity].
  - destruct (IH (sink r sorted) (sink_sorted r sorted Hs)) as [Hs' Hp'].
    split; [exact Hs'|]. rewrite Hp', sink_perm.
    rewrite <- app_assoc. simpl. apply Permutation_app_head.
    reflexivity.
Qed.

Lemma sorted_rev (l : list Rule) :
  StronglySorted (flip lowerFirst) l -> StronglySorted lowerFirst (rev l).
Proof.
  induction 1 as [|a l Hs IH Hall]; simpl; [constructor|].
  assert (Happ : forall l1, StronglySorted lowerFirst l1 ->
                   Forall (fun x => lowerFirst x a) l1 ->
                   StronglySorted lowerFirst (l1 ++ [a])).
  { induction 1 as [|x l1 Hs1 IH1 Hall1]; intros Hle; simpl.
    - repeat constructor.
    - apply Forall_cons in Hle as [Hx Hle].
      constructor; [now apply IH1|].
      apply Forall_app. split; [exact Hall1|]. now constructor. }
  apply Happ; [exact IH|].
  apply Forall_forall. intros x Hx. rewrite Forall_forall in Hall.
  apply Hall. apply list_elem_of_In. apply list_elem_of_In in Hx.
  now apply in_rev.
Qed.

Lemma sortBySpecificity_spec (rules : list Rule) :
  StronglySorted lowerFirst (sortBySpecificity rules) /\
  sortBySpecificity rules ≡ₚ rules.
Proof.
  unfold sortBySpecificity.
  destruct (sinks_spec rules [] (SSorted_nil _)) as [Hs Hp].
  split; [now apply sorted_rev|].
  rewrite <- Permutation_rev, Hp, app_nil_r. symmetry. apply Permutation_rev.
Qed.

Lemma matches_withLLM (rule : Rule) (node : Node) (m p e : string) :
  matches rule (withLLM node m p e) = matches rule node.
Proof. reflexivity. Qed.

(** After the rules [before], a rule that sets the field to [val], and
    rules that leave it or set it to [val] again, the field is [val]. *)
Lemma applyRules_last_setter (f : StyleField) (val : string) (rule : Rule)
    (before after : list Rule) (node : Node) :
  sets f rule val ->
  Forall (fun r => silent f r \/ sets f r val) after ->
  fieldOf f (List.fold_left applyRule (before ++ rule :: after) node) = val.
Proof.
  intros Hset Hafter. rewrite List.fold_left_app. simpl.
  generalize (applyRule_sets f (List.fold_left applyRule before node) rule val Hset).
  generalize (applyRule (List.fold_left applyRule before node) rule).
  induction Hafter as [|r after Hr Hafter IH]; intros n Hn; simpl; [exact Hn|].
  apply IH. destruct Hr as [Hr|Hr].
  - now rewrite applyRule_silent.
  - now apply applyRule_sets.
Qed.

(** The node as the rules have left it, before the explicit values are
    put back. *)
Definition styled (ss : Stylesheet) (node : Node) : Node :=
  List.fold_left applyRule
    (sortBySpecificity (List.filter (fun rule => matches rule node) (Rules ss)))
    (withLLM node "" "" "").

Lemma applyToNode_field (ss : Stylesheet) (node : Node) (f : StyleField) :
  fieldOf f (applyToNode ss node)
  = if String.eqb (fieldOf f node) "" then fieldOf f (styled ss node)
    else fieldOf f node.
Proof.
  unfold applyToNode. fold (styled ss node).
  destruct (String.eqb (LLMModel node) "") eqn:Em;
    destruct (String.eqb (LLMProvider node) "") eqn:Ep;
    destruct (String.eqb (ReasoningEffort node) "") eqn:Ee;
    destruct f; simpl; rewrite ?Em, ?Ep, ?Ee; reflexivity.
Qed.

Lemma applyToNode_other (ss : Stylesheet) (node : Node) :
  otherFields (applyToNode ss node) = otherFields node.
Proof.
  assert (Hstyled : otherFields (styled ss node) = otherFields node).
  { unfold styled. now rewrite applyRules_other. }
  unfold applyToNode. fold (styled ss node).
  destruct (String.eqb (LLMModel node) "");
    destruct (String.eqb (LLMProvider node) "");
    destruct (String.eqb (ReasoningEffort node) ""); simpl; exact Hstyled.
Qed.

Lemma parseSelector_specificity (selector : string) (properties : gmap string string) :
  Specificity (parseSelector selector properties)
  = if String.eqb selector "*" then 0
    else if GoStrings.HasPrefix selector "." then 2
    else if GoStrings.HasPrefix selector "#" then 3
    else 1.
Proof.
  unfold parseSelector.
  destruct (String.eqb selector "*"); [reflexivity|].
  destruct (GoStrings.HasPrefix selector "."); [reflexivity|].
  destruct (GoStrings.HasPrefix selector "#"); reflexivity.
Qed.

(** C9. Applying a stylesheet, for every node of the graph. The matching
    rules are applied in ascending order of specificity, which Parse sets
    to 0 for [*], 1 for a shape name, 2 for [.class] and 3 for [#id]. An
    llm_model, llm_provider or reasoning_effort that the node had before
    is the one it has after. One that it did not have is what the rules
    leave, and a matching rule that sets it wins over every matching rule
    of lower specificity. No other attribute of the node changes. *)
Theorem C9_explicit_attributes_win (ss : Stylesheet) (graph : Graph)
    (id : string) (node : Node) :
  Nodes graph !! id = Some node ->
  let node' := applyToNode ss node in
  let matching := List.filter (fun rule => matches rule node) (Rules ss) in
  let applied := sortBySpecificity matching in
  Nodes (Apply ss graph) !! id = Some node' /\
  otherFields node' = otherFields node /\
  applied ≡ₚ matching /\
  StronglySorted lowerFirst applied /\
  (forall selector properties,
     Specificity (parseSelector selector properties)
     = if String.eqb selector "*" then 0
       else if GoStrings.HasPrefix selector "." then 2
       else if GoStrings.HasPrefix selector "#" then 3
       else 1) /\
  forall f : StyleField,
    (fieldOf f node <> "" -> fieldOf f node' = fieldOf f node) /\
    (fieldOf f node = "" ->
     fieldOf f node'
     = fieldOf f (List.fold_left applyRule applied (withLLM node "" "" ""))) /\
    (fieldOf f node = "" ->
     forall rule val,
       In rule matching -> sets f rule val ->
       (forall rule', In rule' matching ->
          rule' = rule \/ silent f rule' \/ Specificity rule' < Specificity rule) ->
       fieldOf f node' = val).
Proof.
  intros Hnode node' matching applied.
  assert (Hsorted : StronglySorted lowerFirst applied)
    by apply sortBySpecificity_spec.
  assert (Hperm : applied ≡ₚ matching) by apply sortBySpecificity_spec.
  split; [|split; [|split; [|split; [|split]]]].
  - unfold Apply. cbn [Nodes]. now rewrite lookup_fmap, Hnode.
  - apply applyToNode_other.
  - exact Hperm.
  - exact Hsorted.
  - apply parseSelector_specificity.
  - intros f. unfold node'. rewrite applyToNode_field.
    destruct (String.eqb_spec (fieldOf f node) "") as [He|He].
    + split; [congruence|]. split; [reflexivity|].
      intros _ rule val Hin Hsets Hothers.
      change (fieldOf f (List.fold_left applyRule applied (withLLM node "" "" ""))
              = val).
      assert (Hin' : rule ∈ applied).
      { rewrite Hperm. now apply list_elem_of_In. }
      apply list_elem_of_split in Hin' as (before & after & Happ).
      rewrite Happ. apply applyRules_last_setter; [exact Hsets|].
      apply Forall_forall. intros r Hr.
      assert (Hrm : In r matching).
      { apply list_elem_of_In. rewrite <- Hperm, Happ.
        apply elem_of_app. right. now right. }
      destruct (Hothers r Hrm) as [->|[Hs|Hlt]]; [now right|now left|].
      exfalso. rewrite Happ in Hsorted.
      apply StronglySorted_app_1_r in Hsorted.
      apply StronglySorted_inv in Hsorted as [_ Hall].
      rewrite Forall_forall in Hall. specialize (Hall r Hr).
      unfold lowerFirst in Hall. lia.
    + split; [reflexivity|]. split; intros; contradiction.
Qed.

End StylesheetFacts.

Lemma C9_explicit_attributes_win_witness :
  Pipeline.Nodes explicitGraph !! "a" = Some explicitNode /\
  Pipeline.LLMModel (Stylesheet.applyToNode defaultModelSheet explicitNode)
  = "explicit-model".
Proof.
  assert (Hnode : Pipeline.Nodes explicitGraph !! "a" = Some explicitNode)
    by (vm_compute; reflexivity).
  split; [exact Hnode|].
  destruct (C9_explicit_attributes_win defaultModelSheet explicitGraph "a"
              explicitNode Hnode) as (_ & _ & _ & _ & _ & Hfields).
  destruct (Hfields FModel) as [Hexplicit _].
  apply Hexplicit. discriminate.
Defined.

Example stylesheet_explicit_and_default :
  Pipeline.LLMModel <$> (Pipeline.Nodes
     (Stylesheet.Apply defaultModelSheet explicitGraph) !! "a")
  = Some "explicit-model" /\
  Pipeline.LLMModel <$> (Pipeline.Nodes
     (Stylesheet.Apply defaultModelSheet explicitGraph) !! "b")
  = Some "default-model".
Proof. split; vm_compute; reflexivity. Qed.

(** ** Retry back-off *)

Section BackoffFacts.
Import LLM.

Lemma truncate_le (q : Q) (z : Z) : (q <= inject_Z z)%Q -> truncate q <= z.
Proof.
  intros Hq. unfold truncate. destruct (Qle_bool 0 q).
  - rewrite <- (Qfloor_Z z). now apply Qfloor_resp_le.
  - rewrite <- (Qceiling_Z z). now apply Qceiling_resp_le.
Qed.

Lemma truncate_Z (z : Z) : truncate (inject_Z z) = z.
Proof.
  unfold truncate. destruct (Qle_bool 0 (inject_Z z)).
  - apply Qfloor_Z.
  - apply Qceiling_Z.
Qed.

Lemma clampedDelay_le (rc : RetryConfig) (attempt : Z) :
  (clampedDelay rc attempt <= inject_Z (MaxDelay rc))%Q.
Proof.
  unfold clampedDelay.
  destruct (Qle_bool _ _) eqn:Hle; [now apply Qle_bool_iff|apply Qle_refl].
Qed.

(** The exponential before it is clamped. *)
Definition exponential (rc : RetryConfig) (attempt : Z) : Q :=
  (inject_Z (InitialDelay rc) * Qpower (BackoffFactor rc) (attempt - 1))%Q.

Lemma clampedDelay_min (rc : RetryConfig) (attempt : Z) :
  clampedDelay rc attempt
  = if Qle_bool (exponential rc attempt) (inject_Z (MaxDelay rc))
    then exponential rc attempt else inject_Z (MaxDelay rc).
Proof. reflexivity. Qed.

Lemma jittered_le (c : Q) (maxDelay : Z) (draw : Q) :
  (c <= inject_Z maxDelay)%Q -> 0 <= maxDelay -> (0 <= draw)%Q -> (draw < 1)%Q ->
  2 * truncate (c * ((1 # 2) + draw)) <= 3 * maxDelay.
Proof.
  intros Hc Hmax Hd0 Hd1.
  assert (Hm : (0 <= inject_Z maxDelay)%Q).
  { pose proof Hmax as Hmax'. rewrite Zle_Qle in Hmax'. exact Hmax'. }
  assert (Hbound : (2 * (c * ((1 # 2) + draw)) <= 3 * inject_Z maxDelay)%Q).
  { destruct (Qlt_le_dec c 0) as [Hneg|Hpos]; nra. }
  unfold truncate. destruct (Qle_bool 0 (c * ((1 # 2) + draw))) eqn:Hsign.
  - apply Qle_bool_iff in Hsign.
    pose proof (Qfloor_le (c * ((1 # 2) + draw))) as Hfl.
    assert (Hq : (inject_Z (2 * Qfloor (c * ((1 # 2) + draw)))
                  <= inject_Z (3 * maxDelay))%Q).
    { rewrite !inject_Z_mult.
      change (inject_Z 2) with 2%Q. change (inject_Z 3) with 3%Q. lra. }
    now rewrite <- Zle_Qle in Hq.
  - assert (Hlt : (c * ((1 # 2) + draw) < 0)%Q).
    { apply Qnot_le_lt. intros Hle. apply Qle_bool_iff in Hle. congruence. }
    assert (Hceil : Qceiling (c * ((1 # 2) + draw)) <= 0).
    { rewrite <- (Qceiling_Z 0). apply Qceiling_resp_le. now apply Qlt_le_weak. }
    lia.
Qed.

Section RetryRun.
Context {W : Type}.
Variable fn : W -> (Response + Error) * W.
Variable randFloat64 : W -> Q * W.
Variable waitOrDone : Z -> W -> bool * W.

(** [d] is the delay that Retry computes after some failed attempt. *)
Definition isRetryDelay (config : RetryConfig) (first : Z) (d : Z) : Prop :=
  exists attempt err draw,
    first <= attempt /\ d = retryDelay config attempt err draw /\
    (Jitter config = true -> exists w, draw = fst (randFloat64 w)).

Lemma retryLoop_slept (config : RetryConfig) (remaining : nat) :
  forall attempt lastErr slept w,
    exists waited,
      snd (fst (retryLoop fn randFloat64 waitOrDone remaining attempt config
                  lastErr slept w)) = slept ++ waited /\
      Forall (isRetryDelay config attempt) waited.
Proof.
  induction remaining as [|remaining IH]; intros attempt lastErr slept w.
  - exists []. simpl. rewrite app_nil_r. split; [reflexivity|constructor].
  - cbn [retryLoop]. destruct (fn w) as [[resp|err] w1]; cbn [fst snd].
    + exists []. rewrite app_nil_r. split; [reflexivity|constructor].
    + destruct (negb _ || _).
      * exists []. rewrite app_nil_r. split; [reflexivity|constructor].
      * set (dw := if Jitter config then randFloat64 w1 else (0%Q, w1)).
        assert (Hdraw : Jitter config = true -> exists w', fst dw = fst (randFloat64 w')).
        { intros Hj. subst dw. rewrite Hj. eauto. }
        destruct dw as [draw w2]. cbn [fst] in Hdraw.
        destruct (waitOrDone (retryDelay config attempt err draw) w2) as [[|] w3].
        -- exists []. rewrite app_nil_r. split; [reflexivity|constructor].
        -- destruct (IH (attempt + 1) (Some err)
                       (slept ++ [retryDelay config attempt err draw]) w3)
             as (waited & Hs & Hall).
           exists (retryDelay config attempt err draw :: waited).
           rewrite Hs, <- app_assoc. split; [reflexivity|].
           constructor.
           ++ exists attempt, err, draw. split; [lia|]. split; [reflexivity|].
              exact Hdraw.
           ++ eapply Forall_impl; [exact Hall|].
              intros d (a & e & dr & Ha & Hd & Hj). exists a, e, dr.
              split; [lia|]. split; assumption.
Qed.

End RetryRun.


End BackoffFacts.

(** The property C6 as the specification states it for every retry: the delay never
    exceeds max_delay. *)
Definition delay_at_most_max : Prop :=
  forall (rc : LLM.RetryConfig) (k : Z) (draw : Q),
    1 <= k -> (0 <= draw)%Q -> (draw < 1)%Q ->
    LLM.DelayForAttempt rc k draw <= LLM.MaxDelay rc.


(** ** Follow-up messages *)

Section FollowUpFacts.
Import LLM Agent.
Context {W : Type}.
Variable ctxErr : W -> option string.
Variable Complete : Request -> W -> (Response + string) * W.
Variable Execute : string -> string -> W -> (string * option string) * W.

Lemma executeToolCalls_State (toolCalls : list ToolCall) :
  forall s w, State (snd (fst (executeToolCalls Execute s toolCalls w))) = State s.
Proof.
  induction toolCalls as [|tc rest IH]; intros s w; [reflexivity|].
  cbn [executeToolCalls].
  destruct (Execute (TCName tc) (Arguments tc) w) as [[result err] w1].
  destruct err as [e|]; [|destruct (applyTruncation _ _ _)]; try reflexivity.
  - match goal with
    | |- context [executeToolCalls Execute ?s1 rest ?w1] =>
        specialize (IH s1 w1);
        destruct (executeToolCalls Execute s1 rest w1) as [[results s2] w2]
    end.
    exact IH.
  - match goal with
    | |- context [executeToolCalls Execute ?s1 rest ?w1] =>
        specialize (IH s1 w1);
        destruct (executeToolCalls Execute s1 rest w1) as [[results s2] w2]
    end.
    exact IH.
Qed.

Lemma detectLoops_State (toolCalls : list ToolCall) :
  forall s, State (snd (detectLoops s toolCalls)) = State s.
Proof.
  induction toolCalls as [|tc rest IH]; intros s; [reflexivity|].
  cbn [detectLoops].
  destruct (recordAndCheck (detector s) (TCName tc) (Arguments tc)) as [[[|]|] ld];
    try reflexivity; rewrite IH; reflexivity.
Qed.

(** The loop never writes the state of the session. *)
Lemma rounds_State (remaining : nat) :
  forall toolRound s w,
    State (snd (fst (rounds ctxErr Complete Execute remaining toolRound s w)))
    = State s.
Proof.
  induction remaining as [|remaining IH]; intros toolRound s w; [reflexivity|].
  cbn [rounds]. destruct (ctxErr w); [reflexivity|].
  set (s1 := match SteeringQueue s with
             | msg :: queue =>
                 emit (appendTurn (setSteeringQueue s queue) (SteeringTurn msg))
                   (SteeringApplied msg)
             | [] => s
             end).
  assert (Hs1 : State s1 = State s) by (subst s1; destruct (SteeringQueue s); reflexivity).
  destruct (Complete (buildRequest s1) w) as [[resp|err] w1]; [|exact Hs1].
  cbn [fst snd].
  match goal with |- context [if ?b then _ else _] => destruct b end;
    [exact Hs1|].
  destruct (RToolCalls resp) as [|tc tcs] eqn:Htcs; [exact Hs1|].
  match goal with
  | |- context [executeToolCalls Execute ?s2 ?tcs' w1] =>
      pose proof (executeToolCalls_State tcs' s2 w1) as Hexec;
      destruct (executeToolCalls Execute s2 tcs' w1) as [[results s3] w3]
  end.
  cbn [fst snd State setTurnCount appendTurn emit] in Hexec.
  rewrite Hs1 in Hexec.
  destruct results as [results|]; [|exact Hexec].
  match goal with
  | |- context [if EnableLoopDetection ?c then detectLoops ?s4 ?tcs' else _] =>
      pose proof (detectLoops_State tcs' s4) as Hdet;
      destruct (EnableLoopDetection c);
      [destruct (detectLoops s4 tcs') as [ok s5]|]
  end; cbn [fst snd] in *.
  - destruct ok; [rewrite IH|];
      (etransitivity; [exact Hdet|exact Hexec]).
  - rewrite IH. exact Hexec.
Qed.

(** What Submit gives to the loop. *)
Definition started (s : Session) (input : string) : Session :=
  appendTurn (emit (setState s StateProcessing) (SessionStarted input))
    (UserTurn input).

Definition notIdle : string := "session is not idle (state: processing)".

(** Whenever the loop of a Submit is left with a message in the
    follow-up queue, that message is taken off the queue and the nested
    Submit refuses it: the session is still processing. Submit returns
    the error, and the history is what the loop left. *)
Lemma Submit_drops_followup (s : Session) (input : string) (w : W) :
  State s = StateIdle \/ State s = StateAwaitingInput ->
  let maxToolRounds :=
    if MaxToolRoundsPerInput (Config s) =? 0 then 200
    else MaxToolRoundsPerInput (Config s) in
  forall s1 w1 msg queue,
    rounds ctxErr Complete Execute (Z.to_nat maxToolRounds) 0 (started s input) w
    = (LoopLeft, s1, w1) ->
    FollowupQueue s1 = msg :: queue ->
    Submit ctxErr Complete Execute s input w
    = (SubmitError notIdle, setState (setFollowupQueue s1 queue) StateIdle, w1).
Proof.
  intros Hstate maxToolRounds s1 w1 msg queue Hrounds Hqueue.
  assert (Hs1 : State s1 = StateProcessing).
  { pose proof (rounds_State (Z.to_nat maxToolRounds) 0 (started s input) w) as Hst.
    rewrite Hrounds in Hst. exact Hst. }
  unfold Submit. cbn [submitAt].
  assert (Hguard : negb (String.eqb (State s) StateIdle)
                   && negb (String.eqb (State s) StateAwaitingInput) = false).
  { destruct Hstate as [-> | ->]; reflexivity. }
  rewrite Hguard. fold (started s input).
  unfold runLoop. change (Config (started s input)) with (Config s).
  fold maxToolRounds. rewrite Hrounds, Hqueue.
  destruct (List.length (FollowupQueue s)); cbn [submitAt];
    cbn [State setFollowupQueue]; rewrite Hs1;
    change (negb (String.eqb StateProcessing StateIdle)
            && negb (String.eqb StateProcessing StateAwaitingInput)) with true;
    cbn iota; cbn [State setFollowupQueue]; rewrite Hs1; reflexivity.
Qed.

End FollowUpFacts.

(** C5, as the code behaves. A session that is idle has the follow-up
    "next" queued; Submit "first" gets one final answer from the model and
    the loop is left. The follow-up is taken off the queue, but the nested
    Submit finds the session still processing and returns an error, which
    the outer Submit returns: no UserTurn for "next" is appended and the
    model is never asked about it. *)
Theorem C5_followup_rejected :
  let s := Agent.FollowUp (Agent.NewSession testProfile Agent.DefaultSessionConfig)
             "next" in
  let result := Agent.Submit neverCancelled finalAnswer noTools s "first" tt in
  fst (fst result) = Agent.SubmitError "session is not idle (state: processing)" /\
  Agent.History (snd (fst result))
  = [Agent.UserTurn "first"; Agent.AssistantTurn "done" [] "" LLM.zeroUsage "resp-1"] /\
  Agent.FollowupQueue (snd (fst result)) = [] /\
  Agent.State (snd (fst result)) = Agent.StateIdle /\
  Agent.Emitted (snd (fst result))
  = [Agent.SessionStarted "first"; Agent.TurnStarted 0; Agent.TurnCompleted "done" 0].
Proof. vm_compute. repeat split; reflexivity. Qed.

(** * Further properties of the code *)

(** ** Edge selection after the condition pass *)

Section SelectEdgeSteps.
Import Pipeline.
Context `{GoRuntime}.

Lemma bestByWeightThenLexical_None (edges : list Edge) :
  bestByWeightThenLexical edges = None <-> edges = [].
Proof.
  split; [|intros ->; reflexivity].
  intros Hb. destruct edges as [|e rest]; [reflexivity|].
  destruct (bestByWeightThenLexical_spec (e :: rest)) as (e' & He' & _);
    [discriminate|congruence].
Qed.

Lemma bestByWeightThenLexical_In (edges : list Edge) (e : Edge) :
  bestByWeightThenLexical edges = Some e -> In e edges.
Proof.
  intros Hb. destruct edges as [|e0 rest]; [discriminate|].
  destruct (bestByWeightThenLexical_spec (e0 :: rest)) as (e' & He' & Hin & _);
    [discriminate|congruence].
Qed.

Lemma firstSuggested_In (suggested : list string) (edges : list Edge) (e : Edge) :
  firstSuggested suggested edges = Some e -> In e edges.
Proof.
  induction suggested as [|sid rest IH]; simpl; [discriminate|].
  destruct (List.find _ edges) eqn:Hf.
  - intros [= <-]. now apply find_some in Hf.
  - exact IH.
Qed.

Lemma positive_length_cons {A : Type} (x : A) (l : list A) :
  (0 <? Z.of_nat (List.length (x :: l))) = true.
Proof. rewrite length_cons. apply Z.ltb_lt. lia. Qed.

Lemma match_nonempty {A B : Type} (l : list A) (x y : B) :
  l <> [] -> match l with [] => x | _ :: _ => y end = y.
Proof. destruct l; [congruence|reflexivity]. Qed.

Lemma positive_length_nil {A : Type} :
  (0 <? Z.of_nat (List.length (@nil A))) = false.
Proof. reflexivity. Qed.

Lemma selectEdge_In (node : Node) (outcome : option Outcome) (ctx : Context)
    (graph : Graph) (e : Edge) :
  selectEdge node outcome ctx graph = Some e ->
  In e (OutgoingEdges graph (ID node)).
Proof.
  { unfold selectEdge.
    destruct (OutgoingEdges graph (ID node)) as [|e0 rest] eqn:Hout;
      [discriminate|]. rewrite <- Hout.
    set (edges := OutgoingEdges graph (ID node)).
    destruct (0 <? _).
    { intros Hb. apply bestByWeightThenLexical_In in Hb.
      now apply filter_In in Hb. }
    destruct (match outcome with Some o => if negb (String.eqb (PreferredLabel o) "") then List.find _ edges else None | None => None end) as [e1|] eqn:Hlabel.
    { intros [= <-]. destruct outcome as [o|]; [|discriminate].
      destruct (negb _); [|discriminate]. now apply find_some in Hlabel. }
    destruct (match outcome with Some o => firstSuggested (SuggestedNextIDs o) edges | None => None end) as [e2|] eqn:Hsug.
    { intros [= <-]. destruct outcome as [o|]; [|discriminate].
      now apply firstSuggested_In in Hsug. }
    destruct (0 <? _); intros Hb; apply bestByWeightThenLexical_In in Hb;
      [now apply filter_In in Hb|exact Hb]. }
Qed.

(** selectEdge returns nil exactly when the node has no outgoing edge,
    and an edge it returns is an edge of the graph that leaves the
    node. *)
Theorem selectEdge_outgoing (node : Node) (outcome : option Outcome)
    (ctx : Context) (graph : Graph) :
  (selectEdge node outcome ctx graph = None
   <-> OutgoingEdges graph (ID node) = []) /\
  (forall e, selectEdge node outcome ctx graph = Some e ->
             In e (Edges graph) /\ From e = ID node).
Proof.
  split.
  - split; [|intros Hout; unfold selectEdge; now rewrite Hout].
    unfold selectEdge.
    destruct (OutgoingEdges graph (ID node)) as [|e0 rest] eqn:Hout;
      [reflexivity|]. rewrite <- Hout.
    set (edges := OutgoingEdges graph (ID node)).
    destruct (List.filter (matchesCondition outcome ctx) edges) eqn:Hc.
    2:{ rewrite positive_length_cons. intros Hb.
        apply bestByWeightThenLexical_None in Hb. discriminate. }
    rewrite positive_length_nil.
    destruct (match outcome with Some o => if negb (String.eqb (PreferredLabel o) "") then List.find _ edges else None | None => None end) as [e1|]; [discriminate|].
    destruct (match outcome with Some o => firstSuggested (SuggestedNextIDs o) edges | None => None end) as [e2|]; [discriminate|].
    destruct (List.filter (fun e => String.eqb (Condition e) "") edges) eqn:Hu;
      rewrite ?positive_length_cons, ?positive_length_nil; intros Hb;
      apply bestByWeightThenLexical_None in Hb; [|discriminate].
    subst edges. rewrite Hout in Hb. discriminate.
  - intros e He. apply selectEdge_In in He. unfold OutgoingEdges in He.
    apply filter_In in He as [He Hfrom]. split; [exact He|].
    now apply String.eqb_eq in Hfrom.
Qed.


(** No outgoing edge of the node has a non-empty condition that holds. *)
Definition noTrueCondition (node : Node) (outcome : option Outcome)
    (ctx : Context) (graph : Graph) : Prop :=
  forall e, In e (OutgoingEdges graph (ID node)) ->
            matchesCondition outcome ctx e = false.

(** The label of the edge is the preferred label of the outcome, after
    normalizeLabel on both. *)
Definition labelMatches (o : Outcome) (e : Edge) : Prop :=
  normalizeLabel (ELabel e) = normalizeLabel (PreferredLabel o).

(** The outcome names no label that an outgoing edge carries. *)
Definition noLabelMatch (node : Node) (outcome : option Outcome)
    (graph : Graph) : Prop :=
  match outcome with
  | None => True
  | Some o =>
      PreferredLabel o = "" \/
      forall e, In e (OutgoingEdges graph (ID node)) -> ~ labelMatches o e
  end.

(** The outcome suggests no node that an outgoing edge leads to. *)
Definition noSuggestionMatch (node : Node) (outcome : option Outcome)
    (graph : Graph) : Prop :=
  match outcome with
  | None => True
  | Some o =>
      forall sid e, In sid (SuggestedNextIDs o) ->
                    In e (OutgoingEdges graph (ID node)) -> To e <> sid
  end.

Lemma noTrueCondition_filter node outcome ctx graph :
  noTrueCondition node outcome ctx graph ->
  List.filter (matchesCondition outcome ctx) (OutgoingEdges graph (ID node)) = [].
Proof.
  intros Hno. destruct (List.filter _ _) as [|e rest] eqn:Hf; [reflexivity|].
  assert (Hin : In e (List.filter (matchesCondition outcome ctx)
                        (OutgoingEdges graph (ID node))))
    by (rewrite Hf; now left).
  apply filter_In in Hin as [Hin Hm]. rewrite (Hno e Hin) in Hm. discriminate.
Qed.

Lemma find_first {A : Type} (p : A -> bool) (before after : list A) (x : A) :
  p x = true -> (forall y, In y before -> p y = false) ->
  List.find p (before ++ x :: after) = Some x.
Proof.
  intros Hx Hbefore. induction before as [|y before IH]; simpl.
  - now rewrite Hx.
  - rewrite (Hbefore y) by now left. apply IH. intros z Hz. apply Hbefore.
    now right.
Qed.

Lemma find_no {A : Type} (p : A -> bool) (l : list A) :
  (forall y, In y l -> p y = false) -> List.find p l = None.
Proof.
  intros Hl. destruct (List.find p l) as [x|] eqn:Hf; [|reflexivity].
  apply find_some in Hf as [Hin Hp]. rewrite (Hl x Hin) in Hp. discriminate.
Qed.


Lemma firstSuggested_first (skipped rest : list string) (edges before after : list Edge)
    (e : Edge) :
  edges = before ++ e :: after ->
  (forall sid e', In sid skipped -> In e' edges -> To e' <> sid) ->
  (forall e', In e' before -> To e' <> To e) ->
  firstSuggested (skipped ++ To e :: rest) edges = Some e.
Proof.
  intros Hedges Hskipped Hbefore.
  induction skipped as [|sid skipped IH]; simpl.
  - rewrite Hedges.
    rewrite (find_first _ before after e); [reflexivity|apply String.eqb_refl|].
    intros e' He'. apply String.eqb_neq. now apply Hbefore.
  - rewrite find_no.
    + apply IH. intros sid' e' Hs. apply Hskipped. now right.
    + intros e' He'. apply String.eqb_neq. apply Hskipped; [now left|exact He'].
Qed.


Lemma firstSuggested_no (suggested : list string) (edges : list Edge) :
  (forall sid e, In sid suggested -> In e edges -> To e <> sid) ->
  firstSuggested suggested edges = None.
Proof.
  intros Hno. induction suggested as [|sid rest IH]; simpl; [reflexivity|].
  rewrite find_no.
  - apply IH. intros sid' e Hs. apply Hno. now right.
  - intros e He. apply String.eqb_neq. apply Hno; [now left|exact He].
Qed.


End SelectEdgeSteps.

Section SelectEdgeExamples.
Import Pipeline.

Ltac each_edge He :=
  vm_compute in He;
  repeat (destruct He as [<-|He]; [try (vm_compute; reflexivity); try (vm_compute; discriminate)|]);
  try destruct He.




End SelectEdgeExamples.

(** ** Retry at a node: errors and other statuses *)

Section RetryMore.
Import Pipeline.
Context {W : Type}.
Variable Resolve : Node -> option (@Handler W).
Variable LogsRoot : string.

(** The handler returns the error [err] at every invocation at [node]. *)
Definition alwaysErrors (handler : @Handler W) (node : Node) (graph : Graph)
    (err : string) : Prop :=
  forall ctx w, exists ctx' w',
    handler node ctx graph LogsRoot w = (Failed err, ctx', w').

(** The handler answers every invocation at [node] with a status that is
    none of success, partial_success, retry and fail. *)
Definition alwaysOther (handler : @Handler W) (node : Node) (graph : Graph)
  : Prop :=
  forall ctx w, exists o ctx' w',
    handler node ctx graph LogsRoot w = (Returned o, ctx', w') /\
    Status o <> StatusSuccess /\ Status o <> StatusPartialSuccess /\
    Status o <> StatusRetry /\ Status o <> StatusFail.

(** [remaining] invocations one after the other, nothing in between. *)
Fixpoint executeTrace (node : Node) (remaining : nat) (attempt : Z)
  : list Effect :=
  match remaining with
  | O => []
  | S remaining' =>
      Execute (ID node) attempt :: executeTrace node remaining' (attempt + 1)
  end.

Lemma count_executeTrace node remaining attempt :
  count isExecute (executeTrace node remaining attempt) = Z.of_nat remaining /\
  count isSleep (executeTrace node remaining attempt) = 0.
Proof.
  unfold count. revert attempt.
  induction remaining as [|r IH]; intros attempt; [split; reflexivity|].
  destruct (IH (attempt + 1)) as [IH1 IH2].
  cbn [executeTrace List.filter isExecute isSleep List.length].
  rewrite IH2. split; [|reflexivity]. rewrite !Nat2Z.inj_succ, IH1. reflexivity.
Qed.

Lemma attempts_alwaysErrors handler node graph stageIndex err :
  alwaysErrors handler node graph err ->
  forall remaining attempt maxAttempts m,
    (1 <= remaining)%nat ->
    Z.of_nat remaining = maxAttempts - attempt + 1 ->
    exists m',
      attempts LogsRoot remaining attempt maxAttempts handler node graph
        stageIndex m = (failOutcome err, m') /\
      mLog m' = mLog m ++ retryTrace node stageIndex remaining attempt.
Proof.
  intros Herr. induction remaining as [|r IH]; intros attempt maxAttempts m Hr Hrem; [lia|].
  destruct (Herr (mCtx m) (mWorld m)) as (ctx' & w' & Hh).
  cbn [attempts]. rewrite Hh. cbn iota beta.
  destruct r as [|r].
  - assert (attempt = maxAttempts) as -> by lia.
    rewrite Z.ltb_irrefl. eexists. split; reflexivity.
  - assert (Hlt : (attempt <? maxAttempts) = true) by (apply Z.ltb_lt; lia).
    rewrite Hlt.
    edestruct (IH (attempt + 1) maxAttempts) as (m' & Hrun & Hlog); [lia|lia|].
    eexists. split; [exact Hrun|].
    rewrite Hlog. cbn [mLog emit].
    change (retryTrace node stageIndex (S (S r)) attempt)
      with ([Execute (ID node) attempt; StageRetrying (Label node) stageIndex attempt;
             Sleep attempt] ++ retryTrace node stageIndex (S r) (attempt + 1)).
    rewrite <- !List.app_assoc. reflexivity.
Qed.

Lemma attempts_alwaysOther handler node graph stageIndex :
  alwaysOther handler node graph ->
  forall remaining attempt maxAttempts m,
    exists m',
      attempts LogsRoot remaining attempt maxAttempts handler node graph
        stageIndex m = (failOutcome "max retries exceeded", m') /\
      mLog m' = mLog m ++ executeTrace node remaining attempt.
Proof.
  intros Hother. induction remaining as [|r IH]; intros attempt maxAttempts m.
  - eexists. split; [reflexivity|]. cbn [executeTrace]. now rewrite app_nil_r.
  - destruct (Hother (mCtx m) (mWorld m)) as (o & ctx' & w' & Hh & H1 & H2 & H3 & H4).
    cbn [attempts]. rewrite Hh. cbn iota beta.
    unfold isSuccessLike.
    apply String.eqb_neq in H1, H2, H3, H4. rewrite H1, H2, H3, H4. cbn [orb].
    cbv iota.
    edestruct (IH (attempt + 1) maxAttempts) as (m' & Hrun & Hlog).
    eexists. split; [exact Hrun|].
    rewrite Hlog. cbn [mLog executeTrace]. rewrite <- List.app_assoc. reflexivity.
Qed.

(** A handler that returns an error at every invocation is retried like
    one that answers retry: it is invoked as often as the budget
    max(1, max_attempts) allows, with a [stage_retrying] event and a sleep
    between two invocations. The result is then a fail outcome whose
    failure reason is the text of the error, also for a node with
    allow_partial. *)
Theorem executeWithRetry_handler_errors (node : Node) (graph : Graph)
    (handler : @Handler W) (policy : RetryPolicy) (stageIndex : Z)
    (m : Machine) (err : string) :
  Resolve node = Some handler ->
  alwaysErrors handler node graph err ->
  let budget := Z.max 1 (MaxAttempts policy) in
  exists m',
    executeWithRetry Resolve LogsRoot node graph policy stageIndex m
    = (failOutcome err, m') /\
    mLog m' = mLog m ++ retryTrace node stageIndex (Z.to_nat budget) 1 /\
    count isExecute (retryTrace node stageIndex (Z.to_nat budget) 1) = budget /\
    count isSleep (retryTrace node stageIndex (Z.to_nat budget) 1) = budget - 1.
Proof.
  intros Hres Herr budget. unfold executeWithRetry. rewrite Hres.
  assert (Hb : (if MaxAttempts policy <? 1 then 1 else MaxAttempts policy) = budget).
  { unfold budget. destruct (Z.ltb_spec (MaxAttempts policy) 1); lia. }
  rewrite Hb.
  destruct (attempts_alwaysErrors handler node graph stageIndex err Herr
              (Z.to_nat budget) 1 budget m) as (m' & Hrun & Hlog); [lia|lia|].
  exists m'. split; [exact Hrun|]. split; [exact Hlog|].
  destruct (count_retryTrace node stageIndex (Z.to_nat budget) 1) as [Hc1 Hc2];
    [lia|]. rewrite Hc1, Hc2. lia.
Qed.

(** An outcome whose status is none of success, partial_success, retry
    and fail (skipped, for one) makes the loop go on to the next attempt
    at once: the handler is invoked again without a [stage_retrying]
    event and without a sleep. When the budget max(1, max_attempts) is
    used up the result is a fail outcome with the reason
    [max retries exceeded], also for a node with allow_partial. *)
Theorem executeWithRetry_other_status (node : Node) (graph : Graph)
    (handler : @Handler W) (policy : RetryPolicy) (stageIndex : Z)
    (m : Machine) :
  Resolve node = Some handler ->
  alwaysOther handler node graph ->
  let budget := Z.max 1 (MaxAttempts policy) in
  exists m',
    executeWithRetry Resolve LogsRoot node graph policy stageIndex m
    = (failOutcome "max retries exceeded", m') /\
    mLog m' = mLog m ++ executeTrace node (Z.to_nat budget) 1 /\
    count isExecute (executeTrace node (Z.to_nat budget) 1) = budget /\
    count isSleep (executeTrace node (Z.to_nat budget) 1) = 0.
Proof.
  intros Hres Hother budget. unfold executeWithRetry. rewrite Hres.
  assert (Hb : (if MaxAttempts policy <? 1 then 1 else MaxAttempts policy) = budget).
  { unfold budget. destruct (Z.ltb_spec (MaxAttempts policy) 1); lia. }
  rewrite Hb.
  destruct (attempts_alwaysOther handler node graph stageIndex Hother
              (Z.to_nat budget) 1 budget m) as (m' & Hrun & Hlog).
  exists m'. split; [exact Hrun|]. split; [exact Hlog|].
  destruct (count_executeTrace node (Z.to_nat budget) 1) as [Hc1 Hc2].
  rewrite Hc1, Hc2. lia.
Qed.

End RetryMore.

Lemma executeWithRetry_handler_errors_witness :
  exists m',
    Pipeline.executeWithRetry (fun _ => Some (erroringHandler "backend down")) ""
      (retryNode 2 true) linearGraph
      (Pipeline.buildRetryPolicy (retryNode 2 true) linearGraph) 0
      (Pipeline.mkMachine Pipeline.NewContext tt [])
    = (Pipeline.failOutcome "backend down", m') /\
    count isExecute (Pipeline.mLog m') = 3 /\ count isSleep (Pipeline.mLog m') = 2.
Proof.
  destruct (executeWithRetry_handler_errors
              (fun _ => Some (erroringHandler "backend down")) ""
              (retryNode 2 true) linearGraph (erroringHandler "backend down")
              (Pipeline.buildRetryPolicy (retryNode 2 true) linearGraph) 0
              (Pipeline.mkMachine Pipeline.NewContext tt []) "backend down")
    as (m' & Hrun & Hlog & _).
  - reflexivity.
  - intros ctx w. exists ctx, w. reflexivity.
  - exists m'. split; [exact Hrun|]. rewrite Hlog. split; reflexivity.
Defined.

Lemma executeWithRetry_other_status_witness :
  exists m',
    Pipeline.executeWithRetry (fun _ => Some skippingHandler) ""
      (retryNode 2 true) linearGraph
      (Pipeline.buildRetryPolicy (retryNode 2 true) linearGraph) 0
      (Pipeline.mkMachine Pipeline.NewContext tt [])
    = (Pipeline.failOutcome "max retries exceeded", m') /\
    count isExecute (Pipeline.mLog m') = 3 /\ count isSleep (Pipeline.mLog m') = 0.
Proof.
  destruct (executeWithRetry_other_status
              (fun _ => Some skippingHandler) ""
              (retryNode 2 true) linearGraph skippingHandler
              (Pipeline.buildRetryPolicy (retryNode 2 true) linearGraph) 0
              (Pipeline.mkMachine Pipeline.NewContext tt []))
    as (m' & Hrun & Hlog & _).
  - reflexivity.
  - intros ctx w. eexists _, ctx, w. split; [reflexivity|].
    repeat split; discriminate.
  - exists m'. split; [exact Hrun|]. rewrite Hlog. split; reflexivity.
Defined.

(** ** The delay between two attempts at a node *)

Section NodeBackoff.
Import Pipeline.

Lemma Qfloor_bounds (q : Q) (lo hi : Z) :
  (inject_Z lo <= q)%Q -> (q < inject_Z hi)%Q -> lo <= Qfloor q < hi.
Proof.
  intros Hlo Hhi. split.
  - rewrite <- (Qfloor_Z lo). now apply Qfloor_resp_le.
  - pose proof (Qfloor_le q) as Hfl.
    assert (Hq : (inject_Z (Qfloor q) < inject_Z hi)%Q) by lra.
    now rewrite <- Zlt_Qlt in Hq.
Qed.


End NodeBackoff.


(** ** The run as a whole *)

Section RunMore.
Import Pipeline.
Context `{GoRuntime}.
Context {W : Type}.
Variable Resolve : Node -> option (@Handler W).
Variable LogsRoot : string.

(** findStartNode returns a node of the graph: one of shape Mdiamond
    when the graph has such a node, otherwise one whose ID is [start] or
    [Start], and nil only when the graph has neither. The ID that is
    looked at is the field of the node, not the key of the map. *)
Theorem findStartNode_spec (graph : Graph) :
  match findStartNode graph with
  | Some node =>
      (exists id, Nodes graph !! id = Some node) /\
      (Shape node = "Mdiamond" \/
       (forall id n, Nodes graph !! id = Some n -> Shape n <> "Mdiamond") /\
       (ID node = "start" \/ ID node = "Start"))
  | None =>
      forall id n, Nodes graph !! id = Some n ->
                   Shape n <> "Mdiamond" /\ ID n <> "start" /\ ID n <> "Start"
  end.
Proof.
  unfold findStartNode.
  assert (Hin : forall n, In n (List.map snd (range_map (Nodes graph)))
                          <-> exists id, Nodes graph !! id = Some n).
  { intros n. rewrite in_map_iff. split.
    - intros ([id n'] & <- & Hl). exists id. now apply range_map_lookup.
    - intros (id & Hl). exists (id, n). split; [reflexivity|].
      now apply range_map_lookup. }
  destruct (List.find (fun node => String.eqb (Shape node) "Mdiamond") _)
    as [node|] eqn:Hshape.
  - apply find_some in Hshape as [Hnode Hs]. split; [now apply Hin|].
    left. now apply String.eqb_eq.
  - assert (Hno : forall id n, Nodes graph !! id = Some n -> Shape n <> "Mdiamond").
    { intros id n Hl. apply String.eqb_neq.
      apply (find_none _ _ Hshape). apply Hin. eauto. }
    destruct (List.find (fun node => String.eqb (ID node) "start"
                                         || String.eqb (ID node) "Start") _)
      as [node|] eqn:Hid.
    + apply find_some in Hid as [Hnode Hi]. split; [now apply Hin|].
      right. split; [exact Hno|].
      apply orb_true_iff in Hi. now rewrite !String.eqb_eq in Hi.
    + intros id n Hl. split; [now apply (Hno id)|].
      assert (Hn : In n (List.map snd (range_map (Nodes graph))))
        by (apply Hin; eauto).
      pose proof (find_none _ _ Hid n Hn) as Hf. cbv beta in Hf.
      apply orb_false_iff in Hf. now rewrite !String.eqb_neq in Hf.
Qed.

Lemma executeNode_records (node : Node) (graph : Graph) (stageIndex : Z)
    (completedNodes completedNodes' : list string)
    (nodeOutcomes nodeOutcomes' : gmap string Outcome) (m m' : Machine)
    (outcome : Outcome) :
  executeNode Resolve LogsRoot node graph stageIndex completedNodes nodeOutcomes m
  = (outcome, completedNodes', nodeOutcomes', m') ->
  completedNodes' = completedNodes ++ [ID node] /\
  nodeOutcomes' = <[ID node := outcome]> nodeOutcomes.
Proof.
  unfold executeNode.
  destruct (executeWithRetry _ _ _ _ _ _ _) as [o m1].
  intros [= <- <- <- _]. split; reflexivity.
Qed.

(** What Run keeps true of the nodes it has completed and the outcomes
    it has recorded. *)
Definition recorded (graph : Graph) (completedNodes : list string)
    (nodeOutcomes : gmap string Outcome) : Prop :=
  (forall id, In id completedNodes <-> is_Some (nodeOutcomes !! id)) /\
  (forall id, In id completedNodes ->
     exists key node, Nodes graph !! key = Some node /\ ID node = id /\
                      isTerminal node = false).

Lemma recorded_step (graph : Graph) (completedNodes : list string)
    (nodeOutcomes : gmap string Outcome) (key : string) (node : Node)
    (outcome : Outcome) :
  recorded graph completedNodes nodeOutcomes ->
  Nodes graph !! key = Some node -> isTerminal node = false ->
  recorded graph (completedNodes ++ [ID node]) (<[ID node := outcome]> nodeOutcomes).
Proof.
  intros [Hdom Hnodes] Hnode Hterm. split.
  - intros id. rewrite in_app_iff. destruct (decide (id = ID node)) as [->|Hne].
    + rewrite lookup_insert_eq. split; [eauto|]. intros _. right. now left.
    + rewrite lookup_insert_ne by congruence. rewrite <- Hdom.
      split; [intros [Hc|[Hc|[]]]; [exact Hc|congruence]|now left].
  - intros id Hin. apply in_app_iff in Hin as [Hin|[<-|[]]]; [now apply Hnodes|].
    exists key, node. auto.
Qed.

Lemma runLoop_recorded (fuel : nat) (graph : Graph) :
  forall (currentNode : option Node) (stageIndex : Z)
         (completedNodes : list string) (nodeOutcomes : gmap string Outcome)
         (m : Machine) (result : RunResult),
    recorded graph completedNodes nodeOutcomes ->
    fst (runLoop Resolve LogsRoot fuel graph currentNode stageIndex
           completedNodes nodeOutcomes m) = RunOk result ->
    recorded graph (CompletedNodes result) (NodeOutcomes result) /\
    (RStatus result = StatusSuccess \/ RStatus result = StatusFail) /\
    (exists done, CompletedNodes result = completedNodes ++ done) /\
    (forall o, FinalOutcome result = Some o ->
       RStatus result = StatusFail /\ Status o = StatusFail /\
       exists id, last (CompletedNodes result) = Some id /\
                  NodeOutcomes result !! id = Some o).
Proof.
  induction fuel as [|fuel IH];
    intros currentNode stageIndex completedNodes nodeOutcomes m result Hrec;
    [discriminate|].
  cbn [runLoop]. destruct currentNode as [current|]; [|discriminate].
  destruct (Nodes graph !! ID current) as [node|] eqn:Hnode; [|discriminate].
  assert (Hfinish : forall completedNodes nodeOutcomes (m : @Machine W),
            recorded graph completedNodes nodeOutcomes ->
            fst (finish completedNodes nodeOutcomes m) = RunOk result ->
            recorded graph (CompletedNodes result) (NodeOutcomes result) /\
            (RStatus result = StatusSuccess \/ RStatus result = StatusFail) /\
            CompletedNodes result = completedNodes /\
            FinalOutcome result = None).
  { intros c n m0 Hr. unfold finish. cbn [fst]. intros [= <-].
    cbn [CompletedNodes NodeOutcomes RStatus FinalOutcome].
    split; [exact Hr|]. split; [|split; reflexivity].
    destruct (List.existsb _ _); auto. }
  destruct (isTerminal node) eqn:Hterm.
  - destruct (checkGoalGates graph nodeOutcomes) as [[|] [failedGate|]];
      try (intros Hf; destruct (Hfinish _ _ _ Hrec Hf) as (H1 & H2 & H3 & H4);
           split; [exact H1|]; split; [exact H2|];
           split; [exists []; now rewrite app_nil_r|];
           intros o Ho; congruence).
    destruct (if negb (String.eqb (getRetryTarget failedGate graph) "")
              then Nodes graph !! getRetryTarget failedGate graph else None)
      as [targetNode|].
    + now apply IH.
    + cbn [fst]. intros [= <-].
      cbn [CompletedNodes NodeOutcomes RStatus FinalOutcome].
      split; [exact Hrec|]. split; [now right|].
      split; [exists []; now rewrite app_nil_r|]. discriminate.
  - destruct (executeNode Resolve LogsRoot node graph stageIndex completedNodes
                nodeOutcomes m) as [[[outcome completedNodes'] nodeOutcomes'] m']
      eqn:Hexec.
    apply executeNode_records in Hexec as [-> ->].
    pose proof (recorded_step graph completedNodes nodeOutcomes (ID current) node
                  outcome Hrec Hnode Hterm) as Hrec'.
    assert (Hnext : forall target idx,
              fst (runLoop Resolve LogsRoot fuel graph target idx
                     (completedNodes ++ [ID node])
                     (<[ID node := outcome]> nodeOutcomes) m') = RunOk result ->
              recorded graph (CompletedNodes result) (NodeOutcomes result) /\
              (RStatus result = StatusSuccess \/ RStatus result = StatusFail) /\
              (exists done, CompletedNodes result = completedNodes ++ done) /\
              (forall o, FinalOutcome result = Some o ->
                 RStatus result = StatusFail /\ Status o = StatusFail /\
                 exists id, last (CompletedNodes result) = Some id /\
                            NodeOutcomes result !! id = Some o)).
    { intros target idx Hrun.
      destruct (IH _ _ _ _ _ _ Hrec' Hrun) as (H1 & H2 & (done & H3) & H4).
      split; [exact H1|]. split; [exact H2|]. split; [|exact H4].
      exists (ID node :: done). rewrite H3, <- app_assoc. reflexivity. }
    destruct (selectEdge node (Some outcome) (mCtx m') graph) as [nextEdge|].
    + destruct (LoopRestart nextEdge); apply Hnext.
    + destruct (String.eqb (Status outcome) StatusFail) eqn:Hfail.
      * cbn [fst]. intros [= <-].
        cbn [CompletedNodes NodeOutcomes RStatus FinalOutcome].
        split; [exact Hrec'|]. split; [now right|].
        split; [now exists [ID node]|].
        intros o [= <-]. split; [reflexivity|].
        split; [now apply String.eqb_eq|].
        exists (ID node). split; [apply last_snoc|apply lookup_insert_eq].
      * intros Hf. destruct (Hfinish _ _ _ Hrec' Hf) as (H1 & H2 & H3 & H4).
        split; [exact H1|]. split; [exact H2|].
        split; [exists [ID node]; exact H3|]. intros o Ho. congruence.
Qed.

(** A result that Run returns is consistent: a node is among the
    completed nodes exactly when an outcome is recorded for it, every
    completed node is the ID of a node of the graph that is not terminal
    (the handler of a terminal node is never invoked), the status is
    success or fail and nothing else, and a final outcome is only there
    when the run failed at a stage without a way on: it is then the fail
    outcome recorded for the node completed last. *)
Theorem Run_result_consistent (fuel : nat) (graph : Graph) (w : W)
    (result : RunResult) :
  fst (Run Resolve LogsRoot fuel graph w) = RunOk result ->
  (forall id, In id (CompletedNodes result)
              <-> is_Some (NodeOutcomes result !! id)) /\
  (forall id, In id (CompletedNodes result) ->
     exists key node, Nodes graph !! key = Some node /\ ID node = id /\
                      Shape node <> "Msquare") /\
  (RStatus result = StatusSuccess \/ RStatus result = StatusFail) /\
  (forall o, FinalOutcome result = Some o ->
     RStatus result = StatusFail /\ Status o = StatusFail /\
     exists id, last (CompletedNodes result) = Some id /\
                NodeOutcomes result !! id = Some o).
Proof.
  unfold Run. destruct (findStartNode graph) as [startNode|]; [|discriminate].
  intros Hrun.
  assert (Hrec : recorded graph [] ∅).
  { split; [|intros id []]. intros id. rewrite lookup_empty.
    split; [intros []|intros [? ?]; discriminate]. }
  destruct (runLoop_recorded _ _ _ _ _ _ _ _ Hrec Hrun)
    as ([Hdom Hnodes] & Hstatus & _ & Hfinal).
  split; [exact Hdom|]. split; [|split; [exact Hstatus|exact Hfinal]].
  intros id Hin. destruct (Hnodes id Hin) as (key & node & Hl & Hid & Hterm).
  exists key, node. split; [exact Hl|]. split; [exact Hid|].
  unfold isTerminal in Hterm. now apply String.eqb_neq.
Qed.

End RunMore.

Lemma Run_result_consistent_witness :
  exists result,
    fst (Pipeline.Run gateResolver "" 3 (gateGraph false) tt)
    = Pipeline.RunOk result /\
    (forall id, In id (Pipeline.CompletedNodes result)
                <-> is_Some (Pipeline.NodeOutcomes result !! id)) /\
    (Pipeline.RStatus result = Pipeline.StatusSuccess \/
     Pipeline.RStatus result = Pipeline.StatusFail).
Proof.
  assert (Hrun : { result | fst (Pipeline.Run gateResolver "" 3 (gateGraph false) tt)
                            = Pipeline.RunOk result })
    by (eexists; vm_compute; reflexivity).
  destruct Hrun as [result Hrun]. exists result. split; [exact Hrun|].
  destruct (Run_result_consistent gateResolver "" 3 (gateGraph false) tt result Hrun)
    as (Hdom & _ & Hstatus & _).
  split; [exact Hdom|exact Hstatus].
Defined.

(** ** Validation: reachability *)

Section Reachability.
Import Pipeline Validate.

(** An edge of the list leads from [a] to [b]. *)
Definition edgeStep (edges : list Edge) (a b : string) : Prop :=
  exists e, In e edges /\ From e = a /\ To e = b.

(** [k] is reached from [start] along edges of the list. *)
Definition reachable (edges : list Edge) (start k : string) : Prop :=
  rtc (edgeStep edges) start k.

Definition seen (visited : gmap string bool) (k : string) : Prop :=
  default false (visited !! k) = true.

Lemma seen_insert (visited : gmap string bool) (k k' : string) :
  seen (<[k := true]> visited) k' <-> k' = k \/ seen visited k'.
Proof.
  unfold seen. destruct (decide (k' = k)) as [->|Hne].
  - rewrite lookup_insert_eq. simpl. tauto.
  - rewrite lookup_insert_ne by congruence. split; [tauto|intros [?|?]; [congruence|assumption]].
Qed.

Lemma seen_dec (visited : gmap string bool) (k : string) :
  {seen visited k} + {~ seen visited k}.
Proof. unfold seen. destruct (default false (visited !! k)); [left|right]; congruence. Qed.

(** The targets of the edges that are not visited yet. *)
Definition unvisited (edges : list Edge) (visited : gmap string bool)
  : gset string :=
  filter (fun k => default false (visited !! k) = false)
    (list_to_set (List.map To edges) : gset string).

Lemma not_seen (visited : gmap string bool) (k : string) :
  default false (visited !! k) = false <-> ~ seen visited k.
Proof. unfold seen. destruct (default false _); split; congruence. Qed.

Lemma size_list_to_set_le (l : list string) :
  (size (list_to_set l : gset string) <= List.length l)%nat.
Proof.
  induction l as [|x l IH].
  - rewrite list_to_set_nil, size_empty. simpl. lia.
  - rewrite list_to_set_cons, size_union_alt, size_singleton.
    assert (size (list_to_set l ∖ {[x]} : gset string)
            <= size (list_to_set l : gset string))%nat
      by (apply subseteq_size, subseteq_difference_l; reflexivity).
    simpl. lia.
Qed.

Lemma visitEdges_spec (current : string) (all edges : list Edge) :
  (forall e, In e edges -> In e all) ->
  forall visited queue,
    exists new,
      let '(visited', queue') := visitEdges current edges visited queue in
      queue' = queue ++ new /\
      (forall k, seen visited k -> seen visited' k) /\
      (forall k, seen visited' k -> seen visited k \/ In k new) /\
      (forall k, In k new -> seen visited' k /\
                             exists e, In e edges /\ From e = current /\ To e = k) /\
      (forall e, In e edges -> From e = current -> seen visited' (To e)) /\
      (List.length queue' + size (unvisited all visited')
       = List.length queue + size (unvisited all visited))%nat.
Proof.
  induction edges as [|e rest IH]; intros Hsub visited queue.
  - exists []. cbn [visitEdges].
    split; [now rewrite app_nil_r|]. split; [auto|]. split; [auto|].
    split; [intros k []|]. split; [intros e []|reflexivity].
  - assert (Hsub' : forall e', In e' rest -> In e' all)
      by (intros e' He'; apply Hsub; now right).
    cbn [visitEdges].
    destruct (String.eqb_spec (From e) current) as [Hfrom|Hfrom].
    + destruct (seen_dec visited (To e)) as [Hs|Hs].
      * unfold seen in Hs. rewrite Hs. cbn [negb andb].
        destruct (IH Hsub' visited queue) as (new & Hnew). exists new.
        destruct (visitEdges current rest visited queue) as [visited' queue'].
        destruct Hnew as (Hq & Hmono & Hsplit & Hin & Hall & Hsize).
        split; [exact Hq|]. split; [exact Hmono|]. split; [exact Hsplit|].
        split; [|split; [|exact Hsize]].
        -- intros k Hk. destruct (Hin k Hk) as (Hk1 & e' & He' & ?).
           split; [exact Hk1|]. exists e'. split; [now right|auto].
        -- intros e' [<-|He'] Hf; [apply Hmono; exact Hs|now apply Hall].
      * assert (Hs' : default false (visited !! To e) = false).
        { unfold seen in Hs. destruct (default false _); congruence. }
        rewrite Hs'. cbn [negb andb].
        destruct (IH Hsub' (<[To e := true]> visited) (queue ++ [To e]))
          as (new & Hnew). exists (To e :: new).
        destruct (visitEdges current rest _ _) as [visited' queue'].
        destruct Hnew as (Hq & Hmono & Hsplit & Hin & Hall & Hsize).
        split; [now rewrite Hq, <- app_assoc|].
        split; [intros k Hk; apply Hmono, seen_insert; now right|].
        split.
        { intros k Hk. destruct (Hsplit k Hk) as [Hk'|Hk'].
          - apply seen_insert in Hk' as [->|Hk']; [right; now left|now left].
          - right. now right. }
        split.
        { intros k [<-|Hk].
          - split; [apply Hmono, seen_insert; now left|].
            exists e. split; [now left|auto].
          - destruct (Hin k Hk) as (Hk1 & e' & He' & ?). split; [exact Hk1|].
            exists e'. split; [now right|auto]. }
        split.
        { intros e' [<-|He'] Hf; [apply Hmono, seen_insert; now left|now apply Hall]. }
        rewrite Hsize, length_app. simpl.
        assert (Hel : To e ∈ unvisited all visited).
        { unfold unvisited. apply elem_of_filter. split; [exact Hs'|].
          apply elem_of_list_to_set, list_elem_of_In, in_map, Hsub. now left. }
        assert (Heq : unvisited all (<[To e := true]> visited)
                      = unvisited all visited ∖ {[To e]}).
        { apply set_eq. intros k. unfold unvisited.
          rewrite elem_of_difference, !elem_of_filter, elem_of_singleton,
            !not_seen, seen_insert.
          tauto. }
        rewrite Heq.
        assert (Hsz : size (unvisited all visited)
                      = S (size (unvisited all visited ∖ {[To e]}))).
        { rewrite (size_difference (unvisited all visited) {[To e]})
            by (apply singleton_subseteq_l; exact Hel).
          rewrite size_singleton.
          assert (size (unvisited all visited) <> 0)%nat; [|lia].
          apply size_non_empty_iff. intros Hempty. rewrite Hempty in Hel.
          now apply not_elem_of_empty in Hel. }
        lia.
    + cbn [andb].
      destruct (IH Hsub' visited queue) as (new & Hnew). exists new.
      destruct (visitEdges current rest visited queue) as [visited' queue'].
      destruct Hnew as (Hq & Hmono & Hsplit & Hin & Hall & Hsize).
      split; [exact Hq|]. split; [exact Hmono|]. split; [exact Hsplit|].
      split; [|split; [|exact Hsize]].
      * intros k Hk. destruct (Hin k Hk) as (Hk1 & e' & He' & ?).
        split; [exact Hk1|]. exists e'. split; [now right|auto].
      * intros e' [<-|He'] Hf; [congruence|now apply Hall].
Qed.

(** The fuel that ruleReachability gives is never used up. *)
Lemma bfs_fuel (edges : list Edge) (fuel : nat) :
  forall visited queue,
    (List.length queue + size (unvisited edges visited) <= fuel)%nat ->
    exists visited', bfs fuel edges visited queue = Some visited'.
Proof.
  induction fuel as [|fuel IH]; intros visited queue Hfuel.
  - destruct queue; [eexists; reflexivity|simpl in Hfuel; lia].
  - destruct queue as [|current queue]; [eexists; reflexivity|].
    cbn [bfs].
    destruct (visitEdges_spec current edges edges (fun _ H => H) visited queue)
      as (new & Hnew).
    destruct (visitEdges current edges visited queue) as [visited' queue'].
    destruct Hnew as (_ & _ & _ & _ & _ & Hsize).
    apply IH. simpl in Hfuel. lia.
Qed.

(** What the search keeps true: what is visited is reachable, and what
    is visited and no longer in the queue has all its successors
    visited. *)
Definition searching (edges : list Edge) (start : string)
    (visited : gmap string bool) (queue : list string) : Prop :=
  seen visited start /\
  (forall k, seen visited k -> reachable edges start k) /\
  (forall k, In k queue -> seen visited k) /\
  (forall k, seen visited k ->
     In k queue \/ forall e, In e edges -> From e = k -> seen visited (To e)).

Lemma closed_reachable (edges : list Edge) (start : string)
    (visited : gmap string bool) :
  seen visited start ->
  (forall k, seen visited k ->
             forall e, In e edges -> From e = k -> seen visited (To e)) ->
  forall k, reachable edges start k -> seen visited k.
Proof.
  intros Hstart Hclosed. unfold reachable. apply rtc_ind_r; [exact Hstart|].
  intros a b _ (e & He & <- & <-) Ha. now apply (Hclosed (From e)).
Qed.

Lemma bfs_spec (edges : list Edge) (start : string) (fuel : nat) :
  forall visited queue visited',
    searching edges start visited queue ->
    bfs fuel edges visited queue = Some visited' ->
    forall k, seen visited' k <-> reachable edges start k.
Proof.
  induction fuel as [|fuel IH]; intros visited queue visited' Hinv Hbfs.
  - destruct queue; [|discriminate]. injection Hbfs as <-.
    destruct Hinv as (Hstart & Hsound & _ & Hclosed).
    intros k. split; [apply Hsound|].
    apply closed_reachable; [exact Hstart|].
    intros k' Hk'. now destruct (Hclosed _ Hk') as [[]|Hall].
  - destruct queue as [|current queue].
    { injection Hbfs as <-.
      destruct Hinv as (Hstart & Hsound & _ & Hclosed).
      intros k. split; [apply Hsound|].
      apply closed_reachable; [exact Hstart|].
      intros k' Hk'. now destruct (Hclosed _ Hk') as [[]|Hall]. }
    cbn [bfs] in Hbfs.
    destruct (visitEdges_spec current edges edges (fun _ H => H) visited queue)
      as (new & Hnew).
    destruct (visitEdges current edges visited queue) as [visited1 queue1].
    destruct Hnew as (Hq & Hmono & Hsplit & Hin & Hall & _).
    apply (IH visited1 queue1); [|exact Hbfs].
    destruct Hinv as (Hstart & Hsound & Hqueue & Hclosed).
    split; [now apply Hmono|]. split; [|split].
    + intros k Hk. destruct (Hsplit k Hk) as [Hk'|Hk']; [now apply Hsound|].
      destruct (Hin k Hk') as (_ & e & He & Hfrom & <-).
      eapply rtc_r; [apply Hsound, Hqueue; now left|].
      exists e. auto.
    + intros k Hk. rewrite Hq in Hk. apply in_app_iff in Hk as [Hk|Hk].
      * apply Hmono, Hqueue. now right.
      * now apply Hin.
    + intros k Hk. destruct (Hsplit k Hk) as [Hk'|Hk'].
      * destruct (Hclosed k Hk') as [[<-|Hk'']|Hk''].
        -- right. exact Hall.
        -- left. rewrite Hq. apply in_app_iff. now left.
        -- right. intros e He Hfrom. apply Hmono. now apply Hk''.
      * left. rewrite Hq. apply in_app_iff. now right.
Qed.

Context `{GoRuntime}.

Lemma reachableFrom_spec (graph : Graph) (start : Node) (k : string) :
  seen (reachableFrom graph start) k <-> reachable (Edges graph) (ID start) k.
Proof.
  unfold reachableFrom.
  destruct (bfs_fuel (Edges graph) (S (List.length (Edges graph)))
              (<[ID start := true]> ∅) [ID start]) as (visited & Hbfs).
  { simpl. apply le_n_S.
    pose proof (size_list_to_set_le (List.map To (Edges graph))) as Hle.
    rewrite length_map in Hle.
    etransitivity; [|exact Hle].
    apply subseteq_size. unfold unvisited. intros x Hx.
    now apply elem_of_filter in Hx as [_ Hx]. }
  rewrite Hbfs. simpl.
  refine (bfs_spec _ _ _ _ _ _ _ Hbfs k).
  split; [apply seen_insert; now left|]. split; [|split].
  - intros k' Hk'. apply seen_insert in Hk' as [->|Hk']; [apply rtc_refl|].
    unfold seen in Hk'. rewrite lookup_empty in Hk'. discriminate.
  - intros k' [<-|[]]. apply seen_insert. now left.
  - intros k' Hk'. left. apply seen_insert in Hk' as [->|Hk']; [now left|].
    unfold seen in Hk'. rewrite lookup_empty in Hk'. discriminate.
Qed.

(** The diagnostic that ruleReachability gives for a node. *)
Definition unreachableNode (id : string) : Diagnostic :=
  mkDiagnostic "reachability" SeverityError
    ("Node " +:+ quoted id +:+ " is not reachable from the start node")
    id None "".


End Reachability.

(** ** Validation: the other rules *)

Section ValidationRules.
Import Pipeline Validate.
Context `{GoRuntime}.

Lemma range_map_NoDup {V : Type} (m : gmap string V) : NoDup (range_map m).
Proof. rewrite (range_map_perm V m). apply NoDup_map_to_list. Qed.

Lemma filter_singleton {A : Type} (p : A -> bool) (l : list A) :
  NoDup l ->
  (List.length (List.filter p l) = 1%nat <->
   exists x, In x l /\ p x = true /\ forall y, In y l -> p y = true -> y = x).
Proof.
  intros Hnd. split.
  - destruct (List.filter p l) as [|x [|y rest]] eqn:Hf; try discriminate.
    intros _. exists x.
    assert (Hx : In x (List.filter p l)) by (rewrite Hf; now left).
    apply filter_In in Hx as [Hx Hp]. split; [exact Hx|]. split; [exact Hp|].
    intros y Hy Hpy.
    assert (Hy' : In y (List.filter p l)) by (apply filter_In; auto).
    rewrite Hf in Hy'. destruct Hy' as [<-|[]]. reflexivity.
  - intros (x & Hx & Hp & Huniq).
    assert (Hnd' : NoDup (List.filter p l)).
    { apply NoDup_ListNoDup, List.NoDup_filter, NoDup_ListNoDup, Hnd. }
    destruct (List.filter p l) as [|a rest] eqn:Hf.
    + exfalso. assert (Hin : In x (List.filter p l)) by (apply filter_In; auto).
      rewrite Hf in Hin. destruct Hin.
    + assert (Hall : forall y, In y (a :: rest) -> y = x).
      { intros y Hy. rewrite <- Hf in Hy. apply filter_In in Hy as [Hy Hpy]. auto. }
      destruct rest as [|b rest]; [reflexivity|]. exfalso.
      assert (a = x) by (apply Hall; now left).
      assert (b = x) by (apply Hall; right; now left).
      subst. apply NoDup_cons in Hnd' as [Hnot _]. apply Hnot. now left.
Qed.

(** The graph has exactly one node of the shape. *)
Definition oneOfShape (shape : string) (graph : Graph) : Prop :=
  exists key node,
    Nodes graph !! key = Some node /\ Shape node = shape /\
    forall key' node', Nodes graph !! key' = Some node' ->
                       Shape node' = shape -> key' = key.

Lemma countShape_one (shape : string) (graph : Graph) :
  countShape shape graph = 1 <-> oneOfShape shape graph.
Proof.
  unfold countShape.
  assert (Hone : forall n : nat, Z.of_nat n = 1 <-> n = 1%nat) by (intros; lia).
  rewrite Hone, (filter_singleton _ _ (range_map_NoDup (Nodes graph))).
  split.
  - intros ([key node] & Hin & Hp & Huniq). exists key, node.
    apply range_map_lookup in Hin. split; [exact Hin|].
    split; [now apply String.eqb_eq|].
    intros key' node' Hl Hs.
    assert (E : (key', node') = (key, node)); [|congruence].
    apply Huniq; [now apply range_map_lookup|now apply String.eqb_eq].
  - intros (key & node & Hl & Hs & Huniq). exists (key, node).
    split; [now apply range_map_lookup|]. split; [now apply String.eqb_eq|].
    intros [key' node'] Hin Hp. apply range_map_lookup in Hin.
    apply String.eqb_eq in Hp. simpl in Hp.
    assert (key' = key) as -> by eauto. congruence.
Qed.

(** ruleStartNode reports nothing exactly when one node of the graph,
    and no second one, has the shape Mdiamond; otherwise it reports one
    error. A node that is the start only by its ID ([start], [Start]),
    which findStartNode accepts, does not satisfy the rule. *)
Theorem ruleStartNode_spec (graph : Graph) :
  (ruleStartNode graph = [] <-> oneOfShape "Mdiamond" graph) /\
  (ruleStartNode graph = [] \/
   exists d, ruleStartNode graph = [d] /\ DRule d = "start_node" /\
             DSeverity d = SeverityError).
Proof.
  rewrite <- countShape_one. unfold ruleStartNode.
  assert (Hpos : 0 <= countShape "Mdiamond" graph) by (unfold countShape; lia).
  destruct (Z.eqb_spec (countShape "Mdiamond" graph) 0) as [H0|H0].
  { split; [split; [discriminate|lia]|]. right. eexists. repeat split. }
  destruct (Z.ltb_spec 1 (countShape "Mdiamond" graph)) as [H1|H1].
  { split; [split; [discriminate|lia]|]. right. eexists. repeat split. }
  split; [split; [lia|reflexivity]|now left].
Qed.

(** Opening minus closing braces. *)
Fixpoint depth (s : string) : Z :=
  match s with
  | EmptyString => 0
  | String ch rest =>
      (if Ascii.eqb ch "{"%char then 1 else 0)
      - (if Ascii.eqb ch "}"%char then 1 else 0) + depth rest
  end.

(** No prefix has more closing than opening braces, and the whole text
    has as many of the one as of the other. *)
Definition balanced (s : string) : Prop :=
  (forall n : nat, 0 <= depth (substring 0 n s)) /\ depth s = 0.

Lemma countBraces_spec (s : string) :
  forall c : Z, 0 <= c ->
    match countBraces s c with
    | Some c' => (forall n : nat, 0 <= c + depth (substring 0 n s)) /\
                 c' = c + depth s
    | None => exists n : nat, c + depth (substring 0 n s) < 0
    end.
Proof.
  induction s as [|ch rest IH]; intros c Hc.
  - simpl. split; [|lia]. intros [|n]; simpl; lia.
  - cbn [countBraces].
    set (c1 := if Ascii.eqb ch "{"%char then c + 1 else c).
    set (c2 := if Ascii.eqb ch "}"%char then c1 - 1 else c1).
    assert (Hc2 : c2 = c + ((if Ascii.eqb ch "{"%char then 1 else 0)
                            - (if Ascii.eqb ch "}"%char then 1 else 0))).
    { unfold c2, c1. destruct (Ascii.eqb ch "{"); destruct (Ascii.eqb ch "}"); lia. }
    destruct (Z.ltb_spec c2 0) as [Hneg|Hpos].
    + exists 1%nat. cbn [substring depth].
      assert (Hsub : substring 0 0 rest = "") by (destruct rest; reflexivity).
      rewrite Hsub. cbn [depth]. lia.
    + specialize (IH c2 Hpos). destruct (countBraces rest c2) as [c'|].
      * destruct IH as [Hpre ->]. split.
        -- intros [|n]; cbn [substring depth]; [lia|]. specialize (Hpre n). lia.
        -- cbn [depth]. lia.
      * destruct IH as (n & Hn). exists (S n). cbn [substring depth]. lia.
Qed.

(** ruleStylesheetSyntax reports nothing exactly when the braces of the
    model stylesheet are balanced, read from left to right; otherwise it
    reports one error. A stylesheet whose braces are balanced is not
    looked at any further by the rule. *)
Theorem ruleStylesheetSyntax_spec (graph : Graph) :
  (ruleStylesheetSyntax graph = [] <-> balanced (ModelStylesheet graph)) /\
  (ruleStylesheetSyntax graph = [] \/
   exists d, ruleStylesheetSyntax graph = [d] /\ DRule d = "stylesheet_syntax" /\
             DSeverity d = SeverityError).
Proof.
  unfold ruleStylesheetSyntax.
  destruct (String.eqb_spec (ModelStylesheet graph) "") as [->|Hne].
  { split; [|now left]. split; [|reflexivity]. intros _.
    split; [|reflexivity]. intros [|n]; simpl; lia. }
  pose proof (countBraces_spec (ModelStylesheet graph) 0 ltac:(lia)) as Hspec.
  destruct (countBraces (ModelStylesheet graph) 0) as [c|].
  - destruct Hspec as [Hpre ->].
    destruct (Z.eqb_spec (0 + depth (ModelStylesheet graph)) 0) as [Hz|Hz]; cbn [negb].
    + split; [|now left]. split; [|reflexivity]. intros _. split; [|lia].
      intros n. specialize (Hpre n). lia.
    + split; [|right; eexists; repeat split].
      split; [discriminate|]. intros [_ Hd]. lia.
  - destruct Hspec as (n & Hn).
    split; [|right; eexists; repeat split].
    split; [discriminate|]. intros [Hpre _]. specialize (Hpre n). lia.
Qed.

(** The warning of ruleGoalGateHasRetry for a node. *)
Definition gateWithoutRetry (id : string) : Diagnostic :=
  mkDiagnostic "goal_gate_has_retry" SeverityWarning
    "goal_gate node has no retry_target or fallback_retry_target" id None
    "Add retry_target or fallback_retry_target to this node or the graph".

Lemma getRetryTarget_empty (node : Node) (graph : Graph) :
  getRetryTarget node graph = "" <->
  RetryTarget node = "" /\ FallbackRetryTarget node = "" /\
  GRetryTarget graph = "" /\ GFallbackRetryTarget graph = "".
Proof.
  unfold getRetryTarget.
  destruct (String.eqb_spec (RetryTarget node) "") as [->|H1]; cbn [negb];
    [|split; [congruence|tauto]].
  destruct (String.eqb_spec (FallbackRetryTarget node) "") as [->|H2]; cbn [negb];
    [|split; [congruence|tauto]].
  destruct (String.eqb_spec (GRetryTarget graph) "") as [->|H3]; cbn [negb];
    [|split; [congruence|tauto]].
  destruct (String.eqb_spec (GFallbackRetryTarget graph) "") as [->|H4]; cbn [negb];
    [tauto|split; [congruence|tauto]].
Qed.


End ValidationRules.

(** ** From validation to the run *)

Section ValidatedRun.
Import Pipeline Validate.

(** Every edge of the graph ends at a declared node. *)
Definition targetsDeclared (graph : Graph) : Prop :=
  forall e, In e (Edges graph) -> is_Some (Nodes graph !! To e).

(** Every node is stored under its ID, as the parser stores it. *)
Definition keyedByID (graph : Graph) : Prop :=
  forall key node, Nodes graph !! key = Some node -> ID node = key.

Section Engine.
Context `{GoRuntime}.
Context {W : Type}.
Variable Resolve : Node -> option (@Handler W).
Variable LogsRoot : string.

Lemma runLoop_safe (graph : Graph) :
  targetsDeclared graph ->
  forall (fuel : nat) (current : Node) (stageIndex : Z)
         (completedNodes : list string) (nodeOutcomes : gmap string Outcome)
         (m : Machine),
    let ret := fst (runLoop Resolve LogsRoot fuel graph (Some current) stageIndex
                      completedNodes nodeOutcomes m) in
    (ret <> RunPanic /\ ret <> RunError "no start node found") /\
    (keyedByID graph -> (exists key, Nodes graph !! key = Some current) ->
     forall err, ret <> RunError err).
Proof.
  intros Htargets. induction fuel as [|fuel IH];
    intros current stageIndex completedNodes nodeOutcomes m; cbv zeta.
  { split; [split; discriminate|intros; discriminate]. }
  cbn [runLoop].
  destruct (Nodes graph !! ID current) as [node|] eqn:Hnode.
  2:{ split; [split; discriminate|]. intros Hkeys (key & Hl) err.
      rewrite (Hkeys key current Hl) in Hnode. congruence. }
  assert (Hfinish : forall c n (m0 : @Machine W),
            (fst (finish c n m0) <> RunPanic /\
             fst (finish c n m0) <> RunError "no start node found") /\
            forall err, fst (finish c n m0) <> RunError err).
  { intros. unfold finish. split; [split; discriminate|intros; discriminate]. }
  assert (Hnext : forall target idx c n (m0 : @Machine W),
            is_Some (Nodes graph !! target) ->
            let ret := fst (runLoop Resolve LogsRoot fuel graph
                              (Nodes graph !! target) idx c n m0) in
            (ret <> RunPanic /\ ret <> RunError "no start node found") /\
            (keyedByID graph -> forall err, ret <> RunError err)).
  { intros target idx c n m0 [next Hl]. rewrite Hl.
    destruct (IH next idx c n m0) as [Hp He]. split; [exact Hp|].
    intros Hkeys. apply He; [exact Hkeys|eauto]. }
  destruct (isTerminal node).
  - destruct (checkGoalGates graph nodeOutcomes) as [[|] [failedGate|]];
      try (destruct (Hfinish completedNodes nodeOutcomes m) as [Hp He];
           split; [exact Hp|intros _ _; exact He]).
    destruct (negb (String.eqb (getRetryTarget failedGate graph) "")).
    + destruct (Nodes graph !! getRetryTarget failedGate graph) as [targetNode|] eqn:Ht.
      * destruct (IH targetNode stageIndex completedNodes nodeOutcomes m) as [Hp He].
        split; [exact Hp|]. intros Hkeys _. apply He; [exact Hkeys|eauto].
      * split; [split; discriminate|intros; discriminate].
    + split; [split; discriminate|intros; discriminate].
  - destruct (executeNode Resolve LogsRoot node graph stageIndex completedNodes
                nodeOutcomes m) as [[[outcome completedNodes'] nodeOutcomes'] m'].
    destruct (selectEdge node (Some outcome) (mCtx m') graph) as [nextEdge|] eqn:Hsel.
    + assert (Hto : is_Some (Nodes graph !! To nextEdge)).
      { apply Htargets. apply selectEdge_In in Hsel. unfold OutgoingEdges in Hsel.
        now apply filter_In in Hsel. }
      destruct (LoopRestart nextEdge).
      * destruct (Hnext (To nextEdge) stageIndex completedNodes' nodeOutcomes' m' Hto)
          as [Hp He]. split; [exact Hp|intros Hkeys _; now apply He].
      * destruct (Hnext (To nextEdge) (wrap64 (stageIndex + 1)) completedNodes'
                    nodeOutcomes' m' Hto) as [Hp He].
        split; [exact Hp|intros Hkeys _; now apply He].
    + destruct (String.eqb (Status outcome) StatusFail).
      * split; [split; discriminate|intros; discriminate].
      * destruct (Hfinish completedNodes' nodeOutcomes' m') as [Hp He].
        split; [exact Hp|intros _ _; exact He].
Qed.

End Engine.

Lemma ruleEdgeTargetExists_nil (graph : Graph) :
  ruleEdgeTargetExists graph = [] <->
  forall e, In e (Edges graph) ->
            is_Some (Nodes graph !! From e) /\ is_Some (Nodes graph !! To e).
Proof.
  unfold ruleEdgeTargetExists. induction (Edges graph) as [|e rest IH]; simpl.
  - split; [intros _ e []|reflexivity].
  - split.
    + intros Hnil. apply app_eq_nil in Hnil as [He Hrest].
      apply app_eq_nil in He as [Hfrom Hto].
      intros e' [<-|He'].
      * destruct (Nodes graph !! From e), (Nodes graph !! To e);
          try discriminate. split; eauto.
      * now apply IH.
    + intros Hall. destruct (Hall e (or_introl eq_refl)) as [[? ->] [? ->]].
      simpl. apply IH. intros e' He'. apply Hall. now right.
Qed.

Section Rules.
Context `{GoRuntime}.

(** Every diagnostic of the list is an error. *)
Definition allErrors (diagnostics : list Diagnostic) : Prop :=
  Forall (fun d => DSeverity d = SeverityError) diagnostics.

Lemma allErrors_concat_map {A : Type} (f : A -> list Diagnostic) (l : list A) :
  (forall x, allErrors (f x)) -> allErrors (List.concat (List.map f l)).
Proof.
  intros Hf. induction l as [|x l IH]; simpl; [constructor|].
  apply Forall_app. split; [apply Hf|exact IH].
Qed.

Lemma allErrors_map {A : Type} (f : A -> Diagnostic) (l : list A) :
  (forall x, DSeverity (f x) = SeverityError) -> allErrors (List.map f l).
Proof.
  intros Hf. induction l as [|x l IH]; simpl; constructor; auto.
Qed.

Lemma errorRules_allErrors (graph : Graph) :
  allErrors (ruleStartNode graph) /\ allErrors (ruleTerminalNode graph) /\
  allErrors (ruleStartNoIncoming graph) /\ allErrors (ruleExitNoOutgoing graph) /\
  allErrors (ruleReachability graph) /\ allErrors (ruleEdgeTargetExists graph) /\
  allErrors (ruleConditionSyntax graph) /\ allErrors (ruleStylesheetSyntax graph).
Proof.
  repeat split.
  - unfold ruleStartNode. cbv zeta.
    destruct (_ =? 0); [repeat constructor|].
    destruct (1 <? _); repeat constructor.
  - unfold ruleTerminalNode. cbv zeta. destruct (_ =? 0); repeat constructor.
  - unfold ruleStartNoIncoming. destruct (findStartNode graph); [|constructor].
    destruct (List.find _ _); repeat constructor.
  - unfold ruleExitNoOutgoing. destruct (findExitNode graph); [|constructor].
    destruct (List.find _ _); repeat constructor.
  - unfold ruleReachability. destruct (findStartNode graph); [|constructor].
    now apply allErrors_map.
  - unfold ruleEdgeTargetExists. apply allErrors_concat_map. intros e.
    apply Forall_app. split; destruct (Nodes graph !! _); repeat constructor.
  - unfold ruleConditionSyntax. apply allErrors_concat_map. intros e.
    destruct (negb _); [|constructor].
    destruct (validateConditionSyntax _); repeat constructor.
  - unfold ruleStylesheetSyntax. destruct (String.eqb _ _); [constructor|].
    destruct (countBraces _ _) as [c|]; [destruct (negb _)|]; repeat constructor.
Qed.

Lemma filter_errors_nil (l : list Diagnostic) :
  allErrors l -> List.filter (fun d => DSeverity d =? SeverityError) l = [] -> l = [].
Proof.
  intros Hall. destruct Hall as [|d l Hd _]; [reflexivity|].
  simpl. rewrite Hd. discriminate.
Qed.

Lemma ValidateOrRaise_passes (graph : Graph)
    (extraRules : list (Graph -> list Diagnostic)) :
  snd (ValidateOrRaise graph extraRules) = None ->
  ruleStartNode graph = [] /\ ruleTerminalNode graph = [] /\
  ruleStartNoIncoming graph = [] /\ ruleExitNoOutgoing graph = [] /\
  ruleReachability graph = [] /\ ruleEdgeTargetExists graph = [] /\
  ruleConditionSyntax graph = [] /\ ruleStylesheetSyntax graph = [].
Proof.
  unfold ValidateOrRaise.
  destruct (List.filter _ (Validate graph extraRules)) as [|d errors] eqn:Hf;
    [|rewrite length_cons;
      destruct (Z.ltb_spec 0 (Z.of_nat (S (List.length errors)))); [discriminate|lia]].
  intros _. unfold Validate in Hf. rewrite !List.filter_app in Hf.
  destruct (errorRules_allErrors graph)
    as (A1 & A2 & A3 & A4 & A5 & A6 & A7 & A8).
  repeat match type of Hf with
         | _ ++ _ = [] => apply app_eq_nil in Hf as [?H Hf]
         end.
  repeat split; now apply filter_errors_nil.
Qed.

End Rules.


End ValidatedRun.

(** ** Errors of the LLM client and the retry loop *)

Section RetryMoreFacts.
Import LLM.

(** ClassifyHTTPError keeps the status code and the body, and the error
    it gives is one that DefaultShouldRetry retries exactly for the
    status 429 and for every status from 500 on. The statuses 401, 403,
    400 and 422 and every other status below 500, 408 among them, are
    not retried. *)
Theorem ClassifyHTTPError_retryable (statusCode : Z) (body provider : string) :
  let e := ClassifyHTTPError statusCode body provider in
  StatusCode e = statusCode /\ Message e = body /\ Provider e = provider /\
  RetryAfter e = 0 /\
  (DefaultShouldRetry (ELLM e) = true <-> statusCode = 429 \/ 500 <= statusCode) /\
  (EType e = ErrorTypeAuth <-> statusCode = 401 \/ statusCode = 403) /\
  (EType e = ErrorTypeBadRequest <-> statusCode = 400 \/ statusCode = 422).
Proof.
  cbv zeta. unfold ClassifyHTTPError, DefaultShouldRetry, IsRetryable.
  cbn [StatusCode Message Provider RetryAfter EType].
  repeat split; try reflexivity;
    destruct (Z.eqb_spec statusCode 401); destruct (Z.eqb_spec statusCode 403);
    destruct (Z.eqb_spec statusCode 429); destruct (Z.eqb_spec statusCode 400);
    destruct (Z.eqb_spec statusCode 422); destruct (Z.leb_spec 500 statusCode);
    cbn; try lia; intros; try discriminate; try lia; auto; try (left; lia);
    try (right; lia); try reflexivity.
Qed.

Section Loop.
Context {W : Type}.
Variable fn : W -> (Response + Error) * W.
Variable randFloat64 : W -> Q * W.
Variable waitOrDone : Z -> W -> bool * W.

(** An error that the configured ShouldRetry, or DefaultShouldRetry when
    none is configured, does not retry. *)
Definition notRetried (config : RetryConfig) (err : Error) : Prop :=
  match ShouldRetry config with
  | Some f => f err = false
  | None => DefaultShouldRetry err = false
  end.

(** An error that is not to be retried ends Retry at once: when the
    first call of the operation fails with it, Retry returns that error
    after this one call and without waiting, whatever max_attempts is.
    With the default ShouldRetry this is so for every error that
    ClassifyHTTPError makes of a status below 500 other than 429, and for
    every error that is no [*LLMError]. *)
Theorem Retry_stops_on_fatal_error (config : RetryConfig) (w w' : W)
    (err : Error) :
  1 <= MaxAttempts config ->
  fn w = (inr err, w') ->
  (notRetried config err ->
   Retry fn randFloat64 waitOrDone config w = (RetryFailed err, [], w')) /\
  (forall statusCode body provider,
     ShouldRetry config = None \/ ShouldRetry config = Some DefaultShouldRetry ->
     err = ELLM (ClassifyHTTPError statusCode body provider) ->
     statusCode <> 429 -> statusCode < 500 ->
     Retry fn randFloat64 waitOrDone config w = (RetryFailed err, [], w')) /\
  (forall msg,
     ShouldRetry config = None \/ ShouldRetry config = Some DefaultShouldRetry ->
     err = EOther msg ->
     Retry fn randFloat64 waitOrDone config w = (RetryFailed err, [], w')).
Proof.
  intros Hmax Hfn.
  assert (Hstop : notRetried config err ->
            Retry fn randFloat64 waitOrDone config w = (RetryFailed err, [], w')).
  { intros Hnot. unfold Retry.
    destruct (Z.to_nat (MaxAttempts config)) as [|remaining] eqn:Hn; [lia|].
    cbn [retryLoop]. rewrite Hfn. unfold notRetried in Hnot.
    destruct (ShouldRetry config); rewrite Hnot; reflexivity. }
  split; [exact Hstop|]. split.
  - intros statusCode body provider Hdefault -> Hne Hlt. apply Hstop.
    assert (Hd : DefaultShouldRetry (ELLM (ClassifyHTTPError statusCode body provider))
                 = false).
    { unfold ClassifyHTTPError, DefaultShouldRetry, IsRetryable. cbn [EType].
      destruct (Z.eqb_spec statusCode 401); destruct (Z.eqb_spec statusCode 403);
        destruct (Z.eqb_spec statusCode 429); destruct (Z.eqb_spec statusCode 400);
        destruct (Z.eqb_spec statusCode 422); destruct (Z.leb_spec 500 statusCode);
        cbn; try lia; reflexivity. }
    unfold notRetried. destruct Hdefault as [->| ->]; exact Hd.
  - intros msg Hdefault ->. apply Hstop.
    unfold notRetried. destruct Hdefault as [->| ->]; reflexivity.
Qed.

(** The operation, and the clock and the random source beside it, on a
    world that also counts the calls of the operation. *)
Definition counted : W * nat -> (Response + Error) * (W * nat) :=
  fun '(w, calls) => let '(r, w') := fn w in (r, (w', S calls)).

Definition besideCount {A : Type} (f : W -> A * W) : W * nat -> A * (W * nat) :=
  fun '(w, calls) => let '(a, w') := f w in (a, (w', calls)).

Lemma retryLoop_counted (config : RetryConfig) (remaining : nat) :
  forall attempt lastErr slept w calls,
    Z.of_nat (S remaining) = MaxAttempts config - attempt + 1 ->
    exists calls',
      retryLoop counted (besideCount randFloat64)
        (fun delay => besideCount (waitOrDone delay))
        (S remaining) attempt config lastErr slept (w, calls)
      = (let '(ret, slept', w') :=
           retryLoop fn randFloat64 waitOrDone (S remaining) attempt config
             lastErr slept w in
         (ret, slept', (w', calls'))) /\
      let '(ret, slept', _) :=
        retryLoop fn randFloat64 waitOrDone (S remaining) attempt config lastErr
          slept w in
      (calls' <= calls + S remaining)%nat /\
      (calls' + List.length slept = S (calls + List.length slept'))%nat /\
      ret <> RetryNothing.
Proof.
  induction remaining as [|remaining IH]; intros attempt lastErr slept w calls Hsync.
  - cbn [retryLoop]. unfold counted at 1.
    destruct (fn w) as [[resp|err] w1] eqn:Hfn.
    + exists (S calls). split; [reflexivity|]. cbv beta iota; (split; [simpl; lia|]; split; [simpl; lia|discriminate]).
    + assert (Hlast : (MaxAttempts config <=? attempt) = true) by (apply Z.leb_le; lia).
      rewrite Hlast, orb_true_r.
      exists (S calls). split; [reflexivity|]. cbv beta iota; (split; [simpl; lia|]; split; [simpl; lia|discriminate]).
  - remember (S remaining) as r eqn:Hr. cbn [retryLoop]. unfold counted at 1.
    destruct (fn w) as [[resp|err] w1] eqn:Hfn.
    + exists (S calls). split; [reflexivity|]. cbv beta iota; (split; [simpl; lia|]; split; [simpl; lia|discriminate]).
    + destruct (negb _ || _).
      * exists (S calls). split; [reflexivity|].
        cbv beta iota; (split; [simpl; lia|]; split; [simpl; lia|discriminate]).
      * assert (Hstep : forall draw w2,
          exists calls',
            (let '(done, w0) := besideCount (waitOrDone (retryDelay config attempt err draw)) (w2, S calls) in
             if done then (RetryCancelled, slept, w0)
             else retryLoop counted (besideCount randFloat64)
                    (fun delay => besideCount (waitOrDone delay)) r (attempt + 1)
                    config (Some err) (slept ++ [retryDelay config attempt err draw]) w0)
            = (let '(ret, slept', w') :=
                 (let '(done, w0) := waitOrDone (retryDelay config attempt err draw) w2 in
                  if done then (RetryCancelled, slept, w0)
                  else retryLoop fn randFloat64 waitOrDone r (attempt + 1) config
                         (Some err) (slept ++ [retryDelay config attempt err draw]) w0) in
               (ret, slept', (w', calls'))) /\
            let '(ret, slept', _) :=
              (let '(done, w0) := waitOrDone (retryDelay config attempt err draw) w2 in
               if done then (RetryCancelled, slept, w0)
               else retryLoop fn randFloat64 waitOrDone r (attempt + 1) config
                      (Some err) (slept ++ [retryDelay config attempt err draw]) w0) in
            (calls' <= calls + S r)%nat /\
            (calls' + List.length slept = S (calls + List.length slept'))%nat /\
            ret <> RetryNothing).
        { intros draw w2. unfold besideCount at 1.
          destruct (waitOrDone (retryDelay config attempt err draw) w2) as [[|] w3].
          - exists (S calls). split; [reflexivity|].
            cbv beta iota; (split; [simpl; lia|]; split; [simpl; lia|discriminate]).
          - subst r.
            destruct (IH (attempt + 1) (Some err)
                        (slept ++ [retryDelay config attempt err draw]) w3 (S calls))
              as (calls' & Hrun & Hfacts); [lia|].
            exists calls'. split; [exact Hrun|].
            destruct (retryLoop fn randFloat64 waitOrDone (S remaining) (attempt + 1)
                        config (Some err) _ w3) as [[ret slept'] w'].
            rewrite length_app in Hfacts. cbn [List.length] in Hfacts.
            destruct Hfacts as (H1 & H2 & H3).
            split; [lia|]. split; [lia|exact H3]. }
        destruct (Jitter config).
        -- unfold besideCount at 1. destruct (randFloat64 w1) as [draw w2].
           apply Hstep.
        -- apply Hstep.
Qed.


End Loop.
End RetryMoreFacts.

Lemma Retry_stops_on_fatal_error_witness :
  LLM.Retry deniedEachTime (fun w => (0%Q, w)) (fun _ w => (false, w))
    LLM.DefaultRetryConfig 0%nat
  = (LLM.RetryFailed (LLM.ELLM (LLM.ClassifyHTTPError 401 "denied" "p")), [], 1%nat).
Proof.
  destruct (Retry_stops_on_fatal_error deniedEachTime (fun w => (0%Q, w))
              (fun _ w => (false, w)) LLM.DefaultRetryConfig 0%nat 1%nat
              (LLM.ELLM (LLM.ClassifyHTTPError 401 "denied" "p")))
    as (_ & Hhttp & _).
  - vm_compute. discriminate.
  - reflexivity.
  - apply (Hhttp 401 "denied" "p"); [right; reflexivity|reflexivity|lia|lia].
Defined.

(** ** The growth of the delay *)

Section DelayGrowth.
Import LLM.

Lemma truncate_mono (q q' : Q) : (q <= q')%Q -> truncate q <= truncate q'.
Proof.
  intros Hle. unfold truncate.
  destruct (Qle_bool 0 q) eqn:Hq; destruct (Qle_bool 0 q') eqn:Hq'.
  - now apply Qfloor_resp_le.
  - apply Qle_bool_iff in Hq.
    assert (Hn : ~ (0 <= q')%Q) by (intros Hc; apply Qle_bool_iff in Hc; congruence).
    exfalso. apply Hn. lra.
  - apply Qle_bool_iff in Hq'.
    assert (Hn : ~ (0 <= q)%Q) by (intros Hc; apply Qle_bool_iff in Hc; congruence).
    assert (Hc : Qceiling q <= 0).
    { rewrite <- (Qceiling_Z 0). apply Qceiling_resp_le.
      change (inject_Z 0) with 0%Q. lra. }
    assert (Hf : 0 <= Qfloor q').
    { rewrite <- (Qfloor_Z 0). apply Qfloor_resp_le.
      change (inject_Z 0) with 0%Q. exact Hq'. }
    lia.
  - now apply Qceiling_resp_le.
Qed.

Lemma truncate_comp (q q' : Q) : (q == q')%Q -> truncate q = truncate q'.
Proof.
  intros He. unfold truncate.
  rewrite (Qleb_comp _ _ (Qeq_refl 0) _ _ He), (Qfloor_comp _ _ He),
    (Qceiling_comp _ _ He). reflexivity.
Qed.

Lemma clampedDelay_mono (rc : RetryConfig) (k k' : Z) :
  0 <= InitialDelay rc -> (1 <= BackoffFactor rc)%Q -> k <= k' ->
  (clampedDelay rc k <= clampedDelay rc k')%Q.
Proof.
  intros Hinit Hfactor Hk. unfold clampedDelay.
  set (e := (inject_Z (InitialDelay rc) * BackoffFactor rc ^ (k - 1))%Q).
  set (e' := (inject_Z (InitialDelay rc) * BackoffFactor rc ^ (k' - 1))%Q).
  assert (He : (e <= e')%Q).
  { unfold e, e'.
    assert (Hp : (BackoffFactor rc ^ (k - 1) <= BackoffFactor rc ^ (k' - 1))%Q)
      by (apply Qpower_le_compat_l; [lia|exact Hfactor]).
    assert (Hi : (0 <= inject_Z (InitialDelay rc))%Q)
      by (pose proof Hinit as Hi; rewrite Zle_Qle in Hi; exact Hi).
    nra. }
  destruct (Qle_bool e _) eqn:H1; destruct (Qle_bool e' _) eqn:H2.
  - exact He.
  - now apply Qle_bool_iff.
  - apply Qle_bool_iff in H2.
    assert (Hn : ~ (e <= inject_Z (MaxDelay rc))%Q)
      by (intros Hc; apply Qle_bool_iff in Hc; congruence).
    exfalso. apply Hn. lra.
  - apply Qle_refl.
Qed.


End DelayGrowth.


(** ** Token usage *)

Section UsageFacts.
Import LLM.

Lemma wrap64_add_l (a b : Z) : wrap64 (wrap64 a + b) = wrap64 (a + b).
Proof.
  unfold wrap64. f_equal.
  replace ((a + 2 ^ 63) mod 2 ^ 64 - 2 ^ 63 + b + 2 ^ 63)
    with ((a + 2 ^ 63) mod 2 ^ 64 + b) by lia.
  rewrite Zplus_mod_idemp_l. f_equal. lia.
Qed.

(** The token counts of a Go program: every field is an [int]. *)
Definition usageInRange (u : Usage) : Prop :=
  inInt64 (InputTokens u) /\ inInt64 (OutputTokens u) /\
  inInt64 (TotalTokens u) /\ inInt64 (ReasoningTokens u) /\
  inInt64 (CachedTokens u) /\ inInt64 (CacheReadTokens u) /\
  inInt64 (CacheWriteTokens u).

(** Usage.Add can be used to sum the usage of several steps in any
    order and any grouping: it is commutative and associative, also when
    a sum leaves the range of [int], and the zero Usage changes
    nothing. *)
Theorem Usage_Add_monoid (u v x : Usage) :
  Add u v = Add v u /\
  Add (Add u v) x = Add u (Add v x) /\
  (usageInRange u -> Add u zeroUsage = u /\ Add zeroUsage u = u) /\
  usageInRange (Add u v).
Proof.
  split; [|split; [|split]].
  - unfold Add. f_equal; f_equal; lia.
  - unfold Add.
    cbn [InputTokens OutputTokens TotalTokens ReasoningTokens CachedTokens
         CacheReadTokens CacheWriteTokens].
    f_equal; rewrite wrap64_add_l, (Z.add_comm (_ u) (wrap64 _)), wrap64_add_l;
      f_equal; lia.
  - intros (H1 & H2 & H3 & H4 & H5 & H6 & H7). unfold Add, zeroUsage.
    cbn [InputTokens OutputTokens TotalTokens ReasoningTokens CachedTokens
         CacheReadTokens CacheWriteTokens].
    rewrite !Z.add_0_r, !Z.add_0_l, !wrap64_id by assumption.
    split; destruct u; reflexivity.
  - assert (Hw : forall z, inInt64 (wrap64 z)).
    { intros z. unfold inInt64, minInt64, maxInt64, wrap64.
      pose proof (Z.mod_pos_bound (z + 2 ^ 63) (2 ^ 64) ltac:(lia)). lia. }
    unfold usageInRange, Add.
    cbn [InputTokens OutputTokens TotalTokens ReasoningTokens CachedTokens
         CacheReadTokens CacheWriteTokens].
    repeat split; apply Hw.
Qed.

End UsageFacts.

(** ** What the stream accumulator collects *)

Section AccumulatorMore.
Import LLM.

(** The deltas of the events of one type, one after the other. *)
Fixpoint textOf (ty : StreamEventType) (events : list StreamEvent) : string :=
  match events with
  | [] => ""
  | event :: rest =>
      if String.eqb (SEType event) ty then Delta event +:+ textOf ty rest
      else textOf ty rest
  end.

(** The tool calls that the tool_call_start events carry. *)
Fixpoint startedCalls (events : list StreamEvent) : list ToolCall :=
  match events with
  | [] => []
  | event :: rest =>
      if String.eqb (SEType event) StreamEventToolCallStart then
        match SEToolCall event with
        | Some tc => tc :: startedCalls rest
        | None => startedCalls rest
        end
      else startedCalls rest
  end.

Definition identity (tc : ToolCall) : string * string := (TCID tc, TCName tc).

Lemma Process_collects (a a' : StreamAccumulator) (event : StreamEvent) :
  Process a event = Some a' ->
  content a' = content a +:+ textOf StreamEventDelta [event] /\
  reasoning a' = reasoning a +:+ textOf StreamEventReasoningDelta [event] /\
  id a' = id a /\ model a' = model a /\
  List.map identity (toolCalls a')
  = List.map identity (toolCalls a) ++ List.map identity (startedCalls [event]).
Proof.
  unfold Process. cbn [textOf startedCalls].
  destruct (String.eqb_spec (SEType event) StreamEventDelta) as [Hty|_].
  { rewrite Hty. intros [= <-]. cbn. rewrite !append_nil_r, app_nil_r. auto. }
  destruct (String.eqb_spec (SEType event) StreamEventReasoningDelta) as [Hty|_].
  { rewrite Hty. intros [= <-]. cbn. rewrite !append_nil_r, app_nil_r. auto. }
  destruct (String.eqb_spec (SEType event) StreamEventToolCallStart) as [Hty|_].
  { destruct (SEToolCall event) as [tc|]; intros [= <-]; cbn;
      rewrite !append_nil_r, ?app_nil_r, ?map_app; auto. }
  destruct (String.eqb_spec (SEType event) StreamEventToolCallDelta) as [Hty|_].
  { destruct (_ && _).
    - destruct (toolCalls a !! _) as [last|] eqn:Hlast; [|discriminate].
      intros [= <-]. cbn. rewrite !append_nil_r, app_nil_r.
      repeat split; try reflexivity.
      rewrite list_fmap_insert. cbn [identity TCID TCName].
      apply list_insert_id. rewrite list_lookup_fmap, Hlast. reflexivity.
    - intros [= <-]. rewrite !append_nil_r, app_nil_r. auto. }
  destruct (String.eqb_spec (SEType event) StreamEventEnd) as [Hty|_];
    intros [= <-]; cbn; rewrite !append_nil_r, app_nil_r; auto.
Qed.

Lemma textOf_cons (ty : StreamEventType) (event : StreamEvent)
    (rest : list StreamEvent) :
  textOf ty (event :: rest) = textOf ty [event] +:+ textOf ty rest.
Proof.
  cbn [textOf]. destruct (String.eqb _ _); [|reflexivity].
  now rewrite append_nil_r.
Qed.

Lemma startedCalls_cons (event : StreamEvent) (rest : list StreamEvent) :
  startedCalls (event :: rest) = startedCalls [event] ++ startedCalls rest.
Proof.
  cbn [startedCalls]. destruct (String.eqb _ _); [|reflexivity].
  destruct (SEToolCall event); reflexivity.
Qed.

(** The event of a tool call that starts, and of a piece of its
    arguments. *)
Definition toolCallStart (tc : ToolCall) : StreamEvent :=
  mkStreamEvent StreamEventToolCallStart "" (Some tc) "" None None None.

Definition toolCallDelta (delta : string) : StreamEvent :=
  mkStreamEvent StreamEventToolCallDelta delta None "" None None None.

Fixpoint joined (pieces : list string) : string :=
  match pieces with
  | [] => ""
  | piece :: rest => piece +:+ joined rest
  end.

Lemma deltas_extend_last (pieces : list string) :
  forall (a : StreamAccumulator) (calls : list ToolCall) (tc : ToolCall),
    toolCalls a = calls ++ [tc] ->
    exists a',
      ProcessAll a (List.map toolCallDelta pieces) = Some a' /\
      toolCalls a'
      = calls ++ [mkToolCall (TCID tc) (TCName tc) (Arguments tc +:+ joined pieces)] /\
      content a' = content a /\ reasoning a' = reasoning a.
Proof.
  induction pieces as [|piece rest IH]; intros a calls tc Hcalls.
  - exists a. cbn. rewrite append_nil_r. destruct tc. auto.
  - cbn [List.map ProcessAll]. unfold Process at 1.
    cbn [toolCallDelta SEType Delta].
    change (String.eqb StreamEventToolCallDelta StreamEventDelta) with false.
    change (String.eqb StreamEventToolCallDelta StreamEventReasoningDelta) with false.
    change (String.eqb StreamEventToolCallDelta StreamEventToolCallStart) with false.
    change (String.eqb StreamEventToolCallDelta StreamEventToolCallDelta) with true.
    cbv iota.
    assert (Hlen : (0 <? Z.of_nat (List.length (toolCalls a))) = true).
    { rewrite Hcalls, length_app. apply Z.ltb_lt. simpl. lia. }
    rewrite Hlen. cbn [andb].
    destruct (String.eqb_spec piece "") as [->|Hne]; cbn [negb].
    + destruct (IH a calls tc Hcalls) as (a' & Hrun & Hres).
      exists a'. split; [exact Hrun|]. exact Hres.
    + assert (Hlast : toolCalls a !! (List.length (toolCalls a) - 1)%nat = Some tc).
      { rewrite Hcalls, length_app. simpl.
        replace (List.length calls + 1 - 1)%nat with (List.length calls + 0)%nat by lia.
        now rewrite lookup_app_r, Nat.add_0_r, Nat.sub_diag by lia. }
      rewrite Hlast.
      set (a1 := mkStreamAccumulator _ _ _ _ _ _ _).
      destruct (IH a1 calls (mkToolCall (TCID tc) (TCName tc) (Arguments tc +:+ piece)))
        as (a' & Hrun & Hcalls' & Hc & Hr).
      { unfold a1. cbn [toolCalls]. rewrite Hcalls, length_app. simpl.
        replace (List.length calls + 1 - 1)%nat with (List.length calls + 0)%nat by lia.
        now rewrite insert_app_r. }
      exists a'. split; [exact Hrun|]. split; [|auto].
      rewrite Hcalls'. cbn [TCID TCName Arguments joined].
      now rewrite append_assoc.
Qed.


End AccumulatorMore.

(** ** The session: what a Submit changes *)

Section SubmitFacts.
Import LLM Agent.
Context {W : Type}.
Variable ctxErr : W -> option string.
Variable Complete : Request -> W -> (Response + string) * W.
Variable Execute : string -> string -> W -> (string * option string) * W.

Definition isTurnStarted (e : Event) : bool :=
  match e with
  | TurnStarted _ => true
  | _ => false
  end.

(** The [turn_started] events among the events: the loop emits one
    before each call of the model and at no other place. *)
Definition modelCalls (events : list Event) : nat :=
  List.length (List.filter isTurnStarted events).

(** From [s] to [s'] the session has kept its profile, its
    configuration, its state and its follow-up queue, the history and the
    emitted events have only grown at the end, and at most [calls] of the
    new events are [turn_started] events. *)
Definition grows (calls : nat) (s s' : Session) : Prop :=
  Profile s' = Profile s /\ Config s' = Config s /\ State s' = State s /\
  FollowupQueue s' = FollowupQueue s /\
  (exists turns, History s' = History s ++ turns) /\
  (exists events, Emitted s' = Emitted s ++ events /\
                  (modelCalls events <= calls)%nat).

Lemma grows_refl (s : Session) : grows 0 s s.
Proof.
  repeat split; try reflexivity;
    [exists []; now rewrite app_nil_r|exists []; split; [now rewrite app_nil_r|reflexivity]].
Qed.

Lemma grows_trans (n m : nat) (s1 s2 s3 : Session) :
  grows n s1 s2 -> grows m s2 s3 -> grows (n + m) s1 s3.
Proof.
  intros (A1 & A2 & A3 & A4 & (t1 & A5) & (e1 & A6 & A7))
         (B1 & B2 & B3 & B4 & (t2 & B5) & (e2 & B6 & B7)).
  repeat split; try congruence.
  - exists (t1 ++ t2). rewrite B5, A5, app_assoc. reflexivity.
  - exists (e1 ++ e2). split; [rewrite B6, A6, app_assoc; reflexivity|].
    unfold modelCalls in *. rewrite List.filter_app, length_app. lia.
Qed.

Lemma grows_le (n m : nat) (s s' : Session) :
  (n <= m)%nat -> grows n s s' -> grows m s s'.
Proof.
  intros Hle (A1 & A2 & A3 & A4 & A5 & (e & A6 & A7)).
  repeat split; try assumption. exists e. split; [exact A6|lia].
Qed.

Lemma grows_emit (s : Session) (e : Event) :
  grows (if isTurnStarted e then 1 else 0) s (emit s e).
Proof.
  repeat split; try reflexivity; [exists []; now rewrite app_nil_r|].
  exists [e]. split; [reflexivity|]. unfold modelCalls. cbn.
  destruct (isTurnStarted e); cbn; lia.
Qed.

Lemma grows_appendTurn (s : Session) (t : Turn) : grows 0 s (appendTurn s t).
Proof.
  repeat split; try reflexivity; [now exists [t]|].
  exists []. split; [cbn; now rewrite app_nil_r|reflexivity].
Qed.

Lemma grows_same (s s' : Session) :
  Profile s' = Profile s -> Config s' = Config s -> State s' = State s ->
  FollowupQueue s' = FollowupQueue s -> History s' = History s ->
  Emitted s' = Emitted s -> grows 0 s s'.
Proof.
  intros A1 A2 A3 A4 A5 A6. repeat split; try assumption.
  - exists []. now rewrite app_nil_r.
  - exists []. split; [now rewrite app_nil_r|reflexivity].
Qed.

Lemma executeToolCalls_grows (toolCalls : list ToolCall) :
  forall s w, grows 0 s (snd (fst (executeToolCalls Execute s toolCalls w))).
Proof.
  induction toolCalls as [|tc rest IH]; intros s w; [apply grows_refl|].
  cbn [executeToolCalls].
  destruct (Execute (TCName tc) (Arguments tc) w) as [[result err] w1].
  pose proof (grows_emit s (ToolCallStarted (TCName tc) (TCID tc))) as H1.
  cbn [isTurnStarted] in H1.
  destruct err as [e|]; [|destruct (applyTruncation _ _ _)]; try exact H1.
  - match goal with
    | |- context [executeToolCalls Execute (emit ?s0 ?ev) rest ?w1] =>
        pose proof (grows_emit s0 ev) as H2; cbn [isTurnStarted] in H2;
        specialize (IH (emit s0 ev) w1);
        destruct (executeToolCalls Execute (emit s0 ev) rest w1) as [[results s2] w2]
    end.
    cbn [fst snd] in *.
    exact (grows_trans 0 0 _ _ _ H1 (grows_trans 0 0 _ _ _ H2 IH)).
  - match goal with
    | |- context [executeToolCalls Execute (emit ?s0 ?ev) rest ?w1] =>
        pose proof (grows_emit s0 ev) as H2; cbn [isTurnStarted] in H2;
        specialize (IH (emit s0 ev) w1);
        destruct (executeToolCalls Execute (emit s0 ev) rest w1) as [[results s2] w2]
    end.
    cbn [fst snd] in *.
    exact (grows_trans 0 0 _ _ _ H1 (grows_trans 0 0 _ _ _ H2 IH)).
Qed.

Lemma detectLoops_grows (toolCalls : list ToolCall) :
  forall s, grows 0 s (snd (detectLoops s toolCalls)).
Proof.
  induction toolCalls as [|tc rest IH]; intros s; [apply grows_refl|].
  cbn [detectLoops].
  destruct (recordAndCheck (detector s) (TCName tc) (Arguments tc)) as [[[|]|] ld].
  - match goal with
    | |- context [detectLoops ?s1 rest] =>
        apply (grows_trans 0 0 s s1); [|apply IH]
    end.
    apply (grows_trans 0 0 _ (emit (setDetector s ld)
             (LoopDetected (TCName tc) (LoopDetectionWindow (Config (setDetector s ld)))))).
    + apply (grows_trans 0 0 _ (setDetector s ld));
        [now apply grows_same|apply (grows_emit _ (LoopDetected _ _))].
    + now apply grows_same.
  - apply (grows_trans 0 0 s (setDetector s ld)); [now apply grows_same|apply IH].
  - now apply grows_same.
Qed.

(** The loop calls the model at most once per round, and only adds to
    the history and to the events. *)
Lemma rounds_grows (remaining : nat) :
  forall toolRound s w,
    grows remaining s
      (snd (fst (rounds ctxErr Complete Execute remaining toolRound s w))).
Proof.
  induction remaining as [|remaining IH]; intros toolRound s w; [apply grows_refl|].
  cbn [rounds]. destruct (ctxErr w); [apply (grows_le 0); [lia|apply grows_refl]|].
  set (s1 := match SteeringQueue s with
             | msg :: queue =>
                 emit (appendTurn (setSteeringQueue s queue) (SteeringTurn msg))
                   (SteeringApplied msg)
             | [] => s
             end).
  assert (Hs1 : grows 0 s s1).
  { subst s1. destruct (SteeringQueue s) as [|msg queue]; [apply grows_refl|].
    apply (grows_trans 0 0 _ (setSteeringQueue s queue)); [now apply grows_same|].
    apply (grows_trans 0 0 _ (appendTurn (setSteeringQueue s queue) (SteeringTurn msg)));
      [apply grows_appendTurn|apply (grows_emit _ (SteeringApplied msg))]. }
  assert (Hs2 : grows 1 s (emit s1 (TurnStarted toolRound))).
  { apply (grows_trans 0 1 _ s1 _ Hs1). apply (grows_emit s1 (TurnStarted toolRound)). }
  destruct (Complete (buildRequest s1) w) as [[resp|err] w1].
  2:{ cbn [fst snd]. apply (grows_le 1); [lia|].
      apply (grows_trans 1 0 _ _ _ Hs2). apply (grows_emit _ (ErrorEvent err)). }
  set (s3 := setTurnCount _ _).
  assert (Hs3 : grows 1 s s3).
  { subst s3. apply (grows_trans 1 0 _ _ _ Hs2).
    eapply (grows_trans 0 0); [apply grows_appendTurn|now apply grows_same]. }
  cbn [fst snd].
  match goal with |- context [if ?b then _ else _] => destruct b end;
    [apply (grows_le 1); [lia|exact Hs3]|].
  destruct (RToolCalls resp) as [|tc tcs] eqn:Htcs.
  { apply (grows_le 1); [lia|]. apply (grows_trans 1 0 _ _ _ Hs3).
    apply (grows_emit _ (TurnCompleted _ _)). }
  pose proof (executeToolCalls_grows (tc :: tcs) s3 w1) as Hexec.
  destruct (executeToolCalls Execute s3 (tc :: tcs) w1) as [[results s4] w4].
  cbn [fst snd] in Hexec.
  assert (Hs4 : grows 1 s s4) by exact (grows_trans 1 0 _ _ _ Hs3 Hexec).
  destruct results as [results|]; [|apply (grows_le 1); [lia|exact Hs4]].
  set (s5 := appendTurn s4 (ToolResultsTurn results)).
  assert (Hs5 : grows 1 s s5).
  { apply (grows_trans 1 0 _ _ _ Hs4). apply grows_appendTurn. }
  destruct (EnableLoopDetection (Config s5)).
  - pose proof (detectLoops_grows (tc :: tcs) s5) as Hdet.
    destruct (detectLoops s5 (tc :: tcs)) as [ok s6]. cbn [snd] in Hdet.
    assert (Hs6 : grows 1 s s6) by exact (grows_trans 1 0 _ _ _ Hs5 Hdet).
    destruct ok; [|apply (grows_le 1); [lia|exact Hs6]].
    exact (grows_trans 1 remaining _ _ _ Hs6 (IH _ _ _)).
  - exact (grows_trans 1 remaining _ _ _ Hs5 (IH _ _ _)).
Qed.

(** The number of rounds that runLoop allows for one input. *)
Definition maxToolRounds (s : Session) : Z :=
  if MaxToolRoundsPerInput (Config s) =? 0 then 200
  else MaxToolRoundsPerInput (Config s).

(** Submit refuses a session that is neither idle nor awaiting input,
    a closed one for example: it returns an error that names the state
    and leaves the session as it is. On every other session Submit ends
    with the session idle again, also when the loop returned an error;
    and it returns without error only if no follow-up message was
    queued. *)
Theorem Submit_state (s : Session) (input : string) (w : W) :
  (State s <> StateIdle -> State s <> StateAwaitingInput ->
   Submit ctxErr Complete Execute s input w
   = (SubmitError ("session is not idle (state: " +:+ State s +:+ ")"), s, w)) /\
  (State s = StateIdle \/ State s = StateAwaitingInput ->
   let '(ret, s', _) := Submit ctxErr Complete Execute s input w in
   State s' = StateIdle /\ ret <> SubmitNested /\
   (ret = SubmitOk -> FollowupQueue s = [] /\ FollowupQueue s' = [])).
Proof.
  split.
  - intros H1 H2. unfold Submit. cbn [submitAt].
    apply String.eqb_neq in H1, H2. rewrite H1, H2. reflexivity.
  - intros Hstate. unfold Submit. cbn [submitAt].
    assert (Hguard : negb (String.eqb (State s) StateIdle)
                     && negb (String.eqb (State s) StateAwaitingInput) = false).
    { destruct Hstate as [-> | ->]; reflexivity. }
    rewrite Hguard. fold (started s input). unfold runLoop.
    pose proof (rounds_grows
                  (Z.to_nat (if MaxToolRoundsPerInput (Config (started s input)) =? 0
                             then 200
                             else MaxToolRoundsPerInput (Config (started s input))))
                  0 (started s input) w) as Hgrows.
    destruct (rounds ctxErr Complete Execute _ 0 (started s input) w)
      as [[exit s1] w1].
    cbn [fst snd] in Hgrows.
    destruct Hgrows as (_ & _ & Hst & Hq & _ & _).
    change (State (started s input)) with StateProcessing in Hst.
    change (FollowupQueue (started s input)) with (FollowupQueue s) in Hq.
    destruct exit.
    + destruct (FollowupQueue s1) as [|msg queue] eqn:Hq1.
      * cbv beta iota zeta. rewrite Hst. cbn.
        split; [reflexivity|]. split; [discriminate|].
        intros _. split; [congruence|exact Hq1].
      * destruct (List.length (FollowupQueue s)); cbn [submitAt];
          cbn [State setFollowupQueue]; rewrite Hst;
          change (negb (String.eqb StateProcessing StateIdle)
                  && negb (String.eqb StateProcessing StateAwaitingInput)) with true;
          cbv beta iota zeta; cbn [State setFollowupQueue]; rewrite Hst; cbn;
          (split; [reflexivity|]; split; discriminate).
    + cbv beta iota zeta. rewrite Hst. cbn. split; [reflexivity|]. split; discriminate.
    + cbv beta iota zeta. rewrite Hst. cbn. split; [reflexivity|]. split; discriminate.
Qed.

(** A Submit on a session that is idle or awaiting input never takes
    anything away: the history afterwards is the history before, then
    the UserTurn of the input, then what the loop added; the events are
    the events before, then [session_started], then the events of the
    loop. Of these at most max_tool_rounds_per_input are [turn_started]
    events (200 when the limit is 0): the model is called at most that
    often for one input. Profile and configuration stay as they are. *)
Theorem Submit_appends (s : Session) (input : string) (w : W) :
  State s = StateIdle \/ State s = StateAwaitingInput ->
  let '(_, s', _) := Submit ctxErr Complete Execute s input w in
  Profile s' = Profile s /\ Config s' = Config s /\
  (exists turns, History s' = History s ++ UserTurn input :: turns) /\
  (exists events,
     Emitted s' = Emitted s ++ SessionStarted input :: events /\
     Z.of_nat (modelCalls events) <= Z.max 0 (maxToolRounds s)).
Proof.
  intros Hstate. unfold Submit. cbn [submitAt].
  assert (Hguard : negb (String.eqb (State s) StateIdle)
                   && negb (String.eqb (State s) StateAwaitingInput) = false).
  { destruct Hstate as [-> | ->]; reflexivity. }
  rewrite Hguard. fold (started s input). unfold runLoop.
  change (Config (started s input)) with (Config s). fold (maxToolRounds s).
  pose proof (rounds_grows (Z.to_nat (maxToolRounds s)) 0 (started s input) w)
    as Hgrows.
  destruct (rounds ctxErr Complete Execute _ 0 (started s input) w)
    as [[exit s1] w1].
  cbn [fst snd] in Hgrows.
  destruct Hgrows as (A1 & A2 & Hst & _ & (turns & A5) & (events & A6 & A7)).
  change (State (started s input)) with StateProcessing in Hst.
  assert (Hfinal : forall s2,
            Profile s2 = Profile s1 -> Config s2 = Config s1 ->
            History s2 = History s1 -> Emitted s2 = Emitted s1 ->
            let s' := if String.eqb (State s2) StateProcessing
                      then setState s2 StateIdle else s2 in
            Profile s' = Profile s /\ Config s' = Config s /\
            (exists turns, History s' = History s ++ UserTurn input :: turns) /\
            (exists events,
               Emitted s' = Emitted s ++ SessionStarted input :: events /\
               Z.of_nat (modelCalls events) <= Z.max 0 (maxToolRounds s))).
  { intros s2 B1 B2 B3 B4.
    assert (Hs' : forall s', Profile s' = Profile s2 -> Config s' = Config s2 ->
                    History s' = History s2 -> Emitted s' = Emitted s2 ->
              Profile s' = Profile s /\ Config s' = Config s /\
              (exists turns, History s' = History s ++ UserTurn input :: turns) /\
              (exists events,
                 Emitted s' = Emitted s ++ SessionStarted input :: events /\
                 Z.of_nat (modelCalls events) <= Z.max 0 (maxToolRounds s))).
    { intros s' C1 C2 C3 C4.
      split; [now rewrite C1, B1, A1|]. split; [now rewrite C2, B2, A2|].
      split.
      - exists turns. rewrite C3, B3, A5. cbn [started History appendTurn emit setState].
        now rewrite <- app_assoc.
      - exists events. split; [|lia]. rewrite C4, B4, A6.
        cbn [started Emitted appendTurn emit setState]. now rewrite <- app_assoc. }
    cbv zeta. destruct (String.eqb (State s2) StateProcessing);
      now apply Hs'. }
  destruct exit.
  - destruct (FollowupQueue s1) as [|msg queue] eqn:Hq1.
    + cbv beta iota zeta. now apply (Hfinal s1).
    + destruct (List.length (FollowupQueue s)); cbn [submitAt];
        cbn [State setFollowupQueue]; rewrite Hst;
        change (negb (String.eqb StateProcessing StateIdle)
                && negb (String.eqb StateProcessing StateAwaitingInput)) with true;
        cbv beta iota zeta; now apply (Hfinal (setFollowupQueue s1 queue)).
  - cbv beta iota zeta. now apply (Hfinal s1).
  - cbv beta iota zeta. now apply (Hfinal s1).
Qed.

End SubmitFacts.

Lemma Submit_appends_witness :
  let s := Agent.NewSession testProfile Agent.DefaultSessionConfig in
  let s' := snd (fst (Agent.Submit neverCancelled finalAnswer noTools s "first" tt)) in
  Agent.State s = Agent.StateIdle /\
  exists turns,
    Agent.History s' = Agent.History s ++ Agent.UserTurn "first" :: turns.
Proof.
  intros s s'. split; [reflexivity|].
  pose proof (Submit_appends neverCancelled finalAnswer noTools s "first" tt
                (or_introl eq_refl)) as Happ.
  unfold s'.
  destruct (Agent.Submit neverCancelled finalAnswer noTools s "first" tt)
    as [[ret s1] w1].
  destruct Happ as (_ & _ & Hhistory & _). exact Hhistory.
Defined.

(** ** Truncation: lengths and the run-time checks *)

Section TruncationMore.
Import LLM Agent.

Lemma length_append (a b : string) :
  String.length (a +:+ b) = (String.length a + String.length b)%nat.
Proof.
  induction a as [|c a IH]; [reflexivity|].
  change (S (String.length (a +:+ b)) = S (String.length a + String.length b)).
  now rewrite IH.
Qed.

Lemma truncationMarker_length (truncated : Z) :
  (201 <= String.length (truncationMarker truncated))%nat.
Proof.
  unfold truncationMarker. rewrite !length_append.
  change (String.length nl) with 1%nat.
  match goal with
  | |- context [String.length (String ?c ?s)] =>
      let n := eval vm_compute in (String.length (String c s)) in
      change (String.length (String c s)) with n
  end.
  match goal with
  | |- context [String.length (String ?c ?s)] =>
      let n := eval vm_compute in (String.length (String c s)) in
      change (String.length (String c s)) with n
  end.
  lia.
Qed.

(** The limit is one that Go accepts without overflow in [limit * 3]. *)
Definition usableLimit (limit : Z) : Prop := 0 <= limit /\ 3 * limit <= maxInt64.

Lemma truncateToolOutput_defined (content : string) (limit : Z) :
  usableLimit limit -> GoStrings.len content <= maxInt64 ->
  exists result,
    truncateToolOutput content limit = Some result /\
    (GoStrings.len content <= limit -> result = content) /\
    (limit < GoStrings.len content -> limit + 51 <= GoStrings.len result).
Proof.
  intros [Hcap Hmul] Hlen. unfold truncateToolOutput.
  destruct (Z.leb_spec (GoStrings.len content) limit) as [Hfit|Hover].
  { exists content. split; [reflexivity|]. split; [auto|lia]. }
  set (headSize := 3 * limit / 4).
  assert (Hhead : 0 <= headSize <= limit).
  { unfold headSize. split; [apply Z.div_pos; lia|].
    apply Z.div_le_upper_bound; lia. }
  assert (Hquot : Z.quot (wrap64 (limit * 3)) 4 = headSize).
  { unfold maxInt64 in *. rewrite wrap64_id by (unfold inInt64, minInt64, maxInt64; lia).
    rewrite Z.quot_div_nonneg by lia. unfold headSize. f_equal. lia. }
  rewrite Hquot.
  unfold maxInt64 in *.
  rewrite (wrap64_id (limit - headSize)) by (unfold inInt64, minInt64, maxInt64; lia).
  rewrite (wrap64_id (limit - headSize - 150))
    by (unfold inInt64, minInt64, maxInt64; lia).
  set (tailSize := if limit - headSize - 150 <? 0 then 0 else limit - headSize - 150).
  assert (Htail : 0 <= tailSize <= limit /\ limit - 150 <= headSize + tailSize).
  { unfold tailSize. destruct (Z.ltb_spec (limit - headSize - 150) 0); lia. }
  rewrite (wrap64_id (GoStrings.len content - headSize))
    by (unfold inInt64, minInt64, maxInt64; lia).
  rewrite (wrap64_id (GoStrings.len content - headSize - tailSize))
    by (unfold inInt64, minInt64, maxInt64; lia).
  destruct (Z.ltb_spec headSize 0); [lia|].
  destruct (Z.ltb_spec (GoStrings.len content) headSize); [lia|].
  cbn [orb].
  pose proof (truncationMarker_length (GoStrings.len content - headSize - tailSize))
    as Hmarker.
  assert (Hlh : String.length (GoStrings.slice_to content (Z.to_nat headSize))
                = Z.to_nat headSize).
  { apply slice_to_length. unfold GoStrings.len in *. lia. }
  destruct (Z.ltb_spec 0 tailSize) as [Hpos|Hzero].
  - destruct (Z.ltb_spec (GoStrings.len content) tailSize); [lia|].
    eexists. split; [reflexivity|]. split; [lia|]. intros _.
    unfold GoStrings.len in *. rewrite !length_append, Hlh, slice_from_length. lia.
  - eexists. split; [reflexivity|]. split; [lia|]. intros _.
    unfold GoStrings.len in *. rewrite !length_append, Hlh. lia.
Qed.

(** An output that is longer than the cap is never brought down to the
    cap: what truncateToolOutput returns for it is at least 51 bytes
    longer than the cap, because the marker is longer than the 150 bytes
    set aside for it. An output that exceeds the cap by less than that
    comes back longer than it was. *)
Theorem truncateToolOutput_exceeds_cap (content : string) (limit : Z) :
  usableLimit limit -> GoStrings.len content <= maxInt64 ->
  limit < GoStrings.len content ->
  exists result,
    truncateToolOutput content limit = Some result /\
    limit + 51 <= GoStrings.len result /\
    (GoStrings.len content <= limit + 50 ->
     GoStrings.len content < GoStrings.len result).
Proof.
  intros Hlimit Hlen Hover.
  destruct (truncateToolOutput_defined content limit Hlimit Hlen)
    as (result & Hres & _ & Hlong).
  exists result. split; [exact Hres|]. specialize (Hlong Hover). split; lia.
Qed.

Lemma truncateLines_defined (content : string) (maxLines : Z) :
  0 <= maxLines ->
  exists result,
    truncateLines content maxLines = Some result /\
    let lines := GoStrings.Split content nl in
    let n := Z.of_nat (List.length lines) in
    (n <= maxLines -> result = content) /\
    (maxLines < n ->
     result
     = Join (firstn (Z.to_nat (maxLines / 2)) lines) nl
       +:+ (nl +:+ "[... " +:+ pretty (n - maxLines) +:+ " lines omitted ...]" +:+ nl)
       +:+ Join (skipn (Z.to_nat (n - (maxLines - maxLines / 2))) lines) nl).
Proof.
  intros Hmax. unfold truncateLines.
  set (lines := GoStrings.Split content nl).
  set (n := Z.of_nat (List.length lines)).
  destruct (Z.leb_spec n maxLines) as [Hfit|Hover].
  { exists content. split; [reflexivity|]. cbv zeta. split; [auto|lia]. }
  rewrite Z.quot_div_nonneg by lia.
  assert (Hhalf : 0 <= maxLines / 2 <= maxLines).
  { split; [apply Z.div_pos; lia|apply Z.div_le_upper_bound; lia]. }
  destruct (Z.ltb_spec (maxLines / 2) 0); [lia|].
  destruct (Z.ltb_spec (maxLines - maxLines / 2) 0); [lia|].
  destruct (Z.ltb_spec n (maxLines - maxLines / 2)); [lia|].
  cbn [orb]. eexists. split; [reflexivity|]. cbv zeta. split; [lia|].
  intros _.
  replace (n - maxLines / 2 - (maxLines - maxLines / 2)) with (n - maxLines) by lia.
  reflexivity.
Qed.

(** The limits of a configuration are non-negative and small enough for
    [limit * 3]. *)
Definition usableLimits (config : SessionConfig) : Prop :=
  forall toolName limit,
    ToolOutputLimits config !! toolName = Some limit -> usableLimit limit.

Lemma getToolOutputLimit_usable (config : SessionConfig) (toolName : string) :
  usableLimits config -> usableLimit (getToolOutputLimit config toolName).
Proof.
  intros Hconfig. unfold getToolOutputLimit.
  destruct (ToolOutputLimits config !! toolName) as [limit|] eqn:Hl; [eauto|].
  rewrite defaultToolOutputLimits_lookup. unfold defaultLimit, usableLimit, maxInt64.
  repeat match goal with |- context [if ?b then _ else _] => destruct b end; lia.
Qed.

Lemma defaultLineLimits_nonneg (toolName : string) (lineLimit : Z) :
  defaultLineLimits !! toolName = Some lineLimit -> 0 <= lineLimit.
Proof.
  unfold defaultLineLimits. intros Hl.
  destruct (String.eqb_spec toolName "bash") as [->|H1];
    [vm_compute in Hl; injection Hl as <-; lia|].
  destruct (String.eqb_spec toolName "grep") as [->|H2];
    [vm_compute in Hl; injection Hl as <-; lia|].
  destruct (String.eqb_spec toolName "glob") as [->|H3];
    [vm_compute in Hl; injection Hl as <-; lia|].
  rewrite !lookup_insert_ne, lookup_empty in Hl by congruence. discriminate.
Qed.

Lemma applyTruncation_returns (config : SessionConfig) (toolName output : string) :
  usableLimits config -> GoStrings.len output <= maxInt64 ->
  exists result, applyTruncation config toolName output = Some result.
Proof.
  intros Hconfig Hlen. unfold applyTruncation.
  destruct (truncateToolOutput_defined output (getToolOutputLimit config toolName)
              (getToolOutputLimit_usable config toolName Hconfig) Hlen)
    as (r1 & Hr1 & _).
  rewrite Hr1.
  destruct (defaultLineLimits !! toolName) as [lineLimit|] eqn:Hline.
  - destruct (truncateLines_defined r1 lineLimit
                (defaultLineLimits_nonneg toolName lineLimit Hline))
      as (r2 & Hr2 & _).
    exists r2. exact Hr2.
  - exists r1. reflexivity.
Qed.

(** With limits that are not negative (a configuration without
    overrides among them) applyTruncation returns for every tool and every
    output: no slice bound of the two stages leaves the string. An
    output within the cap of the tool, and for bash, grep and glob within
    256, 200 and 500 lines, is returned as it is. *)
Theorem applyTruncation_total (config : SessionConfig) (toolName output : string) :
  usableLimits config -> GoStrings.len output <= maxInt64 ->
  exists result,
    applyTruncation config toolName output = Some result /\
    (GoStrings.len output <= getToolOutputLimit config toolName ->
     match defaultLineLimits !! toolName with
     | Some lineLimit =>
         Z.of_nat (List.length (GoStrings.Split output nl)) <= lineLimit ->
         result = output
     | None => result = output
     end).
Proof.
  intros Hconfig Hlen. unfold applyTruncation.
  destruct (truncateToolOutput_defined output (getToolOutputLimit config toolName)
              (getToolOutputLimit_usable config toolName Hconfig) Hlen)
    as (r1 & Hr1 & Hsame & _).
  rewrite Hr1.
  destruct (defaultLineLimits !! toolName) as [lineLimit|] eqn:Hline.
  - destruct (truncateLines_defined r1 lineLimit
                (defaultLineLimits_nonneg toolName lineLimit Hline))
      as (r2 & Hr2 & Hfit & _).
    exists r2. split; [exact Hr2|]. intros Hcap Hlines.
    rewrite (Hsame Hcap) in *. now apply Hfit.
  - exists r1. split; [reflexivity|exact Hsame].
Qed.

Section Tools.
Context {W : Type}.
Variable Execute : string -> string -> W -> (string * option string) * W.


End Tools.
End TruncationMore.

Lemma truncateToolOutput_exceeds_cap_witness :
  exists result,
    Agent.truncateToolOutput "0123456789" 4 = Some result /\
    4 + 51 <= GoStrings.len result.
Proof.
  destruct (truncateToolOutput_exceeds_cap "0123456789" 4)
    as (result & Hres & Hlong & _).
  - split; vm_compute; discriminate.
  - vm_compute. discriminate.
  - vm_compute. reflexivity.
  - exists result. split; [exact Hres|exact Hlong].
Defined.

Lemma applyTruncation_total_witness :
  Agent.applyTruncation Agent.DefaultSessionConfig "bash" "ok" = Some "ok".
Proof.
  destruct (applyTruncation_total Agent.DefaultSessionConfig "bash" "ok")
    as (result & Hres & Hsame).
  - intros toolName limit Hl. cbn in Hl. rewrite lookup_empty in Hl. discriminate.
  - vm_compute. discriminate.
  - rewrite Hres. f_equal.
    assert (Hcap : GoStrings.len "ok"
                   <= Agent.getToolOutputLimit Agent.DefaultSessionConfig "bash")
      by (vm_compute; discriminate).
    specialize (Hsame Hcap).
    change (Agent.defaultLineLimits !! "bash") with (Some 256) in Hsame.
    apply Hsame. vm_compute. discriminate.
Defined.


(** ** The stylesheet: ties, repetition and the order of the maps *)

Section StylesheetMore.
Import Pipeline Stylesheet.

Lemma filter_sink (k : Z) (rule : Rule) (sorted : list Rule) :
  List.filter (fun r => Specificity r =? k) (sink rule sorted)
  = List.filter (fun r => Specificity r =? k) (rule :: sorted).
Proof.
  induction sorted as [|prev rest IH]; [reflexivity|].
  cbn [sink]. destruct (Z.ltb_spec (Specificity rule) (Specificity prev)) as [Hlt|Hge];
    [|reflexivity].
  cbn [List.filter] in *. rewrite IH.
  destruct (Z.eqb_spec (Specificity prev) k) as [Hp|Hp];
    destruct (Z.eqb_spec (Specificity rule) k) as [Hr|Hr]; try reflexivity; lia.
Qed.

(** sortBySpecificity is stable: rules of the same specificity keep the
    order they have in the stylesheet. *)
Lemma sortBySpecificity_stable (k : Z) (rules : list Rule) :
  List.filter (fun r => Specificity r =? k) (sortBySpecificity rules)
  = List.filter (fun r => Specificity r =? k) rules.
Proof.
  unfold sortBySpecificity.
  assert (Hgen : forall sorted,
            List.filter (fun r => Specificity r =? k)
              (List.fold_left (fun sorted rule => sink rule sorted) rules sorted)
            = rev (List.filter (fun r => Specificity r =? k) rules)
              ++ List.filter (fun r => Specificity r =? k) sorted).
  { induction rules as [|r rest IH]; intros sorted; [reflexivity|].
    cbn [List.fold_left]. rewrite IH, filter_sink. cbn [List.filter].
    destruct (Specificity r =? k); [|reflexivity].
    cbn [rev]. now rewrite <- app_assoc. }
  rewrite filter_rev, Hgen, app_nil_r. apply rev_involutive.
Qed.

Lemma filter_split {A : Type} (p : A -> bool) (l x z : list A) (y : A) :
  List.filter p l = x ++ y :: z ->
  exists l1 l2, l = l1 ++ y :: l2 /\ List.filter p l1 = x /\ List.filter p l2 = z.
Proof.
  revert x. induction l as [|a l IH]; intros x Hf.
  - destruct x; discriminate.
  - cbn [List.filter] in Hf. destruct (p a) eqn:Hp.
    + destruct x as [|x0 x].
      * injection Hf as -> Hf. exists [], l. cbn. auto.
      * injection Hf as -> Hf. destruct (IH x Hf) as (l1 & l2 & -> & H1 & H2).
        exists (x0 :: l1), l2. cbn. rewrite Hp, H1. auto.
    + destruct (IH x Hf) as (l1 & l2 & -> & H1 & H2).
      exists (a :: l1), l2. cbn. rewrite Hp. auto.
Qed.

Section OneRuntime.
Context `{GoRuntime}.

(** Among the matching rules that set an attribute the node does not
    have, a rule wins when no rule of higher specificity sets the
    attribute and no rule of the same specificity that sets it comes
    later in the stylesheet: rules of equal specificity are applied in
    the order of the stylesheet, so the last of them decides. *)
Theorem later_rule_wins (ss : Stylesheet) (node : Node) (f : StyleField)
    (val : string) (rule : Rule) (before after : list Rule) :
  fieldOf f node = "" ->
  List.filter (fun r => matches r node) (Rules ss) = before ++ rule :: after ->
  sets f rule val ->
  (forall r, In r before -> silent f r \/ Specificity r <= Specificity rule) ->
  (forall r, In r after -> silent f r \/ Specificity r < Specificity rule) ->
  fieldOf f (applyToNode ss node) = val.
Proof.
  intros Hempty Hmatching Hsets Hbefore Hafter.
  rewrite applyToNode_field, Hempty. cbn [String.eqb]. unfold styled.
  rewrite Hmatching.
  set (matching := before ++ rule :: after).
  set (k := Specificity rule).
  destruct (sortBySpecificity_spec matching) as [Hsorted Hperm].
  assert (Hstable := sortBySpecificity_stable k matching).
  assert (Hfk : List.filter (fun r => Specificity r =? k) matching
                = List.filter (fun r => Specificity r =? k) before
                  ++ rule :: List.filter (fun r => Specificity r =? k) after).
  { unfold matching. rewrite List.filter_app. cbn [List.filter].
    unfold k. now rewrite Z.eqb_refl. }
  rewrite Hfk in Hstable.
  apply filter_split in Hstable as (b' & a' & Happlied & _ & Ha').
  rewrite Happlied. apply applyRules_last_setter; [exact Hsets|].
  apply Forall_forall. intros r Hr. left.
  assert (Hge : k <= Specificity r).
  { rewrite Happlied in Hsorted. apply StronglySorted_app_1_r in Hsorted.
    apply StronglySorted_inv in Hsorted as [_ Hall].
    rewrite Forall_forall in Hall. exact (Hall r Hr). }
  destruct (Z.eq_dec (Specificity r) k) as [Heq|Hne].
  - assert (Hin : In r (List.filter (fun r => Specificity r =? k) a')).
    { apply filter_In. split; [now apply list_elem_of_In|now apply Z.eqb_eq]. }
    rewrite Ha' in Hin. apply filter_In in Hin as [Hin _].
    destruct (Hafter r Hin) as [Hs|Hlt]; [exact Hs|unfold k in *; lia].
  - assert (Hin : In r matching).
    { apply list_elem_of_In. rewrite <- Hperm, Happlied.
      apply elem_of_app. right. now right. }
    unfold matching in Hin. apply in_app_iff in Hin as [Hin|[<-|Hin]].
    + destruct (Hbefore r Hin) as [Hs|Hle]; [exact Hs|unfold k in *; lia].
    + unfold k in Hne. congruence.
    + destruct (Hafter r Hin) as [Hs|Hlt]; [exact Hs|unfold k in *; lia].
Qed.

End OneRuntime.

Lemma node_eq (a b : Node) :
  otherFields a = otherFields b ->
  (forall f, fieldOf f a = fieldOf f b) -> a = b.
Proof.
  intros Hother Hfields.
  pose proof (Hfields FModel) as H1. pose proof (Hfields FProvider) as H2.
  pose proof (Hfields FEffort) as H3.
  destruct a, b. unfold otherFields in Hother. cbn in *.
  injection Hother as -> -> -> -> -> -> -> -> -> -> -> -> -> -> -> ->.
  subst. reflexivity.
Qed.

Lemma matches_other (rule : Rule) (a b : Node) :
  otherFields a = otherFields b -> matches rule a = matches rule b.
Proof.
  intros Hother. unfold otherFields in Hother.
  injection Hother as Hid _ Hshape _ _ _ _ _ _ _ _ Hclass _ _ _ _.
  unfold matches. now rewrite Hid, Hshape, Hclass.
Qed.

(** A rule whose effect on each attribute does not depend on the order
    of its properties: it sets the model under at most one of the names
    [llm_model] and [model]. *)
Definition determinate (rule : Rule) : Prop :=
  forall f, silent f rule \/ exists val, sets f rule val.

Lemma applyRules_determinate (rt1 rt2 : GoRuntime) (f : StyleField)
    (rules : list Rule) :
  Forall determinate rules ->
  forall n1 n2,
    fieldOf f n1 = fieldOf f n2 ->
    fieldOf f (List.fold_left (@applyRule rt1) rules n1)
    = fieldOf f (List.fold_left (@applyRule rt2) rules n2).
Proof.
  induction 1 as [|rule rules Hrule _ IH]; intros n1 n2 Hn; [exact Hn|].
  cbn [List.fold_left]. apply IH.
  destruct (Hrule f) as [Hs|[val Hv]].
  - now rewrite (@applyRule_silent rt1), (@applyRule_silent rt2).
  - now rewrite (@applyRule_sets rt1 f n1 rule val), (@applyRule_sets rt2 f n2 rule val).
Qed.

Lemma applyToNode_again (rt1 rt2 : GoRuntime) (ss : Stylesheet) (node : Node) :
  (rt1 = rt2 \/ Forall determinate (Rules ss)) ->
  @applyToNode rt2 ss (@applyToNode rt1 ss node) = @applyToNode rt1 ss node /\
  (Forall determinate (Rules ss) ->
   @applyToNode rt1 ss node = @applyToNode rt2 ss node).
Proof.
  intros Hcase.
  set (n1 := @applyToNode rt1 ss node).
  assert (Hother : otherFields n1 = otherFields node)
    by apply (@applyToNode_other rt1).
  assert (Hmatching : List.filter (fun r => matches r n1) (Rules ss)
                      = List.filter (fun r => matches r node) (Rules ss)).
  { apply List.filter_ext. intros r. now apply matches_other. }
  assert (Hstart : withLLM n1 "" "" "" = withLLM node "" "" "").
  { apply node_eq; [|intros []; reflexivity].
    unfold otherFields in *. cbn. exact Hother. }
  assert (Hdet : Forall determinate (Rules ss) ->
            forall f, fieldOf f (@styled rt2 ss n1) = fieldOf f (@styled rt1 ss node)).
  { intros Hall f. unfold styled. rewrite Hmatching, Hstart.
    apply applyRules_determinate; [|reflexivity].
    apply Forall_forall. intros r Hr.
    rewrite Forall_forall in Hall. apply Hall.
    apply list_elem_of_In. apply list_elem_of_In in Hr.
    destruct (sortBySpecificity_spec
                (List.filter (fun r => matches r node) (Rules ss))) as [_ Hperm].
    apply list_elem_of_In in Hr. rewrite Hperm in Hr.
    apply list_elem_of_In, filter_In in Hr. tauto. }
  assert (Hstyled : forall f, fieldOf f (@styled rt2 ss n1)
                              = fieldOf f (@styled rt1 ss node)).
  { destruct Hcase as [<-|Hall]; [|now apply Hdet].
    intros f. unfold styled. now rewrite Hmatching, Hstart. }
  split.
  - apply node_eq.
    + now rewrite (@applyToNode_other rt2).
    + intros f. rewrite (@applyToNode_field rt2), Hstyled.
      destruct (String.eqb_spec (fieldOf f n1) "") as [He|He]; [|reflexivity].
      rewrite He. unfold n1 in He. rewrite (@applyToNode_field rt1) in He.
      destruct (String.eqb_spec (fieldOf f node) "") as [Hn|Hn]; [exact He|].
      congruence.
  - intros Hall. unfold n1. apply node_eq.
    + now rewrite (@applyToNode_other rt1), (@applyToNode_other rt2).
    + intros f. rewrite (@applyToNode_field rt1), (@applyToNode_field rt2).
      destruct (String.eqb (fieldOf f node) ""); [|reflexivity].
      unfold styled. apply applyRules_determinate; [|reflexivity].
      apply Forall_forall. intros r Hr.
      rewrite Forall_forall in Hall. apply Hall.
      destruct (sortBySpecificity_spec
                  (List.filter (fun r => matches r node) (Rules ss))) as [_ Hperm].
      rewrite Hperm in Hr. apply list_elem_of_In, filter_In in Hr.
      apply list_elem_of_In. tauto.
Qed.

Lemma Apply_ext (rt1 : GoRuntime) (ss : Stylesheet) (g1 g2 : Graph) :
  Name g1 = Name g2 -> Goal g1 = Goal g2 -> GLabel g1 = GLabel g2 ->
  ModelStylesheet g1 = ModelStylesheet g2 ->
  DefaultMaxRetry g1 = DefaultMaxRetry g2 ->
  DefaultFidelity g1 = DefaultFidelity g2 ->
  GRetryTarget g1 = GRetryTarget g2 ->
  GFallbackRetryTarget g1 = GFallbackRetryTarget g2 ->
  Edges g1 = Edges g2 -> GAttrs g1 = GAttrs g2 ->
  @applyToNode rt1 ss <$> Nodes g1 = Nodes g2 ->
  @Apply rt1 ss g1 = g2.
Proof.
  intros. unfold Apply. destruct g2. cbn in *. congruence.
Qed.


End StylesheetMore.

Lemma later_rule_wins_witness :
  Pipeline.LLMModel
    (Stylesheet.applyToNode
       (Stylesheet.mkStylesheet [firstModelRule; secondModelRule])
       (testNode "b" "box" "B"))
  = "second-model".
Proof.
  apply (later_rule_wins (Stylesheet.mkStylesheet [firstModelRule; secondModelRule])
           (testNode "b" "box" "B") FModel "second-model" secondModelRule
           [firstModelRule] []).
  - reflexivity.
  - reflexivity.
  - exists "llm_model". split; [reflexivity|]. split; [reflexivity|].
    intros prop' val' Hl _. cbn in Hl.
    apply lookup_insert_Some in Hl as [[<- _]|[_ Hl]]; [reflexivity|].
    rewrite lookup_empty in Hl. discriminate.
  - intros r [<-|[]]. right. reflexivity.
  - intros r [].
Defined.

(** ** The two evaluators of conditions, and util.go *)

Section ConditionFacts.
Import Pipeline.

Lemma resolveKey_agree (key : string) (outcome : option Outcome) (ctx : Context) :
  Condition.resolveKey key outcome ctx = resolveKeySimple key outcome ctx.
Proof. reflexivity. Qed.

Lemma evaluateAll_agree (clauses : list string) (outcome : option Outcome)
    (ctx : Context) :
  Condition.evaluateAll clauses outcome ctx = evaluateClauses clauses outcome ctx.
Proof.
  induction clauses as [|clause rest IH]; [reflexivity|].
  cbn [Condition.evaluateAll evaluateClauses]. rewrite IH. reflexivity.
Qed.

(** The engine does not call the condition package: it has an evaluator
    of its own. The two agree on every condition, outcome and context,
    so an edge that the engine follows is one whose condition the
    package's Evaluate accepts. *)
Theorem Evaluate_agrees_with_engine (condition : string)
    (outcome : option Outcome) (ctx : Context) :
  Condition.Evaluate condition outcome ctx
  = evaluateConditionSimple condition outcome ctx.
Proof.
  unfold Condition.Evaluate, evaluateConditionSimple.
  destruct (String.eqb (GoStrings.TrimSpace condition) ""); [reflexivity|].
  apply evaluateAll_agree.
Qed.

Lemma slice_to_prefix (s : string) :
  forall n, String.prefix (GoStrings.slice_to s n) s = true.
Proof.
  unfold GoStrings.slice_to.
  induction s as [|c s IH]; intros [|n]; simpl; try reflexivity.
  destruct (ascii_dec c c); [apply IH|congruence].
Qed.

(** truncate returns at most [maxLen] bytes: the string itself when it
    fits, and otherwise exactly [maxLen] bytes, for a limit above 3 ending
    in three dots. With a negative limit the slice bound is negative and
    the program stops, for every string. *)
Theorem truncate_length (s : string) (maxLen : Z) :
  (maxLen < 0 -> truncate s maxLen = None) /\
  (0 <= maxLen ->
   exists r, truncate s maxLen = Some r /\
             GoStrings.len r = Z.min (GoStrings.len s) maxLen /\
             (GoStrings.len s <= maxLen -> r = s) /\
             (3 < maxLen < GoStrings.len s ->
              exists head, r = head +:+ "..." /\ String.prefix head s = true)).
Proof.
  unfold truncate, GoStrings.len. split.
  - intros Hneg. destruct (Z.leb_spec (Z.of_nat (String.length s)) maxLen); [lia|].
    destruct (Z.leb_spec maxLen 3); [|lia].
    destruct (Z.ltb_spec maxLen 0); [reflexivity|lia].
  - intros Hpos. destruct (Z.leb_spec (Z.of_nat (String.length s)) maxLen) as [Hfit|Hlong].
    + exists s. split; [reflexivity|]. split; [lia|]. split; [reflexivity|lia].
    + destruct (Z.leb_spec maxLen 3) as [Hsmall|Hbig].
      * destruct (Z.ltb_spec maxLen 0); [lia|].
        eexists. split; [reflexivity|]. rewrite slice_to_length by lia.
        split; [lia|]. split; lia.
      * eexists. split; [reflexivity|].
        rewrite length_append, slice_to_length by lia. cbn [String.length].
        split; [lia|]. split; [lia|]. intros _.
        eexists. split; [reflexivity|]. apply slice_to_prefix.
Qed.

End ConditionFacts.
